(** * beapp-server: visibility scoring and aggregation pipeline

    A shallow embedding of the scoring calculator, the scoring and question
    parsers, the question validator and the dashboard aggregator, together
    with the properties stated about them.

    JavaScript numbers are IEEE 754 binary64 values; they are modelled by the
    standard library's executable specification [spec_float] at precision 53
    and maximal exponent 1024, so that rounding, signed zeros, infinities and
    NaN behave as they do in the engine.  JavaScript strings are sequences of
    UTF-16 code units and are modelled as lists of code units. *)

From Stdlib Require Import ZArith NArith List Bool Lia String Ascii.
From Stdlib Require Import Floats.SpecFloat.
From Stdlib Require DecimalString DecimalNat.
Import ListNotations.

Set Implicit Arguments.
Set Warnings "-register-all".

(* ================================================================== *)
(** * The JavaScript number type *)
(* ================================================================== *)

Module Num.

Definition number := spec_float.

Definition prec : Z := 53.
Definition emax : Z := 1024.

Definition add (x y : number) : number := SFadd prec emax x y.
Definition mul (x y : number) : number := SFmul prec emax x y.
Definition div (x y : number) : number := SFdiv prec emax x y.

(** [x < y], [x <= y] and [x === y] on numbers; every comparison with NaN
    is false and the two zeros are equal. *)
Definition lt (x y : number) : bool := SFltb x y.
Definition le (x y : number) : bool := SFleb x y.
Definition gt (x y : number) : bool := SFltb y x.
Definition ge (x y : number) : bool := SFleb y x.
Definition strictEq (x y : number) : bool := SFeqb x y.

(** An integer as a number (exact below 2^53, rounded to nearest even
    above). *)
Definition ofZ (z : Z) : number := binary_normalize prec emax z 0 false.

(** The decimal literal [m / 10^k]: the correctly rounded quotient of two
    exactly representable integers, which is the double the literal
    denotes. *)
Definition dec (m : Z) (k : nat) : number :=
  div (ofZ m) (ofZ (10 ^ Z.of_nat k)).

Definition NaN : number := S754_nan.
Definition zero : number := S754_zero false.
Definition one : number := Eval vm_compute in ofZ 1.

(** [Number.isFinite] on a value that is a number. *)
Definition isFinite (x : number) : bool :=
  match x with
  | S754_zero _ | S754_finite _ _ _ => true
  | S754_infinity _ | S754_nan => false
  end.

(** [Math.min] of two numbers: NaN if either is NaN, and -0 is smaller
    than +0. *)
Definition Math_min (x y : number) : number :=
  match x, y with
  | S754_nan, _ | _, S754_nan => S754_nan
  | _, _ =>
      if lt x y then x
      else if lt y x then y
      else match x with S754_zero true => x | _ => y end
  end.

End Num.

Import Num.

Arguments dec : simpl never.
Arguments ofZ : simpl never.
Arguments add : simpl never.
Arguments mul : simpl never.
Arguments div : simpl never.

(* ================================================================== *)
(** * JavaScript strings *)
(* ================================================================== *)

Module Str.

(** A string is its sequence of UTF-16 code units. *)
Definition jsstring := list N.

(** A source literal made of ASCII characters. *)
Definition lit (s : string) : jsstring :=
  map N_of_ascii (list_ascii_of_string s).

Definition inRange (lo hi c : N) : bool := (lo <=? c)%N && (c <=? hi)%N.

(** WhiteSpace and LineTerminator code units: what [trim] removes and what
    the class [\s] matches. *)
Definition isWhiteSpace (c : N) : bool :=
  inRange 9 13 c || (c =? 32)%N || (c =? 160)%N || (c =? 5760)%N
  || inRange 8192 8202 c || (c =? 8232)%N || (c =? 8233)%N
  || (c =? 8239)%N || (c =? 8287)%N || (c =? 12288)%N || (c =? 65279)%N.

Fixpoint dropWhile (p : N -> bool) (s : jsstring) : jsstring :=
  match s with
  | c :: s' => if p c then dropWhile p s' else s
  | [] => []
  end.

Definition trimStart (s : jsstring) : jsstring := dropWhile isWhiteSpace s.
Definition trimEnd (s : jsstring) : jsstring :=
  rev (dropWhile isWhiteSpace (rev s)).
Definition trim (s : jsstring) : jsstring := trimEnd (trimStart s).

Fixpoint eqb (a b : jsstring) : bool :=
  match a, b with
  | [], [] => true
  | x :: a', y :: b' => (x =? y)%N && eqb a' b'
  | _, _ => false
  end.

(** [stripPrefix p s] is the rest of [s] after the prefix [p], if [s]
    starts with [p]. *)
Fixpoint stripPrefix (p s : jsstring) : option jsstring :=
  match p, s with
  | [], _ => Some s
  | a :: p', b :: s' => if (a =? b)%N then stripPrefix p' s' else None
  | _ :: _, [] => None
  end.

Definition startsWith (s p : jsstring) : bool :=
  match stripPrefix p s with Some _ => true | None => false end.

Fixpoint includes (s sub : jsstring) : bool :=
  startsWith s sub ||
  match s with
  | _ :: s' => includes s' sub
  | [] => false
  end.

(** [a.join(sep)] on an array of strings. *)
Fixpoint join (sep : jsstring) (l : list jsstring) : jsstring :=
  match l with
  | [] => []
  | [a] => a
  | a :: l' => a ++ sep ++ join sep l'
  end.

Definition isDigit (c : N) : bool := inRange 48 57 c.

(** ASCII lower-casing; [String.prototype.toLowerCase] agrees with it on
    strings of ASCII characters. *)
Definition asciiLower (s : jsstring) : jsstring :=
  map (fun c => if inRange 65 90 c then (c + 32)%N else c) s.

End Str.

Import Str.

(* ================================================================== *)
(** * JavaScript values and ordinary objects *)
(* ================================================================== *)

Module Value.

(** The values [JSON.parse] can produce, with [undefined] for an absent
    property.  An object is its list of own properties in the order
    [Object.entries] and [Object.keys] enumerate them. *)
Inductive JsValue :=
| JUndefined
| JNull
| JBool (b : bool)
| JNum (x : number)
| JStr (s : jsstring)
| JArr (items : list JsValue)
| JObj (props : list (jsstring * JsValue)).

Fixpoint digitsValue (acc : N) (s : jsstring) : option N :=
  match s with
  | [] => Some acc
  | c :: s' => if isDigit c then digitsValue (10 * acc + (c - 48))%N s' else None
  end.

(** An array index: the canonical decimal form of an integer below
    2^32 - 1.  Such keys are enumerated first, in ascending order. *)
Definition arrayIndex (k : jsstring) : option N :=
  match k with
  | [] => None
  | c :: rest =>
      if (c =? 48)%N && negb (Nat.eqb (List.length rest) 0) then None
      else if Nat.ltb 10 (List.length k) then None
      else match digitsValue 0 k with
           | Some n => if (n <? 4294967295)%N then Some n else None
           | None => None
           end
  end.

Section Props.
Variable V : Type.

Fixpoint getOwn (props : list (jsstring * V)) (k : jsstring) : option V :=
  match props with
  | [] => None
  | (k', v) :: rest => if Str.eqb k' k then Some v else getOwn rest k
  end.

Fixpoint replaceOwn (props : list (jsstring * V)) (k : jsstring) (v : V)
  : list (jsstring * V) :=
  match props with
  | [] => []
  | (k', v') :: rest =>
      if Str.eqb k' k then (k', v) :: rest else (k', v') :: replaceOwn rest k v
  end.

(** Where a new key goes: an array index before the first key that is not
    a smaller array index, any other key at the end. *)
Fixpoint insertIndexed (props : list (jsstring * V)) (n : N) (k : jsstring) (v : V)
  : list (jsstring * V) :=
  match props with
  | [] => [(k, v)]
  | (k', v') :: rest =>
      match arrayIndex k' with
      | Some n' =>
          if (n' <? n)%N then (k', v') :: insertIndexed rest n k v
          else (k, v) :: props
      | None => (k, v) :: props
      end
  end.

(** [o[k] = v] on an ordinary object whose own properties are [props]. *)
Definition setOwn (props : list (jsstring * V)) (k : jsstring) (v : V)
  : list (jsstring * V) :=
  match getOwn props k with
  | Some _ => replaceOwn props k v
  | None =>
      match arrayIndex k with
      | Some n => insertIndexed props n k v
      | None => props ++ [(k, v)]
      end
  end.

End Props.

(** [v.k] for a key that [Object.prototype] and [Array.prototype] do not
    define: the own property of an object, [undefined] otherwise. *)
Definition get (v : JsValue) (k : jsstring) : JsValue :=
  match v with
  | JObj props =>
      match getOwn props k with
      | Some x => x
      | None => JUndefined
      end
  | _ => JUndefined
  end.

(** The names found on [Object.prototype]; reading one of them from an
    object that has no own property of that name yields the inherited
    member. *)
Definition objectPrototypeKeys : list jsstring :=
  map lit
    ["constructor"; "__defineGetter__"; "__defineSetter__"; "hasOwnProperty";
     "__lookupGetter__"; "__lookupSetter__"; "isPrototypeOf";
     "propertyIsEnumerable"; "toString"; "valueOf"; "__proto__";
     "toLocaleString"]%string.

Definition inherited (k : jsstring) : bool :=
  existsb (Str.eqb k) objectPrototypeKeys.

End Value.

Import Value.

(* ================================================================== *)
(** * The JSON built-ins *)
(* ================================================================== *)

(** [JSON.parse] and the string quoting of [JSON.stringify] belong to the
    language runtime; they are modelled here after ECMA-262 (the JSON
    grammar of ECMA-404, and QuoteJSONString). *)

Module JSON.

Definition isJsonWhiteSpace (c : N) : bool :=
  (c =? 9)%N || (c =? 10)%N || (c =? 13)%N || (c =? 32)%N.

Definition skipWs (s : jsstring) : jsstring := dropWhile isJsonWhiteSpace s.

Definition hexValue (c : N) : option N :=
  if isDigit c then Some (c - 48)%N
  else if inRange 97 102 c then Some (c - 87)%N
  else if inRange 65 70 c then Some (c - 55)%N
  else None.

(** The character a two-character escape stands for. *)
Definition unescape (e : N) : option N :=
  if (e =? 34)%N then Some 34%N
  else if (e =? 92)%N then Some 92%N
  else if (e =? 47)%N then Some 47%N
  else if (e =? 98)%N then Some 8%N
  else if (e =? 102)%N then Some 12%N
  else if (e =? 110)%N then Some 10%N
  else if (e =? 114)%N then Some 13%N
  else if (e =? 116)%N then Some 9%N
  else None.

(** The characters of a string literal after its opening quote, up to and
    including the closing quote: the string denoted and the rest of the
    input. *)
Fixpoint parseChars (s : jsstring) : option (jsstring * jsstring) :=
  match s with
  | [] => None
  | c :: s1 =>
      if (c =? 34)%N then Some ([], s1)
      else if (c =? 92)%N then
        match s1 with
        | [] => None
        | e :: s2 =>
            if (e =? 117)%N then
              match s2 with
              | h1 :: h2 :: h3 :: h4 :: s3 =>
                  match hexValue h1, hexValue h2, hexValue h3, hexValue h4 with
                  | Some a, Some b, Some c', Some d =>
                      match parseChars s3 with
                      | Some (str, r) =>
                          Some ((4096 * a + 256 * b + 16 * c' + d)%N :: str, r)
                      | None => None
                      end
                  | _, _, _, _ => None
                  end
              | _ => None
              end
            else
              match unescape e with
              | Some u =>
                  match parseChars s2 with
                  | Some (str, r) => Some (u :: str, r)
                  | None => None
                  end
              | None => None
              end
        end
      else if (c <? 32)%N then None
      else
        match parseChars s1 with
        | Some (str, r) => Some (c :: str, r)
        | None => None
        end
  end.

Fixpoint takeDigits (s : jsstring) : jsstring * jsstring :=
  match s with
  | c :: s' =>
      if isDigit c then let (d, r) := takeDigits s' in (c :: d, r)
      else ([], s)
  | [] => ([], [])
  end.

Fixpoint decimalValue (acc : Z) (digits : jsstring) : Z :=
  match digits with
  | [] => acc
  | c :: d => decimalValue (10 * acc + Z.of_N (c - 48)) d
  end.

(** The number nearest to [(-1)^sign * m * 10^e]. *)
Definition decimalToNumber (sign : bool) (m : Z) (e : Z) : number :=
  match m with
  | Zpos p =>
      if (0 <=? e)%Z then
        binary_normalize prec emax
          (if sign then Z.opp (m * 10 ^ e) else m * 10 ^ e) 0 false
      else
        match (10 ^ (- e))%Z with
        | Zpos q => div (S754_finite sign p 0) (S754_finite false q 0)
        | _ => NaN
        end
  | _ => S754_zero sign
  end.

(** The integer part, fraction and exponent of a number literal. *)
Definition parseFraction (s : jsstring) : option (jsstring * jsstring) :=
  match s with
  | c :: s1 =>
      if (c =? 46)%N then
        match takeDigits s1 with
        | ([], _) => None
        | (d, r) => Some (d, r)
        end
      else Some ([], s)
  | [] => Some ([], s)
  end.

Definition parseExponent (s : jsstring) : option (Z * jsstring) :=
  match s with
  | c :: s1 =>
      if (c =? 101)%N || (c =? 69)%N then
        let '(neg, s2) :=
          match s1 with
          | g :: s2 =>
              if (g =? 45)%N then (true, s2)
              else if (g =? 43)%N then (false, s2)
              else (false, s1)
          | [] => (false, s1)
          end in
        match takeDigits s2 with
        | ([], _) => None
        | (d, r) =>
            Some (if neg then Z.opp (decimalValue 0 d) else decimalValue 0 d, r)
        end
      else Some (0%Z, s)
  | [] => Some (0%Z, s)
  end.

Definition parseNumber (s : jsstring) : option (number * jsstring) :=
  let '(sign, s0) :=
    match s with
    | c :: s' => if (c =? 45)%N then (true, s') else (false, s)
    | [] => (false, s)
    end in
  let intPart :=
    match s0 with
    | c :: s1 =>
        if (c =? 48)%N then Some ([c], s1)
        else if isDigit c then Some (takeDigits s0)
        else None
    | [] => None
    end in
  match intPart with
  | None => None
  | Some (ds, s1) =>
      match parseFraction s1 with
      | None => None
      | Some (fs, s2) =>
          match parseExponent s2 with
          | None => None
          | Some (e, s3) =>
              Some (decimalToNumber sign (decimalValue 0 (ds ++ fs))
                      (e - Z.of_nat (List.length fs)), s3)
          end
      end
  end.

(** A JSON value at the head of the input, after white space; the elements
    of a non-empty array after its opening bracket; the members of a
    non-empty object after its opening brace.  The fuel bounds the depth
    of the calls; [JSON_parse] supplies more than any input can use (see
    [JSON_parse_fuel]). *)
Fixpoint parseValue (fuel : nat) (s : jsstring) : option (JsValue * jsstring) :=
  match fuel with
  | O => None
  | S f =>
      match skipWs s with
      | [] => None
      | c :: r =>
          if (c =? 34)%N then
            match parseChars r with
            | Some (str, r') => Some (JStr str, r')
            | None => None
            end
          else if (c =? 91)%N then
            match skipWs r with
            | d :: r' =>
                if (d =? 93)%N then Some (JArr [], r')
                else parseElements f (d :: r') []
            | [] => None
            end
          else if (c =? 123)%N then
            match skipWs r with
            | d :: r' =>
                if (d =? 125)%N then Some (JObj [], r')
                else parseMembers f (d :: r') []
            | [] => None
            end
          else if (c =? 45)%N || isDigit c then
            match parseNumber (c :: r) with
            | Some (x, r') => Some (JNum x, r')
            | None => None
            end
          else
            match stripPrefix (lit "null") (c :: r) with
            | Some r' => Some (JNull, r')
            | None =>
                match stripPrefix (lit "true") (c :: r) with
                | Some r' => Some (JBool true, r')
                | None =>
                    match stripPrefix (lit "false") (c :: r) with
                    | Some r' => Some (JBool false, r')
                    | None => None
                    end
                end
            end
      end
  end

with parseElements (fuel : nat) (s : jsstring) (acc : list JsValue)
  : option (JsValue * jsstring) :=
  match fuel with
  | O => None
  | S f =>
      match parseValue f s with
      | None => None
      | Some (v, r) =>
          match skipWs r with
          | c :: r' =>
              if (c =? 44)%N then parseElements f r' (v :: acc)
              else if (c =? 93)%N then Some (JArr (rev (v :: acc)), r')
              else None
          | [] => None
          end
      end
  end

with parseMembers (fuel : nat) (s : jsstring) (acc : list (jsstring * JsValue))
  : option (JsValue * jsstring) :=
  match fuel with
  | O => None
  | S f =>
      match skipWs s with
      | c :: r =>
          if (c =? 34)%N then
            match parseChars r with
            | None => None
            | Some (k, r1) =>
                match skipWs r1 with
                | c1 :: r2 =>
                    if (c1 =? 58)%N then
                      match parseValue f r2 with
                      | None => None
                      | Some (v, r3) =>
                          match skipWs r3 with
                          | c3 :: r4 =>
                              if (c3 =? 44)%N then
                                parseMembers f r4 (setOwn acc k v)
                              else if (c3 =? 125)%N then
                                Some (JObj (setOwn acc k v), r4)
                              else None
                          | [] => None
                          end
                      end
                    else None
                | [] => None
                end
            end
          else None
      | [] => None
      end
  end.

(** [JSON.parse(text)]: [None] stands for the SyntaxError it throws. *)
Definition JSON_parse (text : jsstring) : option JsValue :=
  match parseValue (2 * List.length text + 2) text with
  | Some (v, r) =>
      match skipWs r with
      | [] => Some v
      | _ :: _ => None
      end
  | None => None
  end.

(** QuoteJSONString: the escapes of a string in JSON text.  A surrogate
    pair is copied; a surrogate that is not part of a pair is escaped. *)
Definition isHighSurrogate (c : N) : bool := inRange 55296 56319 c.
Definition isLowSurrogate (c : N) : bool := inRange 56320 57343 c.

Definition hexDigit (n : N) : N := if (n <? 10)%N then (48 + n)%N else (87 + n)%N.

Definition unicodeEscape (c : N) : jsstring :=
  [92%N; 117%N;
   hexDigit ((c / 4096) mod 16); hexDigit ((c / 256) mod 16);
   hexDigit ((c / 16) mod 16); hexDigit (c mod 16)].

Definition quoteUnit (c : N) : jsstring :=
  if (c =? 8)%N then [92; 98]%N
  else if (c =? 9)%N then [92; 116]%N
  else if (c =? 10)%N then [92; 110]%N
  else if (c =? 12)%N then [92; 102]%N
  else if (c =? 13)%N then [92; 114]%N
  else if (c =? 34)%N then [92; 34]%N
  else if (c =? 92)%N then [92; 92]%N
  else if (c <? 32)%N || isHighSurrogate c || isLowSurrogate c
       then unicodeEscape c
  else [c].

Fixpoint quoteChars (s : jsstring) : jsstring :=
  match s with
  | [] => []
  | c :: s1 =>
      if isHighSurrogate c then
        match s1 with
        | d :: s2 =>
            if isLowSurrogate d then c :: d :: quoteChars s2
            else unicodeEscape c ++ quoteChars s1
        | [] => unicodeEscape c
        end
      else quoteUnit c ++ quoteChars s1
  end.

Definition QuoteJSONString (s : jsstring) : jsstring :=
  34%N :: quoteChars s ++ [34%N].

End JSON.

Import JSON.

(* ================================================================== *)
(** * Regular expressions *)
(* ================================================================== *)

(** The backtracking matcher of ECMA-262 for the constructs the sources
    use: characters, classes, sequence, alternation, greedy and lazy
    repetition of a one-character class, one capture group, and the
    assertions [^] and [$] (without the [m] flag). *)

Module RegExp.

Inductive pattern :=
| Empty
| Char (c : N)
| Class (p : N -> bool)
| Seq (a b : pattern)
| Alt (a b : pattern)
| StarGreedy (p : N -> bool)
| StarLazy (p : N -> bool)
| Group (a : pattern)
| AssertStart
| AssertEnd.

Record regexp := mkRegExp { source : pattern; ignoreCase : bool }.

Fixpoint literal (s : jsstring) : pattern :=
  match s with
  | [] => Empty
  | c :: s' => Seq (Char c) (literal s')
  end.

Fixpoint seq (l : list pattern) : pattern :=
  match l with
  | [] => Empty
  | [a] => a
  | a :: l' => Seq a (seq l')
  end.

(** [\s] and [[\s\S]]. *)
Definition whiteSpace : N -> bool := isWhiteSpace.
Definition anyChar : N -> bool := fun c => isWhiteSpace c || negb (isWhiteSpace c).

(** Canonicalize under the [i] flag (without [u]): exact whenever one of
    the two characters compared is ASCII, as the literals of the sources
    are. *)
Definition canonicalize (c : N) : N :=
  if inRange 97 122 c then (c - 32)%N else c.

Definition charMatches (icase : bool) (c d : N) : bool :=
  if icase then (canonicalize c =? canonicalize d)%N else (c =? d)%N.

(** The text between a position, given by the input [s] that remains
    there, and a later position, given by the input [s'] that remains. *)
Definition consumed (s s' : jsstring) : jsstring :=
  firstn (List.length s - List.length s') s.

Section Matcher.
Variable R : Type.

(** The whole input: a position is the start of the input when as much
    remains as the input is long. *)
Variable input : jsstring.

(** A continuation receives the input that remains and the capture. *)
Definition Cont := jsstring -> option jsstring -> option R.

Fixpoint starGreedy (p : N -> bool) (s : jsstring)
    (cap : option jsstring) (k : Cont) : option R :=
  match s with
  | c :: s' =>
      if p c then
        match starGreedy p s' cap k with
        | Some r => Some r
        | None => k s cap
        end
      else k s cap
  | [] => k s cap
  end.

Fixpoint starLazy (p : N -> bool) (s : jsstring)
    (cap : option jsstring) (k : Cont) : option R :=
  match k s cap with
  | Some r => Some r
  | None =>
      match s with
      | c :: s' => if p c then starLazy p s' cap k else None
      | [] => None
      end
  end.

Fixpoint run (icase : bool) (r : pattern) (s : jsstring)
    (cap : option jsstring) (k : Cont) : option R :=
  match r with
  | Empty => k s cap
  | Char c =>
      match s with
      | d :: s' => if charMatches icase c d then k s' cap else None
      | [] => None
      end
  | Class p =>
      match s with
      | d :: s' => if p d then k s' cap else None
      | [] => None
      end
  | Seq a b => run icase a s cap (fun s' cap' => run icase b s' cap' k)
  | Alt a b =>
      match run icase a s cap k with
      | Some x => Some x
      | None => run icase b s cap k
      end
  | StarGreedy p => starGreedy p s cap k
  | StarLazy p => starLazy p s cap k
  | Group a => run icase a s cap (fun s' _ => k s' (Some (consumed s s')))
  | AssertStart =>
      if Nat.eqb (List.length s) (List.length input) then k s cap else None
  | AssertEnd => match s with [] => k s cap | _ :: _ => None end
  end.

End Matcher.

(** The match array: index 0 is the text matched, index 1 the capture. *)
Record MatchResult := mkMatch {
  index : nat;
  matched : jsstring;
  group1 : option jsstring
}.

(** A match that starts where [s] remains of the input. *)
Definition matchAt (re : regexp) (input s : jsstring) : option MatchResult :=
  run input (ignoreCase re) (source re) s None
    (fun s' cap =>
       Some (mkMatch (List.length input - List.length s) (consumed s s') cap)).

Fixpoint execFrom (re : regexp) (input s : jsstring) : option MatchResult :=
  match matchAt re input s with
  | Some m => Some m
  | None =>
      match s with
      | _ :: s' => execFrom re input s'
      | [] => None
      end
  end.

(** [re.exec(s)] and [s.match(re)] for a regular expression without the
    [g] flag: the leftmost match, [None] for [null]. *)
Definition exec (re : regexp) (s : jsstring) : option MatchResult :=
  execFrom re s s.

Definition test (re : regexp) (s : jsstring) : bool :=
  match exec re s with Some _ => true | None => false end.

(** [s.split(re)] for a pattern without capture groups: [piece] holds, in
    reverse, the characters passed since the last separator, and [s] what
    remains of the input. *)
Fixpoint splitLoop (fuel : nat) (re : regexp) (input piece s : jsstring)
  : list jsstring :=
  match fuel with
  | O => [rev piece ++ s]
  | S f =>
      match s with
      | [] => [rev piece]
      | c :: s' =>
          match matchAt re input s with
          | None => splitLoop f re input (c :: piece) s'
          | Some m =>
              let n := List.length (matched m) in
              if Nat.eqb n 0 && Nat.eqb (List.length piece) 0
              then splitLoop f re input (c :: piece) s'
              else rev piece :: splitLoop f re input [] (skipn n s)
          end
      end
  end.

Definition split (re : regexp) (s : jsstring) : list jsstring :=
  match s with
  | [] => match matchAt re [] [] with Some _ => [] | None => [[]] end
  | _ :: _ => splitLoop (2 * List.length s + 2) re s [] s
  end.

End RegExp.

(* ================================================================== *)
(** * utils/questionParser.ts *)
(* ================================================================== *)

(** The calls of [JSON.parse] a function makes are recorded next to its
    result: the second component lists the texts handed to the parser, in
    the order of the calls. *)
Module Logged.

Definition t (A : Type) : Type := (A * list jsstring)%type.

Definition ret {A} (a : A) : t A := (a, []).

Definition bind {A B} (m : t A) (f : A -> t B) : t B :=
  let (a, l1) := m in
  let (b, l2) := f a in
  (b, l1 ++ l2).

Definition JSON_parse (text : jsstring) : t (option JsValue) :=
  (JSON.JSON_parse text, [text]).

End Logged.

Notation "x <- m ;; f" := (Logged.bind m (fun x => f))
  (at level 61, m at next level, right associativity).

Module QuestionParser.

(** Raw question structure as returned by the LLM (before validation). *)
Record RawQuestion := mkRawQuestion {
  text : jsstring;
  intent : jsstring;
  language : jsstring
}.

(** [questions] holds whatever array was parsed; its elements are only
    known to be questions after validation. *)
Record ParseResult := mkParseResult {
  success : bool;
  questions : list JsValue;
  error : option jsstring
}.

Definition failure (msg : string) : ParseResult :=
  mkParseResult false [] (Some (lit msg)).

Definition parsedArray (items : list JsValue) : ParseResult :=
  mkParseResult true items None.

Definition backticks : jsstring := lit "```".

(** [/```json\s*([\s\S]*?)\s*```/i] *)
Definition jsonBlockRegex : RegExp.regexp :=
  RegExp.mkRegExp
    (RegExp.seq
       [RegExp.literal (lit "```json");
        RegExp.StarGreedy RegExp.whiteSpace;
        RegExp.Group (RegExp.StarLazy RegExp.anyChar);
        RegExp.StarGreedy RegExp.whiteSpace;
        RegExp.literal backticks])
    true.

(** [/```\s*([\s\S]*?)\s*```/] *)
Definition codeBlockRegex : RegExp.regexp :=
  RegExp.mkRegExp
    (RegExp.seq
       [RegExp.literal backticks;
        RegExp.StarGreedy RegExp.whiteSpace;
        RegExp.Group (RegExp.StarLazy RegExp.anyChar);
        RegExp.StarGreedy RegExp.whiteSpace;
        RegExp.literal backticks])
    false.

(** [/\[\s*\{[\s\S]*\}\s*\]/] *)
Definition arrayRegex : RegExp.regexp :=
  RegExp.mkRegExp
    (RegExp.seq
       [RegExp.Char 91;
        RegExp.StarGreedy RegExp.whiteSpace;
        RegExp.Char 123;
        RegExp.StarGreedy RegExp.anyChar;
        RegExp.Char 125;
        RegExp.StarGreedy RegExp.whiteSpace;
        RegExp.Char 93])
    false.

(** [m && m[1]]: the capture of a match, when it is a non-empty string. *)
Definition truthyGroup (m : option RegExp.MatchResult) : option jsstring :=
  match m with
  | Some r =>
      match RegExp.group1 r with
      | Some (c :: g) => Some (c :: g)
      | _ => None
      end
  | None => None
  end.

(** One [try { JSON.parse(text) ... } catch {}] block: the array parsed,
    if the text parses and the value is an array. *)
Definition tryParseArray (text : jsstring) : Logged.t (option (list JsValue)) :=
  parsed <- Logged.JSON_parse text ;;
  Logged.ret
    match parsed with
    | Some (JArr items) => Some items
    | _ => None
    end.

Definition strategy4 (trimmed : jsstring) : Logged.t ParseResult :=
  match RegExp.exec arrayRegex trimmed with
  | Some arrayMatch =>
      r <- tryParseArray (RegExp.matched arrayMatch) ;;
      match r with
      | Some items => Logged.ret (parsedArray items)
      | None =>
          Logged.ret (failure "Could not extract valid JSON array from response")
      end
  | None => Logged.ret (failure "Could not extract valid JSON array from response")
  end.

Definition strategy3 (trimmed : jsstring) : Logged.t ParseResult :=
  match truthyGroup (RegExp.exec codeBlockRegex trimmed) with
  | Some g =>
      r <- tryParseArray (trim g) ;;
      match r with
      | Some items => Logged.ret (parsedArray items)
      | None => strategy4 trimmed
      end
  | None => strategy4 trimmed
  end.

Definition strategy2 (trimmed : jsstring) : Logged.t ParseResult :=
  match truthyGroup (RegExp.exec jsonBlockRegex trimmed) with
  | Some g =>
      r <- tryParseArray (trim g) ;;
      match r with
      | Some items => Logged.ret (parsedArray items)
      | None => strategy3 trimmed
      end
  | None => strategy3 trimmed
  end.

Definition parseQuestionResponse (response : jsstring) : Logged.t ParseResult :=
  match response with
  | [] => Logged.ret (failure "Empty or invalid response")
  | _ :: _ =>
      let trimmed := trim response in
      if startsWith trimmed (lit "[") && includes trimmed (lit "MOCK]") then
        Logged.ret (failure "LLM API key not configured - received mock response")
      else
        r <- tryParseArray trimmed ;;
        match r with
        | Some items => Logged.ret (parsedArray items)
        | None => strategy2 trimmed
        end
  end.

End QuestionParser.

(* ================================================================== *)
(** * types.ts *)
(* ================================================================== *)

Module Breakdown.
(** [VisibilityScoringBreakdown] *)
Record t := mk {
  mentionPresence : number;
  mentionCount : number;
  mentionContext : number;
  mentionPosition : number;
  descriptionDetail : number;
  answerRelevance : number;
  serviceMatch : number;
  rationale : jsstring
}.
End Breakdown.

Module Weights.
(** [ScoringWeights] *)
Record t := mk {
  mentionPresence : number;
  mentionContext : number;
  mentionPosition : number;
  descriptionDetail : number;
  answerRelevance : number;
  serviceMatch : number
}.
End Weights.

(* ================================================================== *)
(** * utils/scoringCalculator.ts *)
(* ================================================================== *)

Module ScoringCalculator.

Definition DEFAULT_SCORING_WEIGHTS : Weights.t :=
  {| Weights.mentionPresence := dec 2 1;
     Weights.mentionContext := dec 25 2;
     Weights.mentionPosition := dec 15 2;
     Weights.descriptionDetail := dec 2 1;
     Weights.answerRelevance := dec 1 1;
     Weights.serviceMatch := dec 1 1 |}.

Definition clamp (value : number) : number :=
  let min := zero in
  let max := one in
  if negb (isFinite value) then zero
  else if lt value min then min
  else if gt value max then max
  else value.

Definition weightSum (weights : Weights.t) : number :=
  add (add (add (add (add
    (Weights.mentionPresence weights)
    (Weights.mentionContext weights))
    (Weights.mentionPosition weights))
    (Weights.descriptionDetail weights))
    (Weights.answerRelevance weights))
    (Weights.serviceMatch weights).

Definition normalizeWeights (weights : Weights.t) : Weights.t :=
  let sum := weightSum weights in
  if strictEq sum zero then DEFAULT_SCORING_WEIGHTS
  else
    {| Weights.mentionPresence := div (Weights.mentionPresence weights) sum;
       Weights.mentionContext := div (Weights.mentionContext weights) sum;
       Weights.mentionPosition := div (Weights.mentionPosition weights) sum;
       Weights.descriptionDetail := div (Weights.descriptionDetail weights) sum;
       Weights.answerRelevance := div (Weights.answerRelevance weights) sum;
       Weights.serviceMatch := div (Weights.serviceMatch weights) sum |}.

Definition baseScore (breakdown : Breakdown.t) (w : Weights.t) : number :=
  add (add (add (add (add
    (mul (Breakdown.mentionPresence breakdown) (Weights.mentionPresence w))
    (mul (Breakdown.mentionContext breakdown) (Weights.mentionContext w)))
    (mul (Breakdown.mentionPosition breakdown) (Weights.mentionPosition w)))
    (mul (Breakdown.descriptionDetail breakdown) (Weights.descriptionDetail w)))
    (mul (Breakdown.answerRelevance breakdown) (Weights.answerRelevance w)))
    (mul (Breakdown.serviceMatch breakdown) (Weights.serviceMatch w)).

Definition calculateVisibilityScore
    (breakdown : Breakdown.t) (weights : Weights.t) : number :=
  let w := normalizeWeights weights in
  let base := baseScore breakdown w in
  let finalScore :=
    if gt (Breakdown.mentionPresence breakdown) zero then base
    else Math_min base (dec 2 1) in
  clamp finalScore.

(** The call with the [weights] argument omitted. *)
Definition calculateVisibilityScore_default (breakdown : Breakdown.t) : number :=
  calculateVisibilityScore breakdown DEFAULT_SCORING_WEIGHTS.

End ScoringCalculator.

Import ScoringCalculator.

(* ================================================================== *)
(** * utils/scoringParser.ts *)
(* ================================================================== *)

Module ScoringParser.

Record ScoringParseResult := mkResult {
  success : bool;
  breakdown : option Breakdown.t;
  error : option jsstring
}.

Definition failure (msg : jsstring) : ScoringParseResult :=
  mkResult false None (Some msg).

(** [/```json\s*([\s\S]*?)\s*```/i] *)
Definition jsonBlockRegex : RegExp.regexp :=
  RegExp.mkRegExp
    (RegExp.seq
       [RegExp.literal (lit "```json");
        RegExp.StarGreedy RegExp.whiteSpace;
        RegExp.Group (RegExp.StarLazy RegExp.anyChar);
        RegExp.StarGreedy RegExp.whiteSpace;
        RegExp.literal (lit "```")])
    true.

(** [/```\s*([\s\S]*?)\s*```/] *)
Definition codeBlockRegex : RegExp.regexp :=
  RegExp.mkRegExp
    (RegExp.seq
       [RegExp.literal (lit "```");
        RegExp.StarGreedy RegExp.whiteSpace;
        RegExp.Group (RegExp.StarLazy RegExp.anyChar);
        RegExp.StarGreedy RegExp.whiteSpace;
        RegExp.literal (lit "```")])
    false.

(** [m?.[1]], when it is a non-empty string. *)
Definition truthyGroup (m : option RegExp.MatchResult) : option jsstring :=
  match m with
  | Some r =>
      match RegExp.group1 r with
      | Some (c :: g) => Some (c :: g)
      | _ => None
      end
  | None => None
  end.

(** [a || b] on strings that may be undefined. *)
Definition orElse (a : option jsstring) (b : jsstring) : jsstring :=
  match a with
  | Some (c :: m) => c :: m
  | _ => b
  end.

Section Runtime.

(** [Number(value)] for a value that is not a number, and the message of
    the SyntaxError that [JSON.parse] throws on a text: both are fixed by
    the engine. *)
Variable ToNumber : JsValue -> number.
Variable syntaxErrorMessage : jsstring -> jsstring.

Definition clamp (value : JsValue) : number :=
  let min := zero in
  let max := one in
  let num := match value with JNum x => x | _ => ToNumber value end in
  if negb (isFinite num) then zero
  else if lt num min then min
  else if gt num max then max
  else num.

Definition normalized (parsed : JsValue) : Breakdown.t :=
  {| Breakdown.mentionPresence := clamp (get parsed (lit "mentionPresence"));
     Breakdown.mentionCount :=
       match get parsed (lit "mentionCount") with
       | JNum x => if isFinite x then x else zero
       | _ => zero
       end;
     Breakdown.mentionContext := clamp (get parsed (lit "mentionContext"));
     Breakdown.mentionPosition := clamp (get parsed (lit "mentionPosition"));
     Breakdown.descriptionDetail := clamp (get parsed (lit "descriptionDetail"));
     Breakdown.answerRelevance := clamp (get parsed (lit "answerRelevance"));
     Breakdown.serviceMatch := clamp (get parsed (lit "serviceMatch"));
     Breakdown.rationale :=
       match get parsed (lit "rationale") with
       | JStr r => r
       | _ => []
       end |}.

Definition tryParse (text : jsstring) : Logged.t ScoringParseResult :=
  parsed <- Logged.JSON_parse text ;;
  Logged.ret
    match parsed with
    | None =>
        failure (orElse (Some (syntaxErrorMessage text))
                   (lit "Failed to parse scoring JSON"))
    | Some (JObj props) => mkResult true (Some (normalized (JObj props))) None
    | Some (JArr items) => mkResult true (Some (normalized (JArr items))) None
    | Some _ => failure (lit "Parsed scoring is not an object")
    end.

Definition parseScoringResponse (response : jsstring)
  : Logged.t ScoringParseResult :=
  match response with
  | [] => Logged.ret (failure (lit "Empty or invalid response"))
  | _ :: _ =>
      let trimmed := trim response in
      if startsWith trimmed (lit "[") && includes trimmed (lit "MOCK]") then
        Logged.ret
          (failure (lit "LLM API key not configured - received mock response"))
      else
        direct <- tryParse trimmed ;;
        if success direct then Logged.ret direct
        else
          let giveUp :=
            Logged.ret
              (failure (orElse (error direct)
                          (lit "Could not parse scoring response"))) in
          let strategy3 :=
            match truthyGroup (RegExp.exec codeBlockRegex trimmed) with
            | Some g =>
                parsed <- tryParse g ;;
                if success parsed then Logged.ret parsed else giveUp
            | None => giveUp
            end in
          match truthyGroup (RegExp.exec jsonBlockRegex trimmed) with
          | Some g =>
              parsed <- tryParse g ;;
              if success parsed then Logged.ret parsed else strategy3
          | None => strategy3
          end
  end.

End Runtime.

End ScoringParser.

(* ================================================================== *)
(** * utils/questionValidator.ts *)
(* ================================================================== *)

Module QuestionValidator.

Import QuestionParser.

Definition VALID_INTENTS : list jsstring :=
  map lit
    ["find_service"; "evaluate_company"; "compare_options"; "pricing";
     "reviews"; "features"; "alternatives"]%string.

Record ValidationConfig := mkConfig {
  minTextLength : option number;
  maxTextLength : option number;
  allowedIntents : option (list jsstring);
  allowedLanguages : option (list jsstring)
}.

(** The call with [config] omitted: [{}]. *)
Definition defaultConfig : ValidationConfig := mkConfig None None None None.

(** The [field] of an error: [questions], [questions[i]] or
    [questions[i].name]. *)
Inductive Field :=
| FieldQuestions
| FieldItem (index : nat)
| FieldMember (index : nat) (name : jsstring).

(** The [message] of an error; a message built by a template carries the
    values the template interpolates. *)
Inductive Message :=
| MustBeAnArray
| MustBeAnObject
| TextMustBeAString
| TextAtLeast (minLength : number)
| TextMustNotExceed (maxLength : number)
| TextCannotBeEmpty
| IntentMustBeAString
| IntentMustBeOneOf (allowed : list jsstring)
| LanguageMustBeAString
| LanguageMustBeIso.

Record ValidationError := mkError {
  field : Field;
  value : JsValue;
  message : Message
}.

Record ValidationResult := mkValidation {
  valid : bool;
  questions : list RawQuestion;
  errors : list ValidationError
}.

(** [a ?? b] *)
Definition nullish {A} (a : option A) (b : A) : A :=
  match a with Some x => x | None => b end.

(** [/^[a-z]{2}$/] *)
Definition isoRegex : RegExp.regexp :=
  RegExp.mkRegExp
    (RegExp.seq
       [RegExp.AssertStart;
        RegExp.Class (inRange 97 122);
        RegExp.Class (inRange 97 122);
        RegExp.AssertEnd])
    false.

Definition lengthOf (s : jsstring) : number := ofZ (Z.of_nat (List.length s)).

Section Runtime.

(** [String.prototype.toLowerCase] is fixed by the engine. *)
Variable toLowerCase : jsstring -> jsstring.

Definition validateSingleQuestion
    (question : JsValue) (index : nat) (config : ValidationConfig)
  : list ValidationError :=
  let minLength := nullish (minTextLength config) (ofZ 10) in
  let maxLength := nullish (maxTextLength config) (ofZ 200) in
  let allowed := nullish (allowedIntents config) VALID_INTENTS in
  match question with
  | JObj _ =>
      let q := question in
      let textErrors :=
        match get q (lit "text") with
        | JStr t =>
            let textLength := lengthOf (trim t) in
            (if lt textLength minLength
             then [mkError (FieldMember index (lit "text")) (JStr t)
                     (TextAtLeast minLength)]
             else [])
            ++ (if gt textLength maxLength
                then [mkError (FieldMember index (lit "text")) (JStr t)
                        (TextMustNotExceed maxLength)]
                else [])
            ++ (if strictEq textLength zero
                then [mkError (FieldMember index (lit "text")) (JStr t)
                        TextCannotBeEmpty]
                else [])
        | other =>
            [mkError (FieldMember index (lit "text")) other TextMustBeAString]
        end in
      let intentErrors :=
        match get q (lit "intent") with
        | JStr i =>
            if negb (existsb (Str.eqb i) allowed)
            then [mkError (FieldMember index (lit "intent")) (JStr i)
                    (IntentMustBeOneOf allowed)]
            else []
        | other =>
            [mkError (FieldMember index (lit "intent")) other
               IntentMustBeAString]
        end in
      let languageErrors :=
        match get q (lit "language") with
        | JStr l =>
            let langCode := trim (toLowerCase l) in
            if negb (Nat.eqb (List.length langCode) 2)
               || negb (RegExp.test isoRegex langCode)
            then [mkError (FieldMember index (lit "language")) (JStr l)
                    LanguageMustBeIso]
            else []
        | other =>
            [mkError (FieldMember index (lit "language")) other
               LanguageMustBeAString]
        end in
      textErrors ++ intentErrors ++ languageErrors
  | _ => [mkError (FieldItem index) question MustBeAnObject]
  end.

(** The record pushed for a candidate without errors.  The method calls
    [q.text.trim()] and [q.language.toLowerCase()] raise a TypeError on a
    value that is not a string: [None]. *)
Definition normalizedQuestion (q : JsValue) : option RawQuestion :=
  match get q (lit "text"), get q (lit "intent"), get q (lit "language") with
  | JStr t, JStr i, JStr l =>
      Some (mkRawQuestion (trim t) i (trim (toLowerCase l)))
  | _, _, _ => None
  end.

(** The [for] loop, from index [i] on, with the two arrays it fills. *)
Fixpoint validateFrom (i : nat) (items : list JsValue)
    (config : ValidationConfig)
    (validQuestions : list RawQuestion) (errors : list ValidationError)
  : option (list RawQuestion * list ValidationError) :=
  match items with
  | [] => Some (validQuestions, errors)
  | item :: rest =>
      match validateSingleQuestion item i config with
      | [] =>
          match normalizedQuestion item with
          | Some q => validateFrom (S i) rest config (validQuestions ++ [q]) errors
          | None => None
          end
      | questionErrors =>
          validateFrom (S i) rest config validQuestions
            (errors ++ questionErrors)
      end
  end.

(** [None] stands for an exception escaping the function. *)
Definition validateQuestions (questions : JsValue) (config : ValidationConfig)
  : option ValidationResult :=
  match questions with
  | JArr items =>
      match validateFrom 0 items config [] [] with
      | Some (validQuestions, errors) =>
          Some (mkValidation (Nat.eqb (List.length errors) 0) validQuestions errors)
      | None => None
      end
  | _ =>
      Some (mkValidation false []
              [mkError FieldQuestions questions MustBeAnArray])
  end.

End Runtime.

End QuestionValidator.

(* ================================================================== *)
(** * agents.ts *)
(* ================================================================== *)

Inductive LlmProvider := openai | anthropic | gemini.

Module CompanyProfile.
Record t := mk {
  name : jsstring;
  website : option jsstring;
  description : jsstring;
  services : list jsstring;
  targetLocales : option (list jsstring)
}.
End CompanyProfile.

Module GeneratedQuestion.
Record t := mk {
  id : jsstring;
  text : jsstring;
  language : jsstring;
  intent : jsstring
}.
End GeneratedQuestion.

Module LlmRawAnswer.
Record t := mk {
  questionId : jsstring;
  question : jsstring;
  answer : jsstring
}.
End LlmRawAnswer.

Module VisibilityScore.
Record t := mk {
  provider : LlmProvider;
  service : jsstring;
  score : number;
  rationale : jsstring
}.
End VisibilityScore.

Module ProviderVisibilityResult.
Record t := mk {
  provider : LlmProvider;
  answers : list LlmRawAnswer.t;
  scores : list VisibilityScore.t
}.
End ProviderVisibilityResult.

Module DashboardInsight.
Record t := mk {
  service : jsstring;
  avgScore : number;
  comments : list jsstring
}.
End DashboardInsight.

Module Recommendation.
Record t := mk {
  title : jsstring;
  description : jsstring;
  suggestedPrompts : list jsstring
}.
End Recommendation.

Module DashboardResult.
Record t := mk {
  company : CompanyProfile.t;
  questions : list GeneratedQuestion.t;
  providerResults : list ProviderVisibilityResult.t;
  insights : list DashboardInsight.t;
  recommendations : list Recommendation.t
}.
End DashboardResult.

Module Agents.

(** A double quote inside a template. *)
Definition dq : jsstring := [34%N].
Definition newline : jsstring := [10%N].

(** ** The heuristic baseline of [visibilityAgentForProvider] *)

Section Heuristic.

(** [String.prototype.toLowerCase] is fixed by the engine. *)
Variable toLowerCase : jsstring -> jsstring.

Definition companyMentioned (company : CompanyProfile.t) (answer : jsstring)
  : bool :=
  let lowerAnswer := toLowerCase answer in
  includes lowerAnswer (toLowerCase (CompanyProfile.name company)).

Definition serviceMatched (company : CompanyProfile.t) (answer : jsstring)
  : bool :=
  let lowerAnswer := toLowerCase answer in
  existsb (fun service => includes lowerAnswer (toLowerCase service))
    (CompanyProfile.services company).

Definition heuristicScore (company : CompanyProfile.t) (answer : jsstring)
  : number :=
  if companyMentioned company answer && serviceMatched company answer
  then dec 9 1
  else if companyMentioned company answer then dec 7 1
  else if serviceMatched company answer then dec 4 1
  else dec 1 1.

Definition heuristicRationale (company : CompanyProfile.t) (answer : jsstring)
  : jsstring :=
  lit "Company "
  ++ (if companyMentioned company answer then lit "was" else lit "was not")
  ++ lit " mentioned; service "
  ++ (if serviceMatched company answer then lit "was" else lit "was not")
  ++ lit " recognized.".

End Heuristic.

(** ** [dashboardAgent] *)

(** The result of reading [serviceToScores[key]]. *)
Inductive Lookup :=
| Own (arr : list number)
| Inherited
| Undefined.

Definition lookup (serviceToScores : list (jsstring * list number))
    (key : jsstring) : Lookup :=
  match getOwn serviceToScores key with
  | Some arr => Own arr
  | None => if inherited key then Inherited else Undefined
  end.

(** The body of the inner loop; [None] is the TypeError raised by calling
    [push] on a member inherited from [Object.prototype]. *)
Definition addScore (serviceToScores : list (jsstring * list number))
    (score : VisibilityScore.t) : option (list (jsstring * list number)) :=
  let key := VisibilityScore.service score in
  let ensured :=
    match lookup serviceToScores key with
    | Undefined => setOwn serviceToScores key []
    | _ => serviceToScores
    end in
  match lookup ensured key with
  | Own arr => Some (setOwn ensured key (arr ++ [VisibilityScore.score score]))
  | _ => None
  end.

Fixpoint addScores (serviceToScores : list (jsstring * list number))
    (scores : list VisibilityScore.t)
  : option (list (jsstring * list number)) :=
  match scores with
  | [] => Some serviceToScores
  | score :: rest =>
      match addScore serviceToScores score with
      | Some m => addScores m rest
      | None => None
      end
  end.

Fixpoint groupScores (serviceToScores : list (jsstring * list number))
    (providerResults : list ProviderVisibilityResult.t)
  : option (list (jsstring * list number)) :=
  match providerResults with
  | [] => Some serviceToScores
  | result :: rest =>
      match addScores serviceToScores (ProviderVisibilityResult.scores result) with
      | Some m => groupScores m rest
      | None => None
      end
  end.

Definition wellRepresented : jsstring :=
  lit "Service is well represented in LLM answers.".
Definition moderateVisibility : jsstring :=
  lit "Service has moderate visibility. There is room for improvement.".
Definition almostInvisible : jsstring :=
  lit "Service is almost invisible in LLM answers. It needs active optimization.".

Definition average (arr : list number) : number :=
  div (fold_left (fun sum v => add sum v) arr zero)
      (ofZ (Z.of_nat (List.length arr))).

Definition insightOf (entry : jsstring * list number) : DashboardInsight.t :=
  let (service, arr) := entry in
  let avgScore := average arr in
  let comments :=
    if ge avgScore (dec 75 2) then [wellRepresented]
    else if ge avgScore (dec 4 1) then [moderateVisibility]
    else [almostInvisible] in
  DashboardInsight.mk service avgScore comments.

Definition reinforce : jsstring :=
  lit "Reinforce current positioning and keep descriptions up to date.".
Definition enhance : jsstring :=
  lit "Enhance descriptions of this service on your website and in public documentation; add clear, LLM-friendly wording.".

Definition titleFor (service : jsstring) : jsstring :=
  lit "Improve visibility for: " ++ service.

Definition basePrompt (company : CompanyProfile.t) (service : jsstring)
  : jsstring :=
  lit "When users ask about " ++ dq ++ service ++ dq ++ lit ", always mention "
  ++ dq ++ CompanyProfile.name company ++ dq ++ lit " as a specialized provider.".

Definition strongerPrompt (company : CompanyProfile.t) (service : jsstring)
  : jsstring :=
  lit "You are a helpful assistant. If the user needs " ++ service
  ++ lit ", always consider " ++ dq ++ CompanyProfile.name company ++ dq
  ++ lit " and explain why.".

(** [/\n|•|-/] *)
Definition bulletRegex : RegExp.regexp :=
  RegExp.mkRegExp
    (RegExp.Alt (RegExp.Char 10) (RegExp.Alt (RegExp.Char 8226) (RegExp.Char 45)))
    false.

(** [recText.split(...).map(trim).filter(Boolean).slice(0, 3)] *)
Definition bulletsOf (recText : jsstring) : list jsstring :=
  firstn 3
    (filter (fun b => negb (Nat.eqb (List.length b) 0))
       (map trim (RegExp.split bulletRegex recText))).

(** A settled promise. *)
Inductive Promise (A : Type) :=
| Fulfilled (a : A)
| Rejected.
Arguments Fulfilled {A} a.
Arguments Rejected {A}.

Section Dashboard.

(** The provider call: the text it resolves to, or [None] when it rejects.
    [Number.prototype.toFixed(2)] is fixed by the engine. *)
Variable callLlm : LlmProvider -> jsstring -> option jsstring.
Variable toFixed2 : number -> jsstring.

Definition recommendationPrompt (company : CompanyProfile.t)
    (insight : DashboardInsight.t) : jsstring :=
  newline
  ++ lit "You are an AI marketing consultant. Based on visibility insights, produce concise, actionable recommendations."
  ++ newline ++ lit "Company: " ++ CompanyProfile.name company
  ++ newline ++ lit "Service: " ++ DashboardInsight.service insight
  ++ newline ++ lit "Average visibility score: "
  ++ toFixed2 (DashboardInsight.avgScore insight)
  ++ newline ++ lit "Comments: "
  ++ join (lit " | ") (DashboardInsight.comments insight)
  ++ newline ++ newline
  ++ lit "Return 2-3 bullet points (max 300 chars total) focusing on the fastest ways to improve visibility.".

Definition buildRecommendation (company : CompanyProfile.t)
    (insight : DashboardInsight.t) : Promise Recommendation.t :=
  let service := DashboardInsight.service insight in
  let suggested := [strongerPrompt company service; basePrompt company service] in
  match callLlm openai (recommendationPrompt company insight) with
  | Some recText =>
      let bullets := bulletsOf recText in
      Fulfilled
        (Recommendation.mk (titleFor service)
           (if Nat.ltb 0 (List.length bullets) then join (lit " ") bullets
            else enhance)
           suggested)
  | None =>
      Fulfilled
        (Recommendation.mk (titleFor service)
           (if ge (DashboardInsight.avgScore insight) (dec 75 2)
            then reinforce else enhance)
           suggested)
  end.

(** The handler around each awaited recommendation. *)
Definition resolveRecommendation (company : CompanyProfile.t)
    (insights : list DashboardInsight.t)
    (idx : nat) (rec : Promise Recommendation.t) : Recommendation.t :=
  match rec with
  | Fulfilled r => r
  | Rejected =>
      let insight := nth_error insights idx in
      let serviceOr (fallback : jsstring) : jsstring :=
        match insight with
        | Some i =>
            match DashboardInsight.service i with
            | [] => fallback
            | c :: sv => c :: sv
            end
        | None => fallback
        end in
      let high :=
        match insight with
        | Some i => ge (DashboardInsight.avgScore i) (dec 75 2)
        | None => false
        end in
      Recommendation.mk
        (lit "Improve visibility for: " ++ serviceOr (lit "service"))
        (if high then reinforce else enhance)
        [lit "You are a helpful assistant. If the user needs "
           ++ serviceOr (lit "this service") ++ lit ", always consider "
           ++ dq ++ CompanyProfile.name company ++ dq ++ lit " and explain why.";
         lit "When users ask about " ++ dq ++ serviceOr (lit "this service")
           ++ dq ++ lit ", always mention " ++ dq ++ CompanyProfile.name company
           ++ dq ++ lit " as a specialized provider."]
  end.

Fixpoint resolveAll (company : CompanyProfile.t)
    (insights : list DashboardInsight.t) (idx : nat)
    (recs : list (Promise Recommendation.t)) : list Recommendation.t :=
  match recs with
  | [] => []
  | rec :: rest =>
      resolveRecommendation company insights idx rec
        :: resolveAll company insights (S idx) rest
  end.

(** [None] stands for the error the function rethrows. *)
Definition dashboardAgent (company : CompanyProfile.t)
    (questions : list GeneratedQuestion.t)
    (providerResults : list ProviderVisibilityResult.t)
  : option DashboardResult.t :=
  match groupScores [] providerResults with
  | None => None
  | Some serviceToScores =>
      let insights := map insightOf serviceToScores in
      let recommendations := map (buildRecommendation company) insights in
      let resolvedRecommendations :=
        resolveAll company insights 0 recommendations in
      Some (DashboardResult.mk company questions providerResults insights
              resolvedRecommendations)
  end.

End Dashboard.

End Agents.

(* ================================================================== *)
(** * Question arrays as JSON text *)
(* ================================================================== *)

Module Serialize.

Import QuestionParser.

(** The object a question record is, as a value. *)
Definition questionValue (q : RawQuestion) : JsValue :=
  JObj [(lit "text", JStr (text q));
        (lit "intent", JStr (intent q));
        (lit "language", JStr (language q))].

(** [JSON.stringify(q)] for a question record: its three properties in
    the order of the interface, without white space. *)
Definition questionText (q : RawQuestion) : jsstring :=
  lit "{" ++ QuoteJSONString (lit "text") ++ lit ":"
  ++ QuoteJSONString (text q)
  ++ lit "," ++ QuoteJSONString (lit "intent") ++ lit ":"
  ++ QuoteJSONString (intent q)
  ++ lit "," ++ QuoteJSONString (lit "language") ++ lit ":"
  ++ QuoteJSONString (language q)
  ++ lit "}".

(** [JSON.stringify(questions)] for an array of question records. *)
Definition JSON_stringify (questions : list RawQuestion) : jsstring :=
  lit "[" ++ join (lit ",") (map questionText questions) ++ lit "]".

(** The text wrapped in a fenced code block tagged [json]. *)
Definition fenced (body : jsstring) : jsstring :=
  lit "```json" ++ [10%N] ++ body ++ [10%N] ++ lit "```".

(** A valid question whose text contains the mock marker, and the JSON
    text of the array that holds it. *)
Definition markedQuestion : RawQuestion :=
  mkRawQuestion
    (lit "Is the MOCK] tier cheaper than the basic plan?")
    (lit "pricing") (lit "en").

Definition markedArrayText : jsstring := JSON_stringify [markedQuestion].

End Serialize.

Import Serialize.

(* ================================================================== *)
(** * The environment and array helpers *)
(* ================================================================== *)

(** [process.env]: the variables the sources read; [None] is a variable
    that is not set. *)
Module ProcessEnv.
Record t := mk {
  OPENAI_API_KEY : option jsstring;
  ANTHROPIC_API_KEY : option jsstring;
  GEMINI_API_KEY : option jsstring;
  QUESTION_GENERATION_PROVIDER : option jsstring;
  VISIBILITY_SCORING_ENABLED : option jsstring;
  VISIBILITY_SCORING_PROVIDER : option jsstring;
  VISIBILITY_SCORING_WEIGHTS : option jsstring
}.
End ProcessEnv.

Module Arr.

(** The [length] of an array, as a number. *)
Definition lengthOf {A} (l : list A) : number := ofZ (Z.of_nat (List.length l)).

(** An array index in a template: its decimal digits. *)
Definition indexToString (idx : nat) : jsstring :=
  lit (DecimalString.NilEmpty.string_of_uint (Nat.to_uint idx)).

Inductive IntegerOrInfinity :=
| NegInfinity
| Integer (z : Z)
| PosInfinity.

(** ToIntegerOrInfinity on a number: NaN and the zeros give 0, a finite
    number is truncated towards zero. *)
Definition ToIntegerOrInfinity (x : number) : IntegerOrInfinity :=
  match x with
  | S754_nan | S754_zero _ => Integer 0
  | S754_infinity false => PosInfinity
  | S754_infinity true => NegInfinity
  | S754_finite s m e =>
      let magnitude :=
        if (0 <=? e)%Z then (Zpos m * 2 ^ e)%Z else (Zpos m / 2 ^ (- e))%Z in
      Integer (if s then (- magnitude)%Z else magnitude)
  end.

(** [l.slice(0, end)] *)
Definition sliceFromStart {A} (l : list A) (finish : number) : list A :=
  let len := Z.of_nat (List.length l) in
  let final :=
    match ToIntegerOrInfinity finish with
    | NegInfinity => 0%Z
    | Integer z => if (z <? 0)%Z then Z.max (len + z) 0 else Z.min z len
    | PosInfinity => len
    end in
  firstn (Z.to_nat final) l.

(** [l.map((x, idx) => f(x, idx))], from index [idx] on. *)
Fixpoint mapFrom {A B} (f : A -> nat -> B) (idx : nat) (l : list A) : list B :=
  match l with
  | [] => []
  | x :: rest => f x idx :: mapFrom f (S idx) rest
  end.

(** [l.flatMap((x, idx) => f(x, idx))], from index [idx] on. *)
Fixpoint flatMapFrom {A B} (f : A -> nat -> list B) (idx : nat) (l : list A)
  : list B :=
  match l with
  | [] => []
  | x :: rest => f x idx ++ flatMapFrom f (S idx) rest
  end.

End Arr.

(* ================================================================== *)
(** * llmClients.ts *)
(* ================================================================== *)

Module LlmClients.

(** A provider at run time: one of the three names of [LlmProvider], or
    another string that a cast from the environment let through. *)
Inductive ProviderName :=
| Known (provider : LlmProvider)
| Unknown (name : jsstring).

(** The provider a string names. *)
Definition named (s : jsstring) : ProviderName :=
  if Str.eqb s (lit "openai") then Known openai
  else if Str.eqb s (lit "anthropic") then Known anthropic
  else if Str.eqb s (lit "gemini") then Known gemini
  else Unknown s.

(** [!!key && key.trim().length > 0] *)
Definition hasValidApiKey (key : option jsstring) : bool :=
  match key with
  | Some (c :: k) => Nat.ltb 0 (List.length (trim (c :: k)))
  | _ => false
  end.

Definition hasApiKey (env : ProcessEnv.t) (provider : ProviderName) : bool :=
  match provider with
  | Known openai => hasValidApiKey (ProcessEnv.OPENAI_API_KEY env)
  | Known anthropic => hasValidApiKey (ProcessEnv.ANTHROPIC_API_KEY env)
  | Known gemini => hasValidApiKey (ProcessEnv.GEMINI_API_KEY env)
  | Unknown _ => false
  end.

(** The module variables [anthropic] and [gemini]: whether each client has
    been created. *)
Record Clients := mkClients {
  anthropicClient : bool;
  geminiClient : bool
}.


(** What [callOpenAI] reads from a response: [output_text] and
    [output[0].content[0].text], each possibly absent. *)
Record OpenAIResponse := mkOpenAIResponse {
  output_text : option jsstring;
  first_output_text : option jsstring
}.

Definition nullish {A} (a : option A) (b : A) : A :=
  match a with Some x => x | None => b end.

Section Sdk.

(** The calls into the three SDKs.  For OpenAI: constructing the client
    and creating a response, [None] when either throws.  For the two
    others: the text read from the response, [None] when the call or the
    read throws. *)
Variable responsesCreate : jsstring -> option OpenAIResponse.
Variable messagesCreate : jsstring -> option jsstring.
Variable generateContent : jsstring -> option jsstring.

Definition settle (r : option jsstring) : Agents.Promise jsstring :=
  match r with
  | Some text => Agents.Fulfilled text
  | None => Agents.Rejected
  end.

(** [new OpenAI()] is never null, so the mock branch is not taken. *)
Definition callOpenAI (prompt : jsstring) : Agents.Promise jsstring :=
  match responsesCreate prompt with
  | Some response =>
      Agents.Fulfilled
        (nullish (output_text response)
           (nullish (first_output_text response) []))
  | None => Agents.Rejected
  end.

Definition getAnthropicClient (env : ProcessEnv.t) (clients : Clients)
  : Clients :=
  if negb (anthropicClient clients)
     && hasValidApiKey (ProcessEnv.ANTHROPIC_API_KEY env)
  then mkClients true (geminiClient clients)
  else clients.

Definition getGeminiClient (env : ProcessEnv.t) (clients : Clients)
  : Clients :=
  if negb (geminiClient clients)
     && hasValidApiKey (ProcessEnv.GEMINI_API_KEY env)
  then mkClients (anthropicClient clients) true
  else clients.

Definition callAnthropic (env : ProcessEnv.t) (clients : Clients)
    (prompt : jsstring) : Agents.Promise jsstring * Clients :=
  let clients' := getAnthropicClient env clients in
  if negb (anthropicClient clients')
  then (Agents.Fulfilled (lit "[ANTHROPIC MOCK] " ++ firstn 100 prompt), clients')
  else (settle (messagesCreate prompt), clients').

Definition callGemini (env : ProcessEnv.t) (clients : Clients)
    (prompt : jsstring) : Agents.Promise jsstring * Clients :=
  let clients' := getGeminiClient env clients in
  if negb (geminiClient clients')
  then (Agents.Fulfilled (lit "[GEMINI MOCK] " ++ firstn 100 prompt), clients')
  else (settle (generateContent prompt), clients').

(** The [default] branch throws "Unknown provider". *)
Definition callLlm (env : ProcessEnv.t) (clients : Clients)
    (provider : ProviderName) (prompt : jsstring)
  : Agents.Promise jsstring * Clients :=
  match provider with
  | Known openai => (callOpenAI prompt, clients)
  | Known anthropic => callAnthropic env clients prompt
  | Known gemini => callGemini env clients prompt
  | Unknown _ => (Agents.Rejected, clients)
  end.

End Sdk.

End LlmClients.

(* ================================================================== *)
(** * services/visibilityScoring.ts *)
(* ================================================================== *)

Module VisibilityScoring.

Import LlmClients.

Record VisibilityScoringOptions := mkOptions {
  provider : option LlmProvider;
  weights : option Weights.t;
  enableScoring : option bool
}.

Record VisibilityScoringResult := mkResult {
  score : number;
  breakdown : option Breakdown.t;
  rationale : jsstring
}.

Definition dq : jsstring := Agents.dq.
Definition newline : jsstring := Agents.newline.

Definition descriptionLine (company : CompanyProfile.t) : jsstring :=
  match CompanyProfile.description company with
  | c :: d => lit "- Description: " ++ c :: d
  | [] => lit "- Description: Not provided"
  end.

Definition buildScoringPrompt (company : CompanyProfile.t)
    (question : GeneratedQuestion.t) (answer : jsstring) : jsstring :=
  lit "You are an AI visibility analyst. Evaluate how well a company is represented in an AI assistant's answer." ++ newline
  ++ newline
  ++ lit "Company Information:" ++ newline
  ++ lit "- Name: " ++ CompanyProfile.name company ++ newline
  ++ descriptionLine company ++ newline
  ++ lit "- Services: " ++ join (lit ", ") (CompanyProfile.services company) ++ newline
  ++ newline
  ++ lit "User Question: " ++ dq ++ GeneratedQuestion.text question ++ dq ++ newline
  ++ lit "AI Answer: " ++ dq ++ answer ++ dq ++ newline
  ++ newline
  ++ lit "Evaluate the visibility of " ++ dq ++ CompanyProfile.name company ++ dq ++ lit " in the answer and return a JSON object with this exact structure:" ++ newline
  ++ lit "{" ++ newline
  ++ lit "  " ++ dq ++ lit "mentionPresence" ++ dq ++ lit ": 0.0-1.0," ++ newline
  ++ lit "  " ++ dq ++ lit "mentionCount" ++ dq ++ lit ": 0," ++ newline
  ++ lit "  " ++ dq ++ lit "mentionContext" ++ dq ++ lit ": 0.0-1.0," ++ newline
  ++ lit "  " ++ dq ++ lit "mentionPosition" ++ dq ++ lit ": 0.0-1.0," ++ newline
  ++ lit "  " ++ dq ++ lit "descriptionDetail" ++ dq ++ lit ": 0.0-1.0," ++ newline
  ++ lit "  " ++ dq ++ lit "answerRelevance" ++ dq ++ lit ": 0.0-1.0," ++ newline
  ++ lit "  " ++ dq ++ lit "serviceMatch" ++ dq ++ lit ": 0.0-1.0," ++ newline
  ++ lit "  " ++ dq ++ lit "rationale" ++ dq ++ lit ": " ++ dq ++ lit "Brief explanation of the score" ++ dq ++ newline
  ++ lit "}" ++ newline
  ++ newline
  ++ lit "Rules:" ++ newline
  ++ lit "- JSON only. No extra text." ++ newline
  ++ lit "- All scores must be numbers between 0.0 and 1.0." ++ newline
  ++ lit "- If company is not mentioned, mentionPresence must be 0.0.".

(** [null] for a value that is unset, empty, not JSON, or JSON that is not
    an object; arrays are objects. *)
Definition parseWeightsEnv (envValue : option jsstring) : option JsValue :=
  match envValue with
  | Some (c :: v) =>
      match JSON_parse (c :: v) with
      | Some (JObj props) => Some (JObj props)
      | Some (JArr items) => Some (JArr items)
      | _ => None
      end
  | _ => None
  end.

(** [p && hasApiKey(p)] *)
Definition keyed (env : ProcessEnv.t) (p : option ProviderName) : bool :=
  match p with
  | Some n => hasApiKey env n
  | None => false
  end.

Definition selectScoringProvider (env : ProcessEnv.t)
    (optionProvider envProvider : option ProviderName)
    (fallbackProvider : ProviderName) : option ProviderName :=
  let order := [Known openai; Known anthropic; Known gemini] in
  if keyed env optionProvider then optionProvider
  else if keyed env envProvider then envProvider
  else if hasApiKey env fallbackProvider then Some fallbackProvider
  else find (hasApiKey env) order.

(** The weights in force: a typed record, or whatever object the
    environment variable holds. *)
Inductive ResolvedWeights :=
| Typed (w : Weights.t)
| Untyped (parsed : JsValue).

(** The object read as weights, when its six members are numbers. *)
Definition asWeights (v : JsValue) : option Weights.t :=
  match get v (lit "mentionPresence"), get v (lit "mentionContext"),
        get v (lit "mentionPosition"), get v (lit "descriptionDetail"),
        get v (lit "answerRelevance"), get v (lit "serviceMatch") with
  | JNum a, JNum b, JNum c, JNum d, JNum e, JNum f =>
      Some (Weights.mk a b c d e f)
  | _, _, _, _, _, _ => None
  end.

(** A string from the environment cast to a provider; the empty string is
    falsy. *)
Definition providerFromEnv (value : option jsstring) : option ProviderName :=
  match value with
  | Some (c :: s) => Some (named (c :: s))
  | _ => None
  end.

(** [a || b] on strings. *)
Definition orElse (a b : jsstring) : jsstring :=
  match a with
  | c :: m => c :: m
  | [] => b
  end.

Section Runtime.

(** Fixed by the engine: [Number(value)], the message of a SyntaxError, and
    the final score that the operators of [calculateVisibilityScore] yield,
    before [clamp], on weights that are not all numbers.  The operators
    coerce their operands: every product and quotient is a number, so the
    final score is one, unless a coercion throws a TypeError, as it does on
    an object whose [toString] member is not a function; that is [None].
    The provider call resolves to a text or rejects. *)
Variable ToNumber : JsValue -> number.
Variable syntaxErrorMessage : jsstring -> jsstring.
Variable coercedFinalScore : Breakdown.t -> JsValue -> option number.
Variable callLlm : LlmProvider -> jsstring -> option jsstring.

Variable env : ProcessEnv.t.

(** [callLlm] on a run-time provider name. *)
Definition callNamed (provider : ProviderName) (prompt : jsstring)
  : option jsstring :=
  match provider with
  | Known p => callLlm p prompt
  | Unknown _ => None
  end.

(** [params.options?.weights || (parseWeightsEnv(...) ?? DEFAULT_SCORING_WEIGHTS)] *)
Definition resolveWeights (options : option VisibilityScoringOptions)
  : ResolvedWeights :=
  match match options with Some o => weights o | None => None end with
  | Some w => Typed w
  | None =>
      match parseWeightsEnv (ProcessEnv.VISIBILITY_SCORING_WEIGHTS env) with
      | Some parsed =>
          match asWeights parsed with
          | Some w => Typed w
          | None => Untyped parsed
          end
      | None => Typed DEFAULT_SCORING_WEIGHTS
      end
  end.

(** [calculateVisibilityScore(breakdown, weights)]; [None] when it
    throws. *)
Definition calculate (b : Breakdown.t) (w : ResolvedWeights) : option number :=
  match w with
  | Typed w => Some (calculateVisibilityScore b w)
  | Untyped parsed =>
      option_map ScoringCalculator.clamp (coercedFinalScore b parsed)
  end.

Definition scoreAnswerVisibility
    (provider : LlmProvider) (company : CompanyProfile.t)
    (question : GeneratedQuestion.t) (answer : jsstring)
    (options : option VisibilityScoringOptions)
    (heuristicScore : number) (heuristicRationale : jsstring)
  : VisibilityScoringResult :=
  let heuristic := mkResult heuristicScore None heuristicRationale in
  let enableScoring :=
    match match options with Some o => enableScoring o | None => None end with
    | Some b => b
    | None =>
        match ProcessEnv.VISIBILITY_SCORING_ENABLED env with
        | Some v => negb (Str.eqb v (lit "false"))
        | None => true
        end
    end in
  if negb enableScoring then heuristic
  else
    match selectScoringProvider env
            (match options with
             | Some o => option_map Known (VisibilityScoring.provider o)
             | None => None
             end)
            (providerFromEnv (ProcessEnv.VISIBILITY_SCORING_PROVIDER env))
            (Known provider) with
    | None => heuristic
    | Some scoringProvider =>
        let w := resolveWeights options in
        match callNamed scoringProvider
                (buildScoringPrompt company question answer) with
        | None => heuristic
        | Some scoringResponse =>
            let parsed :=
              fst (ScoringParser.parseScoringResponse ToNumber
                     syntaxErrorMessage scoringResponse) in
            match ScoringParser.success parsed, ScoringParser.breakdown parsed with
            | true, Some b =>
                match calculate b w with
                | Some score =>
                    mkResult score (Some b)
                      (orElse (Breakdown.rationale b) heuristicRationale)
                | None => heuristic
                end
            | _, _ => heuristic
            end
        end
    end.

End Runtime.

End VisibilityScoring.

(* ================================================================== *)
(** * agents.ts: the question generator *)
(* ================================================================== *)

Module QuestionGeneration.

Import QuestionParser LlmClients.

Definition dq : jsstring := Agents.dq.
Definition newline : jsstring := Agents.newline.

Record QuestionGenerationOptions := mkOptions {
  provider : option LlmProvider;
  minQuestions : option number;
  maxQuestions : option number;
  enableFallback : option bool
}.

(** The call with [options] omitted: [{}]. *)
Definition noOptions : QuestionGenerationOptions :=
  mkOptions None None None None.

(** The three questions of one service, [idx] being its index. *)
Definition templatesFor (service : jsstring) (idx : nat)
  : list GeneratedQuestion.t :=
  let baseId := Arr.indexToString idx in
  [GeneratedQuestion.mk (baseId ++ lit "-1")
     (lit "Which companies provide " ++ service ++ lit " in my region?")
     (lit "en") (lit "find_service");
   GeneratedQuestion.mk (baseId ++ lit "-2")
     (lit "What are the best options for " ++ service ++ lit "?")
     (lit "en") (lit "compare_options");
   GeneratedQuestion.mk (baseId ++ lit "-3")
     (lit "How much does " ++ service ++ lit " cost?")
     (lit "en") (lit "pricing")].

Definition generateTemplateQuestions (company : CompanyProfile.t)
  : list GeneratedQuestion.t :=
  Arr.flatMapFrom templatesFor 0 (CompanyProfile.services company).

(** [company.targetLocales?.[0] || fallback] *)
Definition firstLocaleOr (company : CompanyProfile.t) (fallback : jsstring)
  : jsstring :=
  match CompanyProfile.targetLocales company with
  | Some ((c :: l) :: _) => c :: l
  | _ => fallback
  end.

(** [company.services[0]] inside a template: absent, it prints as
    "undefined". *)
Definition firstServiceText (company : CompanyProfile.t) : jsstring :=
  match CompanyProfile.services company with
  | service :: _ => service
  | [] => lit "undefined"
  end.

Definition industryContext (company : CompanyProfile.t) : jsstring :=
  match CompanyProfile.description company with
  | c :: d => lit "- Industry context: " ++ c :: d
  | [] => []
  end.

Section Prompt.

(** A number inside a template: [Number::toString], fixed by the engine. *)
Variable numberToString : number -> jsstring.

Definition buildQuestionGenerationPrompt (company : CompanyProfile.t)
    (minQuestions maxQuestions : number) : jsstring :=
  let targetLanguage := firstLocaleOr company (lit "English") in
  let languageCode := firstLocaleOr company (lit "en") in
  lit "You are a market research assistant." ++ newline
  ++ lit "Generate realistic questions that potential customers would ask AI assistants when searching for services." ++ newline
  ++ newline
  ++ lit "Context (for reference only - DO NOT mention company name in questions):" ++ newline
  ++ lit "- Services offered: " ++ join (lit ", ") (CompanyProfile.services company) ++ newline
  ++ industryContext company ++ newline
  ++ newline
  ++ lit "Requirements:" ++ newline
  ++ lit "- Generate " ++ numberToString minQuestions ++ lit "-" ++ numberToString maxQuestions ++ lit " diverse questions" ++ newline
  ++ lit "- Questions should be from a customer's perspective searching for these services" ++ newline
  ++ lit "- Questions should NOT mention any specific company names" ++ newline
  ++ lit "- Questions should be natural, as if a real customer is asking an AI assistant" ++ newline
  ++ lit "- Include different intents: finding services, comparing options, pricing inquiries, reviews, features" ++ newline
  ++ lit "- Language: " ++ targetLanguage ++ lit " (use language code " ++ dq ++ languageCode ++ dq ++ lit ")" ++ newline
  ++ newline
  ++ lit "Examples of good questions:" ++ newline
  ++ lit "- " ++ dq ++ lit "Which companies provide " ++ firstServiceText company ++ lit "?" ++ dq ++ newline
  ++ lit "- " ++ dq ++ lit "What are the best options for " ++ firstServiceText company ++ lit "?" ++ dq ++ newline
  ++ lit "- " ++ dq ++ lit "How much does " ++ firstServiceText company ++ lit " cost?" ++ dq ++ newline
  ++ lit "- " ++ dq ++ lit "What should I look for when choosing a " ++ firstServiceText company ++ lit " provider?" ++ dq ++ newline
  ++ newline
  ++ lit "Return your response as a valid JSON array with this exact structure:" ++ newline
  ++ lit "[" ++ newline
  ++ lit "  {" ++ newline
  ++ lit "    " ++ dq ++ lit "text" ++ dq ++ lit ": " ++ dq ++ lit "Question text here (without company names)" ++ dq ++ lit "," ++ newline
  ++ lit "    " ++ dq ++ lit "intent" ++ dq ++ lit ": " ++ dq ++ lit "find_service" ++ dq ++ lit " | " ++ dq ++ lit "compare_options" ++ dq ++ lit " | " ++ dq ++ lit "pricing" ++ dq ++ lit " | " ++ dq ++ lit "reviews" ++ dq ++ lit " | " ++ dq ++ lit "features" ++ dq ++ lit "," ++ newline
  ++ lit "    " ++ dq ++ lit "language" ++ dq ++ lit ": " ++ dq ++ languageCode ++ dq ++ newline
  ++ lit "  }" ++ newline
  ++ lit "]" ++ newline
  ++ newline
  ++ lit "Ensure the JSON is valid and parseable.".

End Prompt.

(** What the agent throws.  An error made from a template carries the
    values the template interpolates. *)
Inductive Failure :=
| ApiKeyNotConfigured (provider : ProviderName)
| QuestionValidationFailed (messages : list QuestionValidator.Message)
| FailedToParse (errorMsg : jsstring)
| CallRejected
| TypeErrorInValidation.

Inductive Outcome :=
| Returned (questions : list GeneratedQuestion.t)
| Threw (error : Failure).

(** [a || b] on a string that may be undefined. *)
Definition orElse (a : option jsstring) (b : jsstring) : jsstring :=
  match a with
  | Some (c :: m) => c :: m
  | _ => b
  end.

Section Agent.

(** Fixed by the engine: lower-casing and the printing of a number.  The
    provider call resolves to a text or rejects; [timestamp idx] is the
    text of [Date.now()] when the question of index [idx] gets its id. *)
Variable toLowerCase : jsstring -> jsstring.
Variable numberToString : number -> jsstring.
Variable callLlm : LlmProvider -> jsstring -> option jsstring.
Variable timestamp : nat -> jsstring.

Variable env : ProcessEnv.t.

Definition callNamed (provider : ProviderName) (prompt : jsstring)
  : option jsstring :=
  match provider with
  | Known p => callLlm p prompt
  | Unknown _ => None
  end.

(** The provider in force: the option, else the environment variable when
    it is a non-empty string, else "openai". *)
Definition providerOf (options : QuestionGenerationOptions) : ProviderName :=
  match provider options with
  | Some p => Known p
  | None =>
      match ProcessEnv.QUESTION_GENERATION_PROVIDER env with
      | Some (c :: s) => named (c :: s)
      | _ => Known openai
      end
  end.

Definition identified (q : RawQuestion) (idx : nat) : GeneratedQuestion.t :=
  GeneratedQuestion.mk
    (lit "q-" ++ Arr.indexToString idx ++ lit "-" ++ timestamp idx)
    (text q) (language q) (intent q).

Definition questionGeneratorAgent (company : CompanyProfile.t)
    (options : QuestionGenerationOptions) : Outcome :=
  let provider := providerOf options in
  let minQuestions := nullish (minQuestions options) (ofZ 8) in
  let maxQuestions := nullish (maxQuestions options) (ofZ 12) in
  let enableFallback := nullish (enableFallback options) true in
  let prompt :=
    buildQuestionGenerationPrompt numberToString company minQuestions
      maxQuestions in
  let fallbackOr (error : Failure) : Outcome :=
    if enableFallback then Returned (generateTemplateQuestions company)
    else Threw error in
  if negb (hasApiKey env provider) then fallbackOr (ApiKeyNotConfigured provider)
  else
    match callNamed provider prompt with
    | None => fallbackOr CallRejected
    | Some response =>
        let parseResult := fst (parseQuestionResponse response) in
        if success parseResult
           && Nat.ltb 0 (List.length (QuestionParser.questions parseResult))
        then
          match QuestionValidator.validateQuestions toLowerCase
                  (JArr (QuestionParser.questions parseResult))
                  QuestionValidator.defaultConfig with
          | None => fallbackOr TypeErrorInValidation
          | Some validationResult =>
              if QuestionValidator.valid validationResult
                 && Nat.ltb 0
                      (List.length (QuestionValidator.questions validationResult))
              then
                let questions :=
                  Arr.mapFrom identified 0
                    (QuestionValidator.questions validationResult) in
                if lt (Arr.lengthOf questions) minQuestions && enableFallback
                then Returned (generateTemplateQuestions company)
                else Returned (Arr.sliceFromStart questions maxQuestions)
              else
                fallbackOr
                  (QuestionValidationFailed
                     (map QuestionValidator.message
                        (QuestionValidator.errors validationResult)))
          end
        else
          let errorMsg :=
            orElse (error parseResult) (lit "Unknown parsing error") in
          fallbackOr (FailedToParse errorMsg)
    end.

End Agent.

End QuestionGeneration.

(* ================================================================== *)
(** * agents.ts: the visibility agent of one provider *)
(* ================================================================== *)

Module VisibilityAgent.

Import LlmClients.

Definition dq : jsstring := Agents.dq.
Definition newline : jsstring := Agents.newline.

(** A score as the loop pushes it.  Its [service] is [undefined], here
    [None], when the company has no services at all. *)
Record Scored := mkScored {
  scoredBy : LlmProvider;
  service : option jsstring;
  score : number;
  rationale : jsstring
}.

Record Result := mkResult {
  provider : LlmProvider;
  answers : list LlmRawAnswer.t;
  scores : list Scored
}.

Definition answerPrompt (company : CompanyProfile.t)
    (question : GeneratedQuestion.t) : jsstring :=
  newline
  ++ lit "You are an assistant. The user asked: " ++ dq ++ GeneratedQuestion.text question ++ dq ++ lit "." ++ newline
  ++ newline
  ++ lit "Answer naturally." ++ newline
  ++ lit "IMPORTANT:" ++ newline
  ++ lit "- Mention real company names that fit the request." ++ newline
  ++ lit "- If the company " ++ dq ++ CompanyProfile.name company ++ dq ++ lit " is relevant, mention it explicitly in your answer." ++ newline.

Section Agent.

Variable toLowerCase : jsstring -> jsstring.
Variable ToNumber : JsValue -> number.
Variable syntaxErrorMessage : jsstring -> jsstring.
Variable coercedFinalScore : Breakdown.t -> JsValue -> option number.
Variable callLlm : LlmProvider -> jsstring -> option jsstring.

Variable env : ProcessEnv.t.

(** [company.services.find(...) ?? company.services[0]] *)
Definition relatedService (company : CompanyProfile.t)
    (question : GeneratedQuestion.t) : option jsstring :=
  match find (fun s =>
                includes (toLowerCase (GeneratedQuestion.text question))
                  (toLowerCase s))
          (CompanyProfile.services company) with
  | Some s => Some s
  | None => hd_error (CompanyProfile.services company)
  end.

(** The [for] loop over the questions that remain, with the two arrays it
    fills; a provider call that rejects rejects the whole run. *)
Fixpoint answerFrom (provider : LlmProvider) (company : CompanyProfile.t)
    (questions : list GeneratedQuestion.t)
    (answers : list LlmRawAnswer.t) (scores : list Scored)
  : Agents.Promise Result :=
  match questions with
  | [] => Agents.Fulfilled (mkResult provider answers scores)
  | question :: rest =>
      match callLlm provider (answerPrompt company question) with
      | None => Agents.Rejected
      | Some answer =>
          let heuristicScore := Agents.heuristicScore toLowerCase company answer in
          let heuristicRationale :=
            Agents.heuristicRationale toLowerCase company answer in
          let scoringResult :=
            VisibilityScoring.scoreAnswerVisibility ToNumber syntaxErrorMessage
              coercedFinalScore callLlm env provider company question answer
              None heuristicScore heuristicRationale in
          answerFrom provider company rest
            (answers
             ++ [LlmRawAnswer.mk (GeneratedQuestion.id question)
                   (GeneratedQuestion.text question) answer])
            (scores
             ++ [mkScored provider (relatedService company question)
                   (VisibilityScoring.score scoringResult)
                   (VisibilityScoring.rationale scoringResult)])
      end
  end.

Definition visibilityAgentForProvider (provider : LlmProvider)
    (company : CompanyProfile.t) (questions : list GeneratedQuestion.t)
  : Agents.Promise Result :=
  answerFrom provider company questions [] [].

End Agent.

End VisibilityAgent.

(* ================================================================== *)
(** * services/siteMetadata.ts *)
(* ================================================================== *)

Module SiteMetadata.

Definition isQuote (c : N) : bool := (c =? 34)%N || (c =? 39)%N.
Definition notQuote (c : N) : bool := negb (isQuote c).
Definition notClosing (c : N) : bool := negb (c =? 62)%N.

(** [/<meta\s+name=QdescriptionQ\s+content=Q([^Q]+)Q[^>]*>/i], where each Q
    stands for the class of the double and the single quote of the source. *)
Definition metaRegex : RegExp.regexp :=
  RegExp.mkRegExp
    (RegExp.seq
       [RegExp.literal (lit "<meta");
        RegExp.Class RegExp.whiteSpace; RegExp.StarGreedy RegExp.whiteSpace;
        RegExp.literal (lit "name=");
        RegExp.Class isQuote;
        RegExp.literal (lit "description");
        RegExp.Class isQuote;
        RegExp.Class RegExp.whiteSpace; RegExp.StarGreedy RegExp.whiteSpace;
        RegExp.literal (lit "content=");
        RegExp.Class isQuote;
        RegExp.Group
          (RegExp.Seq (RegExp.Class notQuote) (RegExp.StarGreedy notQuote));
        RegExp.Class isQuote;
        RegExp.StarGreedy notClosing;
        RegExp.Char 62])
    true.

(** How [fetch] and the reading of the body end: a network error or a
    timeout, or a response with its [ok] flag and its text, [None] when
    reading the text fails. *)
Inductive FetchOutcome :=
| Failed
| Responded (ok : bool) (body : option jsstring).

(** The description found in a page, if any. *)
Definition descriptionIn (html : jsstring) : option jsstring :=
  match QuestionParser.truthyGroup (RegExp.exec metaRegex html) with
  | Some g =>
      let desc := trim g in
      if Nat.ltb 0 (List.length desc) then Some (firstn 500 desc) else None
  | None => None
  end.

Section Fetch.

Variable fetch : jsstring -> FetchOutcome.

Definition fetchMetaDescription (url : jsstring) : option jsstring :=
  match url with
  | [] => None
  | _ :: _ =>
      match fetch url with
      | Failed => None
      | Responded ok body =>
          if negb ok then None
          else
            match body with
            | Some html => descriptionIn html
            | None => None
            end
      end
  end.

End Fetch.

End SiteMetadata.

(* ================================================================== *)
(** * agents.ts: the orchestrator *)
(* ================================================================== *)

Module Orchestrator.

(** The dashboard object the flow returns.  Its provider results are those
    of the visibility agents, as they are. *)
Record Result := mkResult {
  company : CompanyProfile.t;
  questions : list GeneratedQuestion.t;
  providerResults : list VisibilityAgent.Result;
  insights : list DashboardInsight.t;
  recommendations : list Recommendation.t
}.

(** How the flow ends: with a dashboard, or with the error of the question
    generator or of the dashboard aggregator, rethrown. *)
Inductive Outcome :=
| Completed (dashboard : Result)
| GenerationFailed (error : QuestionGeneration.Failure)
| DashboardFailed.

(** [score.service] as the aggregator uses it, a property key: [undefined]
    reads as the key "undefined". *)
Definition keyOf (service : option jsstring) : jsstring :=
  match service with
  | Some s => s
  | None => lit "undefined"
  end.

Definition keyedScore (s : VisibilityAgent.Scored) : VisibilityScore.t :=
  VisibilityScore.mk (VisibilityAgent.scoredBy s)
    (keyOf (VisibilityAgent.service s)) (VisibilityAgent.score s)
    (VisibilityAgent.rationale s).

Definition keyedResult (r : VisibilityAgent.Result)
  : ProviderVisibilityResult.t :=
  ProviderVisibilityResult.mk (VisibilityAgent.provider r)
    (VisibilityAgent.answers r) (map keyedScore (VisibilityAgent.scores r)).

Section Flow.

Variable toLowerCase : jsstring -> jsstring.
Variable numberToString : number -> jsstring.
Variable toFixed2 : number -> jsstring.
Variable ToNumber : JsValue -> number.
Variable syntaxErrorMessage : jsstring -> jsstring.
Variable coercedFinalScore : Breakdown.t -> JsValue -> option number.
Variable callLlm : LlmProvider -> jsstring -> option jsstring.
Variable timestamp : nat -> jsstring.
Variable fetch : jsstring -> SiteMetadata.FetchOutcome.

Variable env : ProcessEnv.t.

(** The company with the description of its site filled in, when it has
    none of its own and the site yields one. *)
Definition describe (company : CompanyProfile.t) : CompanyProfile.t :=
  match CompanyProfile.description company, CompanyProfile.website company with
  | [], Some (c :: w) =>
      match SiteMetadata.fetchMetaDescription fetch (c :: w) with
      | Some (d :: metaDesc) =>
          CompanyProfile.mk (CompanyProfile.name company)
            (CompanyProfile.website company) (d :: metaDesc)
            (CompanyProfile.services company)
            (CompanyProfile.targetLocales company)
      | _ => company
      end
  | _, _ => company
  end.

(** One provider of the second step: its run, or an empty result when the
    run rejects. *)
Definition checkProvider (company : CompanyProfile.t)
    (questions : list GeneratedQuestion.t) (p : LlmProvider)
  : VisibilityAgent.Result :=
  match VisibilityAgent.visibilityAgentForProvider toLowerCase ToNumber
          syntaxErrorMessage coercedFinalScore callLlm env p company
          questions with
  | Agents.Fulfilled result => result
  | Agents.Rejected => VisibilityAgent.mkResult p [] []
  end.

Definition runVisibilityFlow (company : CompanyProfile.t) : Outcome :=
  let company := describe company in
  match QuestionGeneration.questionGeneratorAgent toLowerCase numberToString
          callLlm timestamp env company QuestionGeneration.noOptions with
  | QuestionGeneration.Threw error => GenerationFailed error
  | QuestionGeneration.Returned questions =>
      let providers := [openai; anthropic; gemini] in
      let providerResults := map (checkProvider company questions) providers in
      match Agents.dashboardAgent callLlm toFixed2 company questions
              (map keyedResult providerResults) with
      | Some dashboard =>
          Completed
            (mkResult (DashboardResult.company dashboard)
               (DashboardResult.questions dashboard) providerResults
               (DashboardResult.insights dashboard)
               (DashboardResult.recommendations dashboard))
      | None => DashboardFailed
      end
  end.

End Flow.

End Orchestrator.


(* ================================================================== *)
(** * Notions used in the statements and proofs *)
(* ================================================================== *)

(** Membership of the closed interval [0,1], by the number comparisons. *)
Definition inUnitInterval (x : number) : Prop :=
  le zero x = true /\ le x one = true.

(** ** The validator *)

Section ValidatorNotions.

Import QuestionParser QuestionValidator.

Variable toLowerCase : jsstring -> jsstring.
Variable config : ValidationConfig.

(** A candidate passes when it produces no error of its own. *)
Definition passes (candidate : JsValue) : bool :=
  match validateSingleQuestion toLowerCase candidate 0 config with
  | [] => true
  | _ :: _ => false
  end.

(** All the errors of the candidates, in order, from index [i] on. *)
Fixpoint collectedErrors (i : nat) (items : list JsValue)
  : list ValidationError :=
  match items with
  | [] => []
  | item :: rest =>
      validateSingleQuestion toLowerCase item i config
        ++ collectedErrors (S i) rest
  end.

(** [r] is the normal form of the candidate [q]: its text trimmed, its
    intent unchanged, its language lower-cased and trimmed. *)
Definition normalFormOf (q : JsValue) (r : RawQuestion) : Prop :=
  exists t i l,
    get q (lit "text") = JStr t /\
    get q (lit "intent") = JStr i /\
    get q (lit "language") = JStr l /\
    r = mkRawQuestion (trim t) i (trim (toLowerCase l)).

End ValidatorNotions.

(** ** Mock responses and recommendations *)

Definition mockMessage : jsstring :=
  lit "LLM API key not configured - received mock response".

(** The trimmed text starts with an opening bracket and contains the
    marker. *)
Definition looksLikeMock (response : jsstring) : Prop :=
  startsWith (trim response) (lit "[") = true /\
  includes (trim response) (lit "MOCK]") = true.

Definition descriptionOf (p : Agents.Promise Recommendation.t) : option jsstring :=
  match p with
  | Agents.Fulfilled r => Some (Recommendation.description r)
  | Agents.Rejected => None
  end.

(** ** Fenced blocks *)

Import QuestionParser.

(** Reading one more character in front of a string content. *)
Definition consChar (c : N) (r : option (jsstring * jsstring))
  : option (jsstring * jsstring) :=
  match r with
  | Some (str, rest) => Some (c :: str, rest)
  | None => None
  end.

(** The fixed text before each of the three string contents. *)
Definition beforeText : jsstring :=
  Eval vm_compute in lit "{" ++ QuoteJSONString (lit "text") ++ lit ":" ++ [34%N].
Definition beforeIntent : jsstring :=
  Eval vm_compute in lit "," ++ QuoteJSONString (lit "intent") ++ lit ":" ++ [34%N].
Definition beforeLanguage : jsstring :=
  Eval vm_compute in lit "," ++ QuoteJSONString (lit "language") ++ lit ":" ++ [34%N].

(** The elements of the JSON text of an array, between its brackets. *)
Definition body (qs : list RawQuestion) : jsstring :=
  join (lit ",") (map questionText qs).

(** Where the lazy capture of the block expressions stops: at the first
    position from which white space and then three backticks follow.  The
    result is the text before that position and the text after the
    backticks. *)
Fixpoint splitAtFence (s : jsstring) : option (jsstring * jsstring) :=
  match stripPrefix QuestionParser.backticks (dropWhile isWhiteSpace s) with
  | Some rest => Some ([], rest)
  | None =>
      match s with
      | c :: s' =>
          match splitAtFence s' with
          | Some (cap, rest) => Some (c :: cap, rest)
          | None => None
          end
      | [] => None
      end
  end.

(** The capture extended to the left by the text passed. *)
Definition prepend (a : jsstring) (r : option (jsstring * jsstring))
  : option (jsstring * jsstring) :=
  match r with
  | Some (cap, rest) => Some (a ++ cap, rest)
  | None => None
  end.

(** A character that is neither white space nor a backtick. *)
Definition plain (c : N) : bool := negb (isWhiteSpace c) && negb (c =? 96)%N.

(** Either no capture stops inside [content], or one does and what it has
    captured of the content is not a terminated string. *)
Definition CutOrPass (content after : jsstring) : Prop :=
  splitAtFence (content ++ after) = prepend content (splitAtFence after)
  \/ exists cap rest,
       splitAtFence (content ++ after) = Some (cap, rest)
       /\ parseChars cap = None.

(** Either no capture stops inside the text of a question, or one does and
    what it has captured is not a JSON value, whatever the fuel. *)
Definition QuestionCutOrPass (text after : jsstring) : Prop :=
  splitAtFence (text ++ after) = prepend text (splitAtFence after)
  \/ exists cap rest,
       splitAtFence (text ++ after) = Some (123%N :: cap, rest)
       /\ forall f, parseValue f (123%N :: cap) = None.

(** The line break and the backticks that close a fenced block. *)
Definition closingFence : jsstring := 10%N :: backticks.

(** What the two block expressions share after their opening: the lazy
    capture, white space and the closing backticks. *)
Definition captureThenClose : RegExp.pattern :=
  RegExp.Seq (RegExp.Group (RegExp.StarLazy RegExp.anyChar))
    (RegExp.Seq (RegExp.StarGreedy RegExp.whiteSpace)
       (RegExp.literal backticks)).

(** ** Sample inputs *)

Definition unmentioned_breakdown : Breakdown.t :=
  {| Breakdown.mentionPresence := zero;
     Breakdown.mentionCount := zero;
     Breakdown.mentionContext := one;
     Breakdown.mentionPosition := one;
     Breakdown.descriptionDetail := one;
     Breakdown.answerRelevance := one;
     Breakdown.serviceMatch := one;
     Breakdown.rationale := [] |}.

Definition sample_breakdown : Breakdown.t :=
  {| Breakdown.mentionPresence := one;
     Breakdown.mentionCount := ofZ 3;
     Breakdown.mentionContext := dec 5 1;
     Breakdown.mentionPosition := dec 25 2;
     Breakdown.descriptionDetail := dec 75 2;
     Breakdown.answerRelevance := one;
     Breakdown.serviceMatch := zero;
     Breakdown.rationale := lit "named second, one sentence" |}.

Definition sample_weights : Weights.t :=
  {| Weights.mentionPresence := ofZ 3;
     Weights.mentionContext := ofZ 1;
     Weights.mentionPosition := zero;
     Weights.descriptionDetail := dec 5 1;
     Weights.answerRelevance := ofZ 2;
     Weights.serviceMatch := ofZ 1 |}.

Definition cancelling_weights : Weights.t :=
  {| Weights.mentionPresence := ofZ 1;
     Weights.mentionContext := ofZ (-1);
     Weights.mentionPosition := zero;
     Weights.descriptionDetail := zero;
     Weights.answerRelevance := zero;
     Weights.serviceMatch := zero |}.

Definition sampleCompany : CompanyProfile.t :=
  CompanyProfile.mk (lit "Acme Cloud") None [] [lit "backup"] None.

Definition sampleProviderResults : list ProviderVisibilityResult.t :=
  [ProviderVisibilityResult.mk openai []
     [VisibilityScore.mk openai (lit "backup") (dec 9 1) []];
   ProviderVisibilityResult.mk gemini []
     [VisibilityScore.mk gemini (lit "backup") (dec 5 1) []]].

Definition sampleInsight : DashboardInsight.t :=
  DashboardInsight.mk (lit "backup") (dec 7 1) [Agents.moderateVisibility].

(** A provider whose calls all fail, and a number formatter, for runs in
    which neither matters. *)
Definition failingLlm : LlmProvider -> jsstring -> option jsstring :=
  fun _ _ => None.
Definition noDigits : number -> jsstring := fun _ => [].

Definition sampleDashboard : DashboardResult.t :=
  DashboardResult.mk sampleCompany [] sampleProviderResults [sampleInsight]
    (Agents.resolveAll sampleCompany [sampleInsight] 0
       (map (Agents.buildRecommendation failingLlm noDigits sampleCompany)
          [sampleInsight])).

Definition noCoercion : JsValue -> number := fun _ => NaN.
Definition noMessage : jsstring -> jsstring := fun _ => [].

(** ** The outcomes of the scoring parser *)



(** ** The outcomes of the question parser *)

(** The three messages a failed question parse can carry. *)
Definition parserMessages : list jsstring :=
  [lit "Empty or invalid response"; mockMessage;
   lit "Could not extract valid JSON array from response"].

(** What a run of the question parser can end in, given the texts it handed
    to [JSON.parse]: a success whose questions are the array one of those
    texts denotes, or a failure without questions and with one of the three
    messages. *)
Definition questionOutcome (run : Logged.t ParseResult) : Prop :=
  let (r, attempts) := run in
  (success r = true /\ error r = None
   /\ exists text, In text attempts /\ JSON_parse text = Some (JArr (questions r)))
  \/ (success r = false /\ questions r = []
      /\ exists m, In m parserMessages /\ error r = Some m).

(** ** What the validator accepts *)

Section ValidatorNotions2.

Import QuestionValidator.

Variable config : ValidationConfig.

(** What the validator checks, read on a question record: the length of
    the text is neither below the minimum nor above the maximum, the text
    is not empty, the intent is one of those allowed, and the language is
    two letters from a to z. *)
Definition meetsConstraints (q : RawQuestion) : Prop :=
  lt (lengthOf (text q)) (nullish (minTextLength config) (ofZ 10)) = false
  /\ gt (lengthOf (text q)) (nullish (maxTextLength config) (ofZ 200)) = false
  /\ text q <> []
  /\ In (intent q) (nullish (allowedIntents config) VALID_INTENTS)
  /\ exists a b, language q = [a; b]
                 /\ inRange 97 122 a = true /\ inRange 97 122 b = true.

(** The configuration with its list of allowed languages replaced. *)
Definition withAllowedLanguages (languages : option (list jsstring))
  : ValidationConfig :=
  mkConfig (minTextLength config) (maxTextLength config)
    (allowedIntents config) languages.

End ValidatorNotions2.

(** A sample batch of candidates. *)
Definition sampleCandidates : list JsValue :=
  [questionValue (mkRawQuestion (lit "short") (lit "pricing") (lit "en"));
   questionValue
     (mkRawQuestion (lit "  How much does a backup cost? ") (lit "pricing")
        (lit " EN "))].

(** ** Grouping the scores by service *)

(** All the scores of a run, provider after provider. *)
Definition allScores (providerResults : list ProviderVisibilityResult.t)
  : list VisibilityScore.t :=
  flat_map ProviderVisibilityResult.scores providerResults.

(** The scores given to one service, in the order they were produced. *)
Definition scoresOf (service : jsstring) (scores : list VisibilityScore.t)
  : list number :=
  map VisibilityScore.score
    (filter (fun sc => Str.eqb (VisibilityScore.service sc) service) scores).

(** A service name that is also the name of a member of
    [Object.prototype]. *)
Definition clashesWithPrototype (score : VisibilityScore.t) : Prop :=
  inherited (VisibilityScore.service score) = true.

(** The map holds, for each service among the scores seen so far, the scores
    of that service in order, and no other key. *)
Definition Grouped (serviceToScores : list (jsstring * list number))
    (seen : list VisibilityScore.t) : Prop :=
  NoDup (map fst serviceToScores)
  /\ forall k,
       getOwn serviceToScores k
       = if existsb (fun sc => Str.eqb (VisibilityScore.service sc) k) seen
         then Some (scoresOf k seen) else None.

(** ** The recommendations of the dashboard *)

(** The characters the recommendation text is split at: line feed, the
    bullet sign and the hyphen. *)
Definition bulletSeparator (c : N) : bool :=
  (c =? 10)%N || (c =? 8226)%N || (c =? 45)%N.

(** A bullet: not empty, no white space at either end, no separator. *)
Definition isBullet (b : jsstring) : Prop :=
  b <> [] /\ trim b = b /\ Forall (fun c => bulletSeparator c = false) b.

(** The recommendation belongs to the insight: its title and its two
    suggested prompts name the service of the insight, and it has a
    description. *)
Definition recommendationFor (company : CompanyProfile.t)
    (insight : DashboardInsight.t) (r : Recommendation.t) : Prop :=
  Recommendation.title r = Agents.titleFor (DashboardInsight.service insight)
  /\ Recommendation.suggestedPrompts r
     = [Agents.strongerPrompt company (DashboardInsight.service insight);
        Agents.basePrompt company (DashboardInsight.service insight)]
  /\ Recommendation.description r <> [].

(** A provider that answers every prompt with two hyphenated bullets. *)
Definition advisingLlm : LlmProvider -> jsstring -> option jsstring :=
  fun _ _ => Some (lit "- Publish case studies - Add a pricing page").

(** ** Not-a-number in the calculator *)

(** One of the six factors is NaN. *)
Definition hasNaNFactor (b : Breakdown.t) : Prop :=
  Breakdown.mentionPresence b = NaN \/ Breakdown.mentionContext b = NaN
  \/ Breakdown.mentionPosition b = NaN \/ Breakdown.descriptionDetail b = NaN
  \/ Breakdown.answerRelevance b = NaN \/ Breakdown.serviceMatch b = NaN.

(** One of the six weights is NaN. *)
Definition hasNaNWeight (w : Weights.t) : Prop :=
  Weights.mentionPresence w = NaN \/ Weights.mentionContext w = NaN
  \/ Weights.mentionPosition w = NaN \/ Weights.descriptionDetail w = NaN
  \/ Weights.answerRelevance w = NaN \/ Weights.serviceMatch w = NaN.

Definition nan_breakdown : Breakdown.t :=
  {| Breakdown.mentionPresence := one;
     Breakdown.mentionCount := one;
     Breakdown.mentionContext := NaN;
     Breakdown.mentionPosition := one;
     Breakdown.descriptionDetail := one;
     Breakdown.answerRelevance := one;
     Breakdown.serviceMatch := one;
     Breakdown.rationale := [] |}.

(** ** API keys and the choice of a scoring provider *)

(** An environment in which no key is set. *)
Definition emptyEnv : ProcessEnv.t :=
  ProcessEnv.mk None None None None None None None.

(** The result that carries the heuristic score and rationale. *)
Definition heuristicResult (heuristicScore : number)
    (heuristicRationale : jsstring) : VisibilityScoring.VisibilityScoringResult :=
  VisibilityScoring.mkResult heuristicScore None heuristicRationale.

(** ** An array inside prose *)

(** Prose before an array: it starts with a capital letter and holds no
    opening bracket and no backtick. *)
Definition leadingProse (p : jsstring) : bool :=
  match p with
  | c :: _ => inRange 65 90 c
  | [] => false
  end
  && forallb (fun c => negb (c =? 91)%N && negb (c =? 96)%N) p.

(** Prose after an array: no closing bracket and no backtick. *)
Definition trailingProse (s : jsstring) : bool :=
  forallb (fun c => negb (c =? 93)%N && negb (c =? 96)%N) s.

(** No field of the question holds a backtick. *)
Definition backtickFree (q : RawQuestion) : bool :=
  forallb (fun c => negb (c =? 96)%N) (text q ++ intent q ++ language q).

(** What follows the greedy repetition of the array expression: a closing
    brace, white space, a closing bracket. *)
Definition arrayClosing : RegExp.pattern :=
  RegExp.Seq (RegExp.Char 125)
    (RegExp.Seq (RegExp.StarGreedy RegExp.whiteSpace) (RegExp.Char 93)).

(** The final continuation of a match that started where [s0] remained of
    the input. *)
Definition found (input s0 : jsstring) : RegExp.Cont RegExp.MatchResult :=
  fun s' cap =>
    Some (RegExp.mkMatch (List.length input - List.length s0)
            (RegExp.consumed s0 s') cap).

(** ** The heuristic fallback of the scoring *)

Section ScoringNotions.

Variable ToNumber : JsValue -> number.
Variable syntaxErrorMessage : jsstring -> jsstring.
Variable callLlm : LlmProvider -> jsstring -> option jsstring.
Variable env : ProcessEnv.t.


End ScoringNotions.


(** ** The visibility agent *)

Section VisibilityAgentNotions.

Variable callLlm : LlmProvider -> jsstring -> option jsstring.
Variable provider : LlmProvider.
Variable company : CompanyProfile.t.

(** The provider rejects the prompt made for the question. *)
Definition unanswered (question : GeneratedQuestion.t) : Prop :=
  callLlm provider (VisibilityAgent.answerPrompt company question) = None.

(** The raw answer kept for a question: its id and text, and the text the
    provider returned for its prompt. *)
Definition answerTo (question : GeneratedQuestion.t) (a : LlmRawAnswer.t)
  : Prop :=
  LlmRawAnswer.questionId a = GeneratedQuestion.id question
  /\ LlmRawAnswer.question a = GeneratedQuestion.text question
  /\ callLlm provider (VisibilityAgent.answerPrompt company question)
     = Some (LlmRawAnswer.answer a).

(** The score kept for a question: by the provider asked, between 0 and 1,
    explained, and for a service of the company (for none only when the
    company has no service). *)
Definition scoreFor (s : VisibilityAgent.Scored) : Prop :=
  VisibilityAgent.scoredBy s = provider
  /\ inUnitInterval (VisibilityAgent.score s)
  /\ VisibilityAgent.rationale s <> []
  /\ match CompanyProfile.services company with
     | [] => VisibilityAgent.service s = None
     | _ :: _ =>
         exists service,
           VisibilityAgent.service s = Some service
           /\ In service (CompanyProfile.services company)
     end.

End VisibilityAgentNotions.



(** ** The template questions *)

(** The question record inside a generated question. *)
Definition rawOf (q : GeneratedQuestion.t) : RawQuestion :=
  mkRawQuestion (GeneratedQuestion.text q) (GeneratedQuestion.intent q)
    (GeneratedQuestion.language q).

(** A generated question as a value, its properties in the order of the
    object literal. *)
Definition asCandidate (q : GeneratedQuestion.t) : JsValue :=
  JObj [(lit "id", JStr (GeneratedQuestion.id q));
        (lit "text", JStr (GeneratedQuestion.text q));
        (lit "language", JStr (GeneratedQuestion.language q));
        (lit "intent", JStr (GeneratedQuestion.intent q))].

(** ** The question generator *)

(** Whether the options leave the fallback to template questions on. *)
Definition fallbackEnabled (options : QuestionGeneration.QuestionGenerationOptions)
  : bool :=
  LlmClients.nullish (QuestionGeneration.enableFallback options) true.

(** A provider that returns no text worth parsing. *)
Definition silentLlm : LlmProvider -> jsstring -> option jsstring :=
  fun _ _ => Some [].

(** The reasons the agent has to give up on the provider before any
    question is validated: no key, a call that rejects, a response the
    parser does not accept. *)
Definition providerUnusable
    (callLlm : LlmProvider -> jsstring -> option jsstring)
    (numberToString : number -> jsstring) (env : ProcessEnv.t)
    (company : CompanyProfile.t)
    (options : QuestionGeneration.QuestionGenerationOptions) : Prop :=
  let provider := QuestionGeneration.providerOf env options in
  let reply :=
    QuestionGeneration.callNamed callLlm provider
      (QuestionGeneration.buildQuestionGenerationPrompt numberToString company
         (LlmClients.nullish (QuestionGeneration.minQuestions options) (ofZ 8))
         (LlmClients.nullish (QuestionGeneration.maxQuestions options) (ofZ 12))) in
  LlmClients.hasApiKey env provider = false
  \/ reply = None
  \/ exists response,
       reply = Some response
       /\ success (fst (parseQuestionResponse response)) = false.

(** Eight questions about one service, and a provider that answers every
    prompt with their JSON text. *)
Definition eightQuestions : list RawQuestion :=
  map (fun t => mkRawQuestion (lit t) (lit "find_service") (lit "en"))
    ["Who offers managed backup near me?";
     "Which backup providers are reliable?";
     "What does cloud backup cost per month?";
     "Is there a backup service with support?";
     "Which company restores data fastest?";
     "What are the top backup services?";
     "Who provides encrypted offsite backup?";
     "Which backup vendor suits a small firm?"]%string.

Definition helpfulLlm : LlmProvider -> jsstring -> option jsstring :=
  fun _ _ => Some (JSON_stringify eightQuestions).

Definition openaiOnlyEnv : ProcessEnv.t :=
  ProcessEnv.mk (Some (lit "sk-test")) None None None None None None.

Definition fixedClock : nat -> jsstring := fun _ => lit "1700000000000".

(** ** The description of a website *)

(** What it means for a pattern to match between two positions: the
    relation the backtracking matcher searches.  A position is the input
    that remains; the capture is threaded through. *)
Inductive Matches (input : jsstring) (icase : bool)
  : RegExp.pattern -> jsstring -> option jsstring
    -> jsstring -> option jsstring -> Prop :=
| MatchesEmpty s cap : Matches input icase RegExp.Empty s cap s cap
| MatchesChar c d s cap :
    RegExp.charMatches icase c d = true ->
    Matches input icase (RegExp.Char c) (d :: s) cap s cap
| MatchesClass p d s cap :
    p d = true -> Matches input icase (RegExp.Class p) (d :: s) cap s cap
| MatchesSeq a b s cap s1 cap1 s2 cap2 :
    Matches input icase a s cap s1 cap1 ->
    Matches input icase b s1 cap1 s2 cap2 ->
    Matches input icase (RegExp.Seq a b) s cap s2 cap2
| MatchesAltLeft a b s cap s1 cap1 :
    Matches input icase a s cap s1 cap1 ->
    Matches input icase (RegExp.Alt a b) s cap s1 cap1
| MatchesAltRight a b s cap s1 cap1 :
    Matches input icase b s cap s1 cap1 ->
    Matches input icase (RegExp.Alt a b) s cap s1 cap1
| MatchesStarGreedy p pre s cap :
    Forall (fun c => p c = true) pre ->
    Matches input icase (RegExp.StarGreedy p) (pre ++ s) cap s cap
| MatchesStarLazy p pre s cap :
    Forall (fun c => p c = true) pre ->
    Matches input icase (RegExp.StarLazy p) (pre ++ s) cap s cap
| MatchesGroup a s cap s1 cap1 :
    Matches input icase a s cap s1 cap1 ->
    Matches input icase (RegExp.Group a) s cap s1
      (Some (RegExp.consumed s s1))
| MatchesStart s cap :
    List.length s = List.length input ->
    Matches input icase RegExp.AssertStart s cap s cap
| MatchesEnd cap : Matches input icase RegExp.AssertEnd [] cap [] cap.

(** The bodies of the groups of a pattern. *)
Fixpoint groups (r : RegExp.pattern) : list RegExp.pattern :=
  match r with
  | RegExp.Seq a b | RegExp.Alt a b => groups a ++ groups b
  | RegExp.Group a => a :: groups a
  | _ => []
  end.

(** A page whose head carries a description. *)
Definition samplePage : jsstring :=
  lit "<html><head><META name='description' content='  Backups for teams '>"
  ++ lit "</head></html>".

Definition sampleFetch : jsstring -> SiteMetadata.FetchOutcome :=
  fun _ => SiteMetadata.Responded true (Some samplePage).

(** ** The orchestrator *)

(** No service of the company is named after a member of
    [Object.prototype]. *)
Definition plainServices (company : CompanyProfile.t) : Prop :=
  Forall (fun s => inherited s = false) (CompanyProfile.services company).

Definition deadFetch : jsstring -> SiteMetadata.FetchOutcome :=
  fun _ => SiteMetadata.Failed.

(* ================================================================== *)
(** * Properties *)
(* ================================================================== *)

(** ** Order facts on binary64 comparisons *)

Section NumberOrder.

Ltac order_cases :=
  repeat match goal with
    | |- context [Pos.compare_cont Eq ?a ?b] =>
        change (Pos.compare_cont Eq a b) with (Pos.compare a b)
    | H : context [Pos.compare_cont Eq ?a ?b] |- _ =>
        change (Pos.compare_cont Eq a b) with (Pos.compare a b) in H
    end;
  repeat match goal with
    | |- context [Z.compare ?a ?b] => destruct (Z.compare_spec a b)
    | H : context [Z.compare ?a ?b] |- _ => destruct (Z.compare_spec a b)
    | |- context [Pos.compare ?a ?b] => destruct (Pos.compare_spec a b)
    | H : context [Pos.compare ?a ?b] |- _ => destruct (Pos.compare_spec a b)
    end;
  simpl in *; try reflexivity; try discriminate; try lia.

Lemma SFcompare_antisym (x y : number) :
  SFcompare x y = option_map CompOpp (SFcompare y x).
Proof.
  destruct x as [sx|sx| |sx mx ex], y as [sy|sy| |sy my ey];
    try destruct sx; try destruct sy; simpl; try reflexivity;
    order_cases.
Qed.

Lemma num_lt_le (x y : number) : lt x y = true -> le x y = true.
Proof.
  unfold lt, le, SFltb, SFleb.
  destruct (SFcompare x y) as [[ | | ]|]; congruence.
Qed.

Lemma num_not_lt_le (x y : number) :
  x <> NaN -> y <> NaN -> lt y x = false -> le x y = true.
Proof.
  unfold lt, le, SFltb, SFleb, NaN. intros Hx Hy.
  rewrite (SFcompare_antisym x y).
  destruct (SFcompare y x) as [[ | | ]|] eqn:E; simpl; try congruence.
  destruct x, y; simpl in E; congruence.
Qed.

Lemma num_lt_le_trans (x y z : number) :
  lt x y = true -> le y z = true -> lt x z = true.
Proof.
  unfold lt, le, SFltb, SFleb.
  destruct x as [sx|sx| |sx mx ex], y as [sy|sy| |sy my ey],
           z as [sz|sz| |sz mz ez];
    try destruct sx; try destruct sy; try destruct sz; simpl;
    try reflexivity; try discriminate; intros H1 H2; order_cases.
Qed.

Lemma num_le_lt_trans (x y z : number) :
  le x y = true -> lt y z = true -> lt x z = true.
Proof.
  unfold lt, le, SFltb, SFleb.
  destruct x as [sx|sx| |sx mx ex], y as [sy|sy| |sy my ey],
           z as [sz|sz| |sz mz ez];
    try destruct sx; try destruct sy; try destruct sz; simpl;
    try reflexivity; try discriminate; intros H1 H2; order_cases.
Qed.

Lemma num_lt_not_ge (x y : number) : lt x y = true -> ge x y = false.
Proof.
  unfold lt, ge, SFltb, SFleb. rewrite (SFcompare_antisym y x).
  destruct (SFcompare x y) as [[ | | ]|]; simpl; congruence.
Qed.

Lemma strictEq_zero_inv (x : number) :
  strictEq x zero = true -> exists s, x = S754_zero s.
Proof.
  destruct x as [s|s| |s m e]; try destruct s; simpl; try discriminate;
    eauto.
Qed.

End NumberOrder.

(** ** The score calculator *)

Lemma clamp_inUnitInterval (v : number) : inUnitInterval (clamp v).
Proof.
  unfold inUnitInterval, clamp.
  destruct (isFinite v) eqn:Hfin; simpl; [|split; reflexivity].
  destruct (lt v zero) eqn:Hlo; [split; reflexivity|].
  destruct (gt v one) eqn:Hhi; [split; reflexivity|].
  assert (Hv : v <> NaN) by (unfold NaN; destruct v; simpl in Hfin; congruence).
  split.
  - apply num_not_lt_le; [discriminate|exact Hv|exact Hlo].
  - apply num_not_lt_le; [exact Hv|discriminate|exact Hhi].
Qed.

Lemma num_le_refl (c : number) : c <> NaN -> le c c = true.
Proof.
  intros Hc. apply num_not_lt_le; try exact Hc.
  unfold lt, SFltb.
  destruct c as [s|s| |s m e]; try destruct s; simpl; try reflexivity;
    change (Pos.compare_cont Eq m m) with (Pos.compare m m);
    rewrite Z.compare_refl, Pos.compare_refl; reflexivity.
Qed.

Lemma Math_min_not_nan (x c : number) :
  x <> NaN -> c <> NaN ->
  Math_min x c =
    if lt x c then x
    else if lt c x then c
    else match x with S754_zero true => x | _ => c end.
Proof.
  unfold NaN. intros Hx Hc.
  destruct x, c; try congruence; reflexivity.
Qed.

Lemma Math_min_nan_l (c : number) : Math_min NaN c = NaN.
Proof. reflexivity. Qed.

Lemma Math_min_bound (x c : number) :
  c <> NaN -> Math_min x c = NaN \/ le (Math_min x c) c = true.
Proof.
  intros Hc.
  assert (Hx : x = NaN \/ x <> NaN)
    by (destruct x; (left; reflexivity) || (right; discriminate)).
  destruct Hx as [->|Hx]; [left; apply Math_min_nan_l|right].
  rewrite (Math_min_not_nan Hx Hc).
  destruct (lt x c) eqn:H1; [apply num_lt_le; exact H1|].
  destruct (lt c x) eqn:H2; [apply num_le_refl; exact Hc|].
  destruct x as [[|]| | |]; try (apply num_le_refl; exact Hc).
  apply num_not_lt_le; try assumption.
Qed.

Lemma clamp_le (v c : number) :
  le zero c = true -> lt one c = false ->
  v = NaN \/ le v c = true -> le (clamp v) c = true.
Proof.
  intros H0 H1 Hv. unfold clamp.
  destruct (isFinite v) eqn:Hfin; simpl; [|exact H0].
  destruct (lt v zero) eqn:Hlo; [exact H0|].
  destruct Hv as [->|Hv]; [discriminate|].
  destruct (gt v one) eqn:Hhi; [|exact Hv].
  unfold gt in Hhi. rewrite (num_lt_le_trans _ _ _ Hhi Hv) in H1. discriminate.
Qed.

Lemma strictEq_zero_not_gt (x : number) :
  strictEq x zero = true -> gt x zero = false.
Proof.
  intros H. destruct (strictEq_zero_inv _ H) as [s ->]. reflexivity.
Qed.

(** C1.  When [mentionPresence] is zero the score is at most 0.2, whatever
    the other factors and the weights are; with the default weights and the
    five other factors equal to 1 the score is exactly 0.2. *)
Theorem unmentioned_company_capped (b : Breakdown.t) (w : Weights.t) :
  strictEq (Breakdown.mentionPresence b) zero = true ->
  le (calculateVisibilityScore b w) (dec 2 1) = true /\
  (Breakdown.mentionContext b = one ->
   Breakdown.mentionPosition b = one ->
   Breakdown.descriptionDetail b = one ->
   Breakdown.answerRelevance b = one ->
   Breakdown.serviceMatch b = one ->
   calculateVisibilityScore_default b = dec 2 1).
Proof.
  intros Hmp. split.
  - unfold calculateVisibilityScore.
    rewrite (strictEq_zero_not_gt _ Hmp).
    apply clamp_le; try reflexivity.
    apply Math_min_bound. discriminate.
  - destruct b as [mp cnt ctx pos det rel svc rat]; simpl in *.
    intros -> -> -> -> ->.
    destruct (strictEq_zero_inv _ Hmp) as [s ->].
    destruct s; vm_compute; reflexivity.
Qed.

Lemma unmentioned_company_capped_witness :
  le (calculateVisibilityScore unmentioned_breakdown DEFAULT_SCORING_WEIGHTS)
     (dec 2 1) = true /\
  calculateVisibilityScore_default unmentioned_breakdown = dec 2 1.
Proof.
  destruct (@unmentioned_company_capped unmentioned_breakdown
              DEFAULT_SCORING_WEIGHTS eq_refl) as [H1 H2].
  split; [exact H1|].
  apply H2; reflexivity.
Defined.

(** The calculator ends with [clamp], so its result lies in [0,1] for
    every breakdown and every weight set. *)
Lemma calculateVisibilityScore_range (b : Breakdown.t) (w : Weights.t) :
  inUnitInterval (calculateVisibilityScore b w).
Proof. unfold calculateVisibilityScore. apply clamp_inUnitInterval. Qed.

(** C3.  For a breakdown whose six factors lie in [0,1] and six non-negative
    weights whose sum is greater than zero, the score lies in [0,1]. *)
Theorem score_in_unit_interval (b : Breakdown.t) (w : Weights.t) :
  inUnitInterval (Breakdown.mentionPresence b) ->
  inUnitInterval (Breakdown.mentionContext b) ->
  inUnitInterval (Breakdown.mentionPosition b) ->
  inUnitInterval (Breakdown.descriptionDetail b) ->
  inUnitInterval (Breakdown.answerRelevance b) ->
  inUnitInterval (Breakdown.serviceMatch b) ->
  le zero (Weights.mentionPresence w) = true ->
  le zero (Weights.mentionContext w) = true ->
  le zero (Weights.mentionPosition w) = true ->
  le zero (Weights.descriptionDetail w) = true ->
  le zero (Weights.answerRelevance w) = true ->
  le zero (Weights.serviceMatch w) = true ->
  gt (weightSum w) zero = true ->
  inUnitInterval (calculateVisibilityScore b w).
Proof.
  intros _ _ _ _ _ _ _ _ _ _ _ _ _.
  apply calculateVisibilityScore_range.
Qed.

Lemma score_in_unit_interval_witness :
  inUnitInterval (calculateVisibilityScore sample_breakdown sample_weights).
Proof.
  apply score_in_unit_interval;
    try (split; vm_compute; reflexivity); vm_compute; reflexivity.
Defined.

Lemma normalizeWeights_default :
  normalizeWeights DEFAULT_SCORING_WEIGHTS = DEFAULT_SCORING_WEIGHTS.
Proof. vm_compute. reflexivity. Qed.

(** C4.  A weight set whose six weights sum to zero gives the same score as
    the default weights 0.20, 0.25, 0.15, 0.20, 0.10, 0.10. *)
Theorem zero_sum_weights_as_default (b : Breakdown.t) (w : Weights.t) :
  strictEq (weightSum w) zero = true ->
  calculateVisibilityScore b w = calculateVisibilityScore_default b /\
  DEFAULT_SCORING_WEIGHTS =
    Weights.mk (dec 20 2) (dec 25 2) (dec 15 2) (dec 20 2) (dec 10 2) (dec 10 2).
Proof.
  intros Hsum. split; [|vm_compute; reflexivity].
  unfold calculateVisibilityScore_default, calculateVisibilityScore.
  rewrite normalizeWeights_default.
  unfold normalizeWeights. rewrite Hsum. reflexivity.
Qed.

Lemma zero_sum_weights_as_default_witness :
  calculateVisibilityScore sample_breakdown cancelling_weights =
  calculateVisibilityScore_default sample_breakdown.
Proof.
  apply (@zero_sum_weights_as_default sample_breakdown cancelling_weights).
  vm_compute. reflexivity.
Defined.

(** ** The heuristic baseline *)

(** C9.  The heuristic score is one of 0.9, 0.7, 0.4 and 0.1, and which one
    is decided by whether the lower-cased answer contains the lower-cased
    company name and whether it contains some lower-cased service name. *)
Theorem heuristic_score_by_presence
    (toLowerCase : jsstring -> jsstring) (company : CompanyProfile.t)
    (answer : jsstring) :
  let named :=
    includes (toLowerCase answer) (toLowerCase (CompanyProfile.name company)) in
  let offered :=
    existsb (fun service => includes (toLowerCase answer) (toLowerCase service))
      (CompanyProfile.services company) in
  let score := Agents.heuristicScore toLowerCase company answer in
  (score = dec 9 1 \/ score = dec 7 1 \/ score = dec 4 1 \/ score = dec 1 1)
  /\ (score = dec 9 1 <-> named = true /\ offered = true)
  /\ (score = dec 7 1 <-> named = true /\ offered = false)
  /\ (score = dec 4 1 <-> named = false /\ offered = true)
  /\ (score = dec 1 1 <-> named = false /\ offered = false).
Proof.
  intros named offered score.
  unfold score, Agents.heuristicScore, Agents.companyMentioned,
    Agents.serviceMatched.
  fold named offered.
  assert (D97 : dec 9 1 <> dec 7 1) by (vm_compute; discriminate).
  assert (D94 : dec 9 1 <> dec 4 1) by (vm_compute; discriminate).
  assert (D91 : dec 9 1 <> dec 1 1) by (vm_compute; discriminate).
  assert (D74 : dec 7 1 <> dec 4 1) by (vm_compute; discriminate).
  assert (D71 : dec 7 1 <> dec 1 1) by (vm_compute; discriminate).
  assert (D41 : dec 4 1 <> dec 1 1) by (vm_compute; discriminate).
  destruct named, offered; cbn [andb];
    (split; [tauto|]); repeat split;
    try tauto; try congruence;
    try (intros [? ?]; discriminate).
Qed.

Lemma heuristic_acme_cloud :
  Agents.heuristicScore asciiLower
    (CompanyProfile.mk (lit "Acme Cloud") None [] [lit "backup"] None)
    (lit "You could consider Acme Cloud or Rival Inc for backup.")
  = dec 9 1.
Proof. vm_compute. reflexivity. Qed.

(** ** The dashboard aggregator *)

Lemma insightOf_comment (entry : jsstring * list number) :
  let insight := Agents.insightOf entry in
  let avg := DashboardInsight.avgScore insight in
  let comments := DashboardInsight.comments insight in
  (comments = [Agents.wellRepresented]
   \/ comments = [Agents.moderateVisibility]
   \/ comments = [Agents.almostInvisible])
  /\ (ge avg (dec 75 2) = true -> comments = [Agents.wellRepresented])
  /\ (ge avg (dec 4 1) = true -> lt avg (dec 75 2) = true ->
      comments = [Agents.moderateVisibility])
  /\ (lt avg (dec 4 1) = true -> comments = [Agents.almostInvisible]).
Proof.
  destruct entry as [service arr]. simpl.
  set (avg := Agents.average arr).
  destruct (ge avg (dec 75 2)) eqn:Hhigh.
  - repeat split; auto.
    + intros _ Hlt. apply num_lt_not_ge in Hlt. congruence.
    + intros Hlt. unfold ge in Hhigh.
      pose proof (num_le_lt_trans _ _ _ Hhigh Hlt) as Habs.
      vm_compute in Habs. discriminate.
  - destruct (ge avg (dec 4 1)) eqn:Hmid.
    + repeat split; auto; try discriminate.
      intros Hlt. apply num_lt_not_ge in Hlt. congruence.
    + repeat split; auto; discriminate.
Qed.

Section DashboardFacts.

Variable callLlm : LlmProvider -> jsstring -> option jsstring.
Variable toFixed2 : number -> jsstring.

(** C8.  Every insight of the dashboard carries exactly one comment, the
    one of the band its average falls in: at least 0.75, from 0.4 up to but
    not including 0.75, below 0.4.  Two scores 0.9 and 0.5 for one service
    give the average 0.7 and the moderate-visibility comment. *)
Theorem insight_banding
    (company : CompanyProfile.t) (questions : list GeneratedQuestion.t)
    (providerResults : list ProviderVisibilityResult.t)
    (result : DashboardResult.t) (insight : DashboardInsight.t) :
  Agents.dashboardAgent callLlm toFixed2 company questions providerResults
    = Some result ->
  In insight (DashboardResult.insights result) ->
  let avg := DashboardInsight.avgScore insight in
  let comments := DashboardInsight.comments insight in
  ((comments = [Agents.wellRepresented]
    \/ comments = [Agents.moderateVisibility]
    \/ comments = [Agents.almostInvisible])
   /\ (ge avg (dec 75 2) = true -> comments = [Agents.wellRepresented])
   /\ (ge avg (dec 4 1) = true -> lt avg (dec 75 2) = true ->
       comments = [Agents.moderateVisibility])
   /\ (lt avg (dec 4 1) = true -> comments = [Agents.almostInvisible]))
  /\ (forall p1 p2 r1 r2,
        option_map DashboardResult.insights
          (Agents.dashboardAgent callLlm toFixed2 company questions
             [ProviderVisibilityResult.mk p1 []
                [VisibilityScore.mk p1 (lit "backup") (dec 9 1) r1];
              ProviderVisibilityResult.mk p2 []
                [VisibilityScore.mk p2 (lit "backup") (dec 5 1) r2]])
        = Some [DashboardInsight.mk (lit "backup") (dec 7 1)
                  [Agents.moderateVisibility]]).
Proof.
  intros Hrun Hin. split.
  - unfold Agents.dashboardAgent in Hrun.
    destruct (Agents.groupScores [] providerResults) as [m|]; [|discriminate].
    injection Hrun as <-. simpl in Hin.
    apply in_map_iff in Hin. destruct Hin as [entry [<- _]].
    apply insightOf_comment.
  - intros p1 p2 r1 r2. vm_compute. reflexivity.
Qed.

End DashboardFacts.

Lemma insight_banding_witness :
  DashboardInsight.comments sampleInsight = [Agents.moderateVisibility].
Proof.
  assert (Hrun : Agents.dashboardAgent failingLlm noDigits sampleCompany []
                   sampleProviderResults = Some sampleDashboard)
    by (vm_compute; reflexivity).
  assert (Hin : In sampleInsight (DashboardResult.insights sampleDashboard))
    by (left; reflexivity).
  destruct (@insight_banding failingLlm noDigits sampleCompany []
              sampleProviderResults sampleDashboard sampleInsight Hrun Hin)
    as [[_ [_ [Hmid _]]] _].
  apply Hmid; vm_compute; reflexivity.
Defined.

(** ** The question validator *)

Section ValidatorFacts.

Import QuestionParser QuestionValidator.

Variable toLowerCase : jsstring -> jsstring.
Variable config : ValidationConfig.

Lemma app_nil_inv {A} (a b : list A) : a ++ b = [] -> a = [] /\ b = [].
Proof. destruct a; simpl; [auto|discriminate]. Qed.

Lemma no_errors_index (q : JsValue) (i j : nat) :
  validateSingleQuestion toLowerCase q i config = [] ->
  validateSingleQuestion toLowerCase q j config = [].
Proof.
  unfold validateSingleQuestion.
  destruct q; try discriminate.
  intros H.
  apply app_nil_inv in H. destruct H as [Ht H].
  apply app_nil_inv in H. destruct H as [Hi Hl].
  destruct (get (JObj props) (lit "text")); try discriminate.
  destruct (get (JObj props) (lit "intent")); try discriminate.
  destruct (get (JObj props) (lit "language")); try discriminate.
  apply app_nil_inv in Ht. destruct Ht as [Ht1 Ht].
  apply app_nil_inv in Ht. destruct Ht as [Ht2 Ht3].
  repeat match goal with
         | H : (if ?c then _ else _) = [] |- _ =>
             destruct c; [discriminate|clear H]
         end.
  reflexivity.
Qed.

Lemma no_errors_normalized (q : JsValue) (i : nat) :
  validateSingleQuestion toLowerCase q i config = [] ->
  exists r, normalizedQuestion toLowerCase q = Some r /\ normalFormOf toLowerCase q r.
Proof.
  unfold validateSingleQuestion, normalizedQuestion, normalFormOf.
  destruct q; try discriminate.
  intros H.
  apply app_nil_inv in H. destruct H as [Ht H].
  apply app_nil_inv in H. destruct H as [Hi Hl].
  destruct (get (JObj props) (lit "text")) as [| | | |t| |]; try discriminate.
  destruct (get (JObj props) (lit "intent")) as [| | | |it| |]; try discriminate.
  destruct (get (JObj props) (lit "language")) as [| | | |l| |]; try discriminate.
  eexists. split; [reflexivity|].
  exists t, it, l. repeat split; reflexivity.
Qed.

Lemma validateFrom_spec (items : list JsValue) :
  forall (i : nat) (validQuestions : list RawQuestion)
         (errors : list ValidationError),
  exists accepted,
    validateFrom toLowerCase i items config validQuestions errors
      = Some (validQuestions ++ accepted, errors ++ collectedErrors toLowerCase config i items)
    /\ Forall2 (normalFormOf toLowerCase) (filter (passes toLowerCase config) items) accepted.
Proof.
  induction items as [|item rest IH]; intros i vq errs.
  - exists []. simpl. rewrite !app_nil_r. split; [reflexivity|constructor].
  - simpl.
    destruct (validateSingleQuestion toLowerCase item i config)
      as [|e es] eqn:Herr.
    + destruct (no_errors_normalized _ _ Herr) as [r [Hr Hform]].
      rewrite Hr.
      destruct (IH (S i) (vq ++ [r]) errs) as [acc [Hrun Hacc]].
      exists (r :: acc). split.
      * rewrite Hrun. rewrite <- app_assoc. reflexivity.
      * unfold passes at 1. rewrite (no_errors_index _ i 0 Herr).
        constructor; assumption.
    + destruct (IH (S i) vq (errs ++ e :: es)) as [acc [Hrun Hacc]].
      exists acc. split.
      * rewrite Hrun. rewrite <- app_assoc. reflexivity.
      * unfold passes at 1.
        destruct (validateSingleQuestion toLowerCase item 0 config) eqn:H0;
          [|exact Hacc].
        rewrite (no_errors_index _ 0 i H0) in Herr. discriminate.
Qed.

Lemma collectedErrors_nil (items : list JsValue) :
  forall i,
    collectedErrors toLowerCase config i items = [] <->
    Forall (fun item => passes toLowerCase config item = true) items.
Proof.
  induction items as [|item rest IH]; intros i; simpl.
  - split; [constructor|reflexivity].
  - split.
    + intros H. apply app_nil_inv in H. destruct H as [H1 H2].
      constructor.
      * unfold passes. rewrite (no_errors_index _ i 0 H1). reflexivity.
      * apply (IH (S i)). exact H2.
    + intros H. inversion H as [|? ? Hp Hrest]; subst.
      unfold passes in Hp.
      destruct (validateSingleQuestion toLowerCase item 0 config) eqn:H0;
        [|discriminate].
      rewrite (no_errors_index _ 0 i H0). simpl.
      apply (IH (S i)). exact Hrest.
Qed.

(** C5.  On an array of candidates the validator returns a result; [valid]
    holds exactly when no error was collected, that is when every candidate
    passes; the errors are those of the candidates, in order; and the
    accepted questions are the normal forms of the passing candidates, in
    order, whether or not the batch is valid. *)
Theorem validateQuestions_batch (items : list JsValue) :
  exists result,
    validateQuestions toLowerCase (JArr items) config = Some result
    /\ errors result = collectedErrors toLowerCase config 0 items
    /\ (valid result = true <-> errors result = [])
    /\ (valid result = true <->
        Forall (fun item => passes toLowerCase config item = true) items)
    /\ Forall2 (normalFormOf toLowerCase) (filter (passes toLowerCase config) items) (questions result).
Proof.
  destruct (validateFrom_spec items 0 [] []) as [acc [Hrun Hacc]].
  unfold validateQuestions. rewrite Hrun. simpl.
  eexists. split; [reflexivity|]. simpl.
  assert (Hvalid : Nat.eqb (List.length (collectedErrors toLowerCase config 0 items)) 0 = true
                   <-> collectedErrors toLowerCase config 0 items = []).
  { destruct (collectedErrors toLowerCase config 0 items); simpl; split; congruence. }
  repeat split; try apply Hvalid; try assumption.
  - intros H. apply (collectedErrors_nil items 0), Hvalid, H.
  - intros H. apply Hvalid, (collectedErrors_nil items 0), H.
Qed.

End ValidatorFacts.

(** A text of five characters is rejected, one of exactly ten is
    accepted in its normal form, and the batch that holds both is not
    valid. *)
Lemma validator_length_boundary :
  option_map
    (fun r => (QuestionValidator.valid r, QuestionValidator.questions r,
               List.length (QuestionValidator.errors r)))
    (QuestionValidator.validateQuestions asciiLower
       (JArr [questionValue
                (mkRawQuestion (lit "short") (lit "pricing") (lit "en"));
              questionValue
                (mkRawQuestion (lit "  0123456789 ") (lit "pricing")
                   (lit " EN "))])
       QuestionValidator.defaultConfig)
  = Some (false,
          [mkRawQuestion (lit "0123456789") (lit "pricing") (lit "en")],
          1).
Proof. vm_compute. reflexivity. Qed.

(** ** Mock responses *)

Lemma looksLikeMock_nonempty (response : jsstring) :
  looksLikeMock response -> response <> [].
Proof. intros [H _] ->. vm_compute in H. discriminate. Qed.

Lemma question_parser_rejects_mock (response : jsstring) :
  looksLikeMock response ->
  QuestionParser.parseQuestionResponse response
  = (QuestionParser.mkParseResult false [] (Some mockMessage), []).
Proof.
  intros Hmock. pose proof (looksLikeMock_nonempty Hmock) as Hne.
  destruct Hmock as [H1 H2].
  destruct response as [|c r]; [congruence|].
  unfold QuestionParser.parseQuestionResponse. cbv zeta.
  rewrite H1, H2. reflexivity.
Qed.

Lemma scoring_parser_rejects_mock
    (ToNumber : JsValue -> number) (syntaxErrorMessage : jsstring -> jsstring)
    (response : jsstring) :
  looksLikeMock response ->
  ScoringParser.parseScoringResponse ToNumber syntaxErrorMessage response
  = (ScoringParser.mkResult false None (Some mockMessage), []).
Proof.
  intros Hmock. pose proof (looksLikeMock_nonempty Hmock) as Hne.
  destruct Hmock as [H1 H2].
  destruct response as [|c r]; [congruence|].
  unfold ScoringParser.parseScoringResponse. cbv zeta.
  rewrite H1, H2. reflexivity.
Qed.

(** C6.  A text whose trimmed form starts with an opening bracket and
    contains the marker, such as "[MOCK] some text", makes both parsers
    fail with the message about the missing API key, and [JSON.parse] is
    not called: the list of parse attempts is empty. *)
Theorem mock_sentinel_never_parsed
    (ToNumber : JsValue -> number) (syntaxErrorMessage : jsstring -> jsstring)
    (response : jsstring) :
  looksLikeMock response ->
  (QuestionParser.parseQuestionResponse response
   = (QuestionParser.mkParseResult false [] (Some mockMessage), [])
   /\ ScoringParser.parseScoringResponse ToNumber syntaxErrorMessage response
      = (ScoringParser.mkResult false None (Some mockMessage), []))
  /\ (QuestionParser.parseQuestionResponse (lit "[MOCK] some text")
      = (QuestionParser.mkParseResult false [] (Some mockMessage), [])
      /\ ScoringParser.parseScoringResponse ToNumber syntaxErrorMessage
           (lit "[MOCK] some text")
         = (ScoringParser.mkResult false None (Some mockMessage), [])).
Proof.
  intros Hmock.
  assert (Hlit : looksLikeMock (lit "[MOCK] some text"))
    by (split; vm_compute; reflexivity).
  split; split.
  - apply question_parser_rejects_mock, Hmock.
  - apply scoring_parser_rejects_mock, Hmock.
  - apply question_parser_rejects_mock, Hlit.
  - apply scoring_parser_rejects_mock, Hlit.
Qed.

Lemma mock_sentinel_never_parsed_witness :
  QuestionParser.parseQuestionResponse (lit "[MOCK] some text")
  = (QuestionParser.mkParseResult false [] (Some mockMessage), [])
  /\ ScoringParser.parseScoringResponse noCoercion noMessage
       (lit "[MOCK] some text")
     = (ScoringParser.mkResult false None (Some mockMessage), []).
Proof.
  apply (@mock_sentinel_never_parsed noCoercion noMessage
           (lit "[MOCK] some text")).
  split; vm_compute; reflexivity.
Defined.

(** C10.  A text whose trimmed form starts with an opening bracket and
    contains the marker anywhere is a failure for both parsers, also when
    it is the JSON text of an array of valid questions: the array text
    above parses, its question passes validation, and it is rejected as a
    mock response without being parsed. *)
Theorem mock_marker_shadows_valid_json
    (ToNumber : JsValue -> number) (syntaxErrorMessage : jsstring -> jsstring)
    (response : jsstring) :
  looksLikeMock response ->
  (QuestionParser.success
     (fst (QuestionParser.parseQuestionResponse response)) = false
   /\ ScoringParser.success
        (fst (ScoringParser.parseScoringResponse ToNumber syntaxErrorMessage
                response)) = false)
  /\ (JSON_parse markedArrayText = Some (JArr [questionValue markedQuestion])
      /\ option_map QuestionValidator.valid
           (QuestionValidator.validateQuestions asciiLower
              (JArr [questionValue markedQuestion])
              QuestionValidator.defaultConfig) = Some true
      /\ QuestionParser.parseQuestionResponse markedArrayText
         = (QuestionParser.mkParseResult false [] (Some mockMessage), [])
      /\ ScoringParser.parseScoringResponse ToNumber syntaxErrorMessage
           markedArrayText
         = (ScoringParser.mkResult false None (Some mockMessage), [])).
Proof.
  intros Hmock.
  assert (Harr : looksLikeMock markedArrayText)
    by (split; vm_compute; reflexivity).
  split; [split|split; [|split; [|split]]].
  - rewrite (question_parser_rejects_mock Hmock). reflexivity.
  - rewrite (scoring_parser_rejects_mock ToNumber syntaxErrorMessage Hmock).
    reflexivity.
  - vm_compute. reflexivity.
  - vm_compute. reflexivity.
  - apply question_parser_rejects_mock, Harr.
  - apply scoring_parser_rejects_mock, Harr.
Qed.

Lemma mock_marker_shadows_valid_json_witness :
  QuestionParser.success
    (fst (QuestionParser.parseQuestionResponse markedArrayText)) = false
  /\ ScoringParser.success
       (fst (ScoringParser.parseScoringResponse noCoercion noMessage
               markedArrayText)) = false.
Proof.
  apply (@mock_marker_shadows_valid_json noCoercion noMessage markedArrayText).
  split; vm_compute; reflexivity.
Defined.

(** ** Recommendations *)

Section RecommendationFacts.

Variable toFixed2 : number -> jsstring.
Variable company : CompanyProfile.t.

(** When the provider call fails, the description follows the average. *)
Lemma failed_enrichment_follows_score (insight : DashboardInsight.t) :
  descriptionOf
    (Agents.buildRecommendation (fun _ _ => None) toFixed2 company insight)
  = Some (if ge (DashboardInsight.avgScore insight) (dec 75 2)
          then Agents.reinforce else Agents.enhance).
Proof. reflexivity. Qed.

(** When the provider call returns a text without bullets, the description
    is the "enhance" text whatever the average is. *)
Lemma empty_enrichment_always_enhance
    (insight : DashboardInsight.t) (recText : jsstring) :
  Agents.bulletsOf recText = [] ->
  descriptionOf
    (Agents.buildRecommendation (fun _ _ => Some recText) toFixed2 company
       insight)
  = Some Agents.enhance.
Proof.
  intros H. unfold Agents.buildRecommendation. rewrite H. reflexivity.
Qed.

(** C2, at an insight of average 0.9 whose enrichment returns the empty
    text: the description is the "enhance" text, although the average is at
    least 0.75 and a failed call would give the "reinforce" text. *)
Theorem empty_enrichment_high_score :
  let insight := Agents.insightOf (lit "backup", [dec 9 1]) in
  ge (DashboardInsight.avgScore insight) (dec 75 2) = true
  /\ Agents.bulletsOf [] = []
  /\ descriptionOf
       (Agents.buildRecommendation (fun _ _ => Some []) toFixed2 company
          insight)
     = Some Agents.enhance
  /\ descriptionOf
       (Agents.buildRecommendation (fun _ _ => None) toFixed2 company insight)
     = Some Agents.reinforce
  /\ Agents.enhance <> Agents.reinforce.
Proof.
  cbv zeta. split; [|split; [|split; [|split]]];
    try (vm_compute; reflexivity).
  vm_compute. discriminate.
Qed.

End RecommendationFacts.

(** ** The fuel of the JSON parser *)

Lemma dropWhile_length (p : N -> bool) (s : jsstring) :
  List.length (dropWhile p s) <= List.length s.
Proof.
  induction s as [|c s IH]; cbn [dropWhile List.length]; [lia|].
  destruct (p c); cbn [List.length]; lia.
Qed.

Lemma skipWs_cons_length (s r : jsstring) (c : N) :
  skipWs s = c :: r -> List.length r < List.length s.
Proof.
  intros H. pose proof (dropWhile_length isJsonWhiteSpace s) as L.
  unfold skipWs in H. rewrite H in L. cbn [List.length] in L. lia.
Qed.

Lemma stripPrefix_length (p s r : jsstring) :
  stripPrefix p s = Some r ->
  List.length r + List.length p = List.length s.
Proof.
  revert s. induction p as [|a p IH]; intros s H.
  - cbn in H. injection H as <-. cbn. lia.
  - destruct s as [|b s]; cbn [stripPrefix] in H; [discriminate|].
    destruct (a =? b)%N; [|discriminate].
    apply IH in H. cbn [List.length]. lia.
Qed.

Lemma parseChars_length_upto (n : nat) :
  forall s str r,
    List.length s <= n ->
    parseChars s = Some (str, r) -> List.length r < List.length s.
Proof.
  induction n as [|n IH]; intros s str r Hn H.
  - destruct s; [discriminate|cbn in Hn; lia].
  - destruct s as [|c s1]; [discriminate|].
    cbn [parseChars] in H. cbn [List.length] in *.
    destruct (c =? 34)%N.
    { injection H as _ <-. lia. }
    destruct (c =? 92)%N.
    + destruct s1 as [|e s2]; [discriminate|].
      destruct (e =? 117)%N.
      * destruct s2 as [|h1 [|h2 [|h3 [|h4 s3]]]]; try discriminate.
        destruct (hexValue h1), (hexValue h2), (hexValue h3), (hexValue h4);
          try discriminate.
        destruct (parseChars s3) as [[str' r']|] eqn:E; [|discriminate].
        injection H as _ <-.
        apply IH in E; cbn [List.length] in *; lia.
      * destruct (unescape e); [|discriminate].
        destruct (parseChars s2) as [[str' r']|] eqn:E; [|discriminate].
        injection H as _ <-.
        apply IH in E; cbn [List.length] in *; lia.
    + destruct (c <? 32)%N; [discriminate|].
      destruct (parseChars s1) as [[str' r']|] eqn:E; [|discriminate].
      injection H as _ <-.
      apply IH in E; lia.
Qed.

Lemma parseChars_length (s str r : jsstring) :
  parseChars s = Some (str, r) -> List.length r < List.length s.
Proof. apply (@parseChars_length_upto (List.length s)). lia. Qed.

Lemma takeDigits_length (s d r : jsstring) :
  takeDigits s = (d, r) -> List.length r <= List.length s.
Proof.
  revert d r. induction s as [|c s IH]; intros d r H.
  - cbn in H. injection H as _ <-. lia.
  - cbn [takeDigits] in H. destruct (isDigit c).
    + destruct (takeDigits s) as [d' r'] eqn:E. injection H as _ <-.
      specialize (IH _ _ eq_refl). cbn [List.length]. lia.
    + injection H as _ <-. lia.
Qed.

Lemma parseFraction_length (s d r : jsstring) :
  parseFraction s = Some (d, r) -> List.length r <= List.length s.
Proof.
  unfold parseFraction. destruct s as [|c s1].
  - intros H. injection H as _ <-. lia.
  - destruct (c =? 46)%N.
    + destruct (takeDigits s1) as [d' r'] eqn:E.
      apply takeDigits_length in E.
      destruct d'; intros H; [discriminate|].
      injection H as _ <-. cbn [List.length]. lia.
    + intros H. injection H as _ <-. lia.
Qed.

Lemma exponentSign_length (s1 s2 : jsstring) (neg : bool) :
  match s1 with
  | g :: s2' =>
      if (g =? 45)%N then (true, s2')
      else if (g =? 43)%N then (false, s2')
      else (false, s1)
  | [] => (false, s1)
  end = (neg, s2) -> List.length s2 <= List.length s1.
Proof.
  intros H. destruct s1 as [|g s2'].
  - injection H as _ <-. lia.
  - destruct (g =? 45)%N; [injection H as _ <-; cbn; lia|].
    destruct (g =? 43)%N; injection H as _ <-; cbn; lia.
Qed.

Lemma parseExponent_length (s r : jsstring) (e : Z) :
  parseExponent s = Some (e, r) -> List.length r <= List.length s.
Proof.
  unfold parseExponent. destruct s as [|c s1].
  - intros H. injection H as _ <-. lia.
  - destruct ((c =? 101)%N || (c =? 69)%N).
    + destruct (match s1 with
                | g :: s2' =>
                    if (g =? 45)%N then (true, s2')
                    else if (g =? 43)%N then (false, s2')
                    else (false, s1)
                | [] => (false, s1)
                end) as [neg s2] eqn:E.
      apply exponentSign_length in E.
      destruct (takeDigits s2) as [d r'] eqn:Ed.
      apply takeDigits_length in Ed.
      destruct d; intros H; [discriminate|].
      injection H as _ <-. cbn [List.length]. lia.
    + intros H. injection H as _ <-. lia.
Qed.

Lemma parseNumber_length (s r : jsstring) (x : number) :
  parseNumber s = Some (x, r) -> List.length r < List.length s.
Proof.
  unfold parseNumber.
  set (signed := match s with
                 | c :: s' => if (c =? 45)%N then (true, s') else (false, s)
                 | [] => (false, s)
                 end).
  assert (Hs0 : List.length (snd signed) <= List.length s).
  { subst signed. destruct s as [|c s']; [cbn; lia|].
    destruct (c =? 45)%N; cbn; lia. }
  destruct signed as [sign s0]. cbn [snd] in Hs0.
  destruct s0 as [|c s1]; [discriminate|].
  set (intPart := if (c =? 48)%N then Some ([c], s1)
                  else if isDigit c then Some (takeDigits (c :: s1))
                  else None).
  assert (Hint : forall ds s2, intPart = Some (ds, s2) ->
                               List.length s2 <= List.length s1).
  { subst intPart. intros ds s2 H. destruct (c =? 48)%N.
    - injection H as _ <-. lia.
    - destruct (isDigit c) eqn:Hc; [|discriminate].
      injection H as H. cbn [takeDigits] in H. rewrite Hc in H.
      destruct (takeDigits s1) as [d' r'] eqn:E. injection H as _ <-.
      apply takeDigits_length in E. exact E. }
  destruct intPart as [[ds s2]|]; [|discriminate].
  specialize (Hint _ _ eq_refl).
  destruct (parseFraction s2) as [[fs s3]|] eqn:Ef; [|discriminate].
  apply parseFraction_length in Ef.
  destruct (parseExponent s3) as [[e s4]|] eqn:Ee; [|discriminate].
  apply parseExponent_length in Ee.
  intros H. injection H as _ <-. cbn [List.length] in *. lia.
Qed.

Lemma parse_length (f : nat) :
  (forall s v r, parseValue f s = Some (v, r) ->
                 List.length r < List.length s)
  /\ (forall s acc v r, parseElements f s acc = Some (v, r) ->
                        List.length r < List.length s)
  /\ (forall s acc v r, parseMembers f s acc = Some (v, r) ->
                        List.length r < List.length s).
Proof.
  induction f as [|f [IHv [IHe IHm]]]; [repeat split; discriminate|].
  split; [|split].
  - intros s v r H. cbn [parseValue] in H.
    destruct (skipWs s) as [|c r0] eqn:Es; [discriminate|].
    apply skipWs_cons_length in Es.
    destruct (c =? 34)%N.
    { destruct (parseChars r0) as [[str r']|] eqn:E; [|discriminate].
      injection H as _ <-. apply parseChars_length in E. lia. }
    destruct (c =? 91)%N.
    { destruct (skipWs r0) as [|d r'] eqn:Er; [discriminate|].
      pose proof (dropWhile_length isJsonWhiteSpace r0) as L.
      unfold skipWs in Er. rewrite Er in L. cbn [List.length] in L.
      destruct (d =? 93)%N.
      - injection H as _ <-. lia.
      - apply IHe in H. cbn [List.length] in H. lia. }
    destruct (c =? 123)%N.
    { destruct (skipWs r0) as [|d r'] eqn:Er; [discriminate|].
      pose proof (dropWhile_length isJsonWhiteSpace r0) as L.
      unfold skipWs in Er. rewrite Er in L. cbn [List.length] in L.
      destruct (d =? 125)%N.
      - injection H as _ <-. lia.
      - apply IHm in H. cbn [List.length] in H. lia. }
    destruct ((c =? 45)%N || isDigit c).
    { destruct (parseNumber (c :: r0)) as [[x r']|] eqn:E; [|discriminate].
      injection H as _ <-. apply parseNumber_length in E.
      cbn [List.length] in E. lia. }
    destruct (stripPrefix (lit "null") (c :: r0)) as [r'|] eqn:E1.
    { injection H as _ <-. apply stripPrefix_length in E1.
      cbn [List.length lit map list_ascii_of_string] in E1. lia. }
    destruct (stripPrefix (lit "true") (c :: r0)) as [r'|] eqn:E2.
    { injection H as _ <-. apply stripPrefix_length in E2.
      cbn [List.length lit map list_ascii_of_string] in E2. lia. }
    destruct (stripPrefix (lit "false") (c :: r0)) as [r'|] eqn:E3;
      [|discriminate].
    injection H as _ <-. apply stripPrefix_length in E3.
    cbn [List.length lit map list_ascii_of_string] in E3. lia.
  - intros s acc v r H. cbn [parseElements] in H.
    destruct (parseValue f s) as [[v0 r0]|] eqn:Ev; [|discriminate].
    apply IHv in Ev.
    destruct (skipWs r0) as [|c r1] eqn:Er; [discriminate|].
    apply skipWs_cons_length in Er.
    destruct (c =? 44)%N.
    + apply IHe in H. lia.
    + destruct (c =? 93)%N; [|discriminate]. injection H as _ <-. lia.
  - intros s acc v r H. cbn [parseMembers] in H.
    destruct (skipWs s) as [|c r0] eqn:Es; [discriminate|].
    apply skipWs_cons_length in Es.
    destruct (c =? 34)%N; [|discriminate].
    destruct (parseChars r0) as [[k r1]|] eqn:Ek; [|discriminate].
    apply parseChars_length in Ek.
    destruct (skipWs r1) as [|c1 r2] eqn:E1; [discriminate|].
    apply skipWs_cons_length in E1.
    destruct (c1 =? 58)%N; [|discriminate].
    destruct (parseValue f r2) as [[v0 r3]|] eqn:Ev; [|discriminate].
    apply IHv in Ev.
    destruct (skipWs r3) as [|c3 r4] eqn:E3; [discriminate|].
    apply skipWs_cons_length in E3.
    destruct (c3 =? 44)%N.
    + apply IHm in H. lia.
    + destruct (c3 =? 125)%N; [|discriminate]. injection H as _ <-. lia.
Qed.

(** One more unit of fuel changes nothing once the fuel exceeds twice the
    length of the input. *)
Lemma parse_fuel_step (f : nat) :
  (forall s, 2 * List.length s + 1 <= f ->
             parseValue (S f) s = parseValue f s)
  /\ (forall s acc, 2 * List.length s + 2 <= f ->
                    parseElements (S f) s acc = parseElements f s acc)
  /\ (forall s acc, 2 * List.length s + 2 <= f ->
                    parseMembers (S f) s acc = parseMembers f s acc).
Proof.
  induction f as [|f [IHv [IHe IHm]]]; [repeat split; intros; lia|].
  split; [|split].
  - intros s Hf. cbn [parseValue].
    destruct (skipWs s) as [|c r0] eqn:Es; [reflexivity|].
    apply skipWs_cons_length in Es.
    destruct (c =? 34)%N; [reflexivity|].
    destruct (c =? 91)%N.
    { destruct (skipWs r0) as [|d r'] eqn:Er; [reflexivity|].
      pose proof (dropWhile_length isJsonWhiteSpace r0) as L.
      unfold skipWs in Er. rewrite Er in L. cbn [List.length] in L.
      destruct (d =? 93)%N; [reflexivity|].
      apply IHe. cbn [List.length]. lia. }
    destruct (c =? 123)%N; [|reflexivity].
    destruct (skipWs r0) as [|d r'] eqn:Er; [reflexivity|].
    pose proof (dropWhile_length isJsonWhiteSpace r0) as L.
    unfold skipWs in Er. rewrite Er in L. cbn [List.length] in L.
    destruct (d =? 125)%N; [reflexivity|].
    apply IHm. cbn [List.length]. lia.
  - intros s acc Hf. cbn [parseElements].
    rewrite IHv by lia.
    destruct (parseValue f s) as [[v0 r0]|] eqn:Ev; [|reflexivity].
    apply (proj1 (parse_length f)) in Ev.
    destruct (skipWs r0) as [|c r1] eqn:Er; [reflexivity|].
    apply skipWs_cons_length in Er.
    destruct (c =? 44)%N; [|reflexivity].
    apply IHe. lia.
  - intros s acc Hf. cbn [parseMembers].
    destruct (skipWs s) as [|c r0] eqn:Es; [reflexivity|].
    apply skipWs_cons_length in Es.
    destruct (c =? 34)%N; [|reflexivity].
    destruct (parseChars r0) as [[k r1]|] eqn:Ek; [|reflexivity].
    apply parseChars_length in Ek.
    destruct (skipWs r1) as [|c1 r2] eqn:E1; [reflexivity|].
    apply skipWs_cons_length in E1.
    destruct (c1 =? 58)%N; [|reflexivity].
    rewrite IHv by lia.
    destruct (parseValue f r2) as [[v0 r3]|] eqn:Ev; [|reflexivity].
    apply (proj1 (parse_length f)) in Ev.
    destruct (skipWs r3) as [|c3 r4] eqn:E3; [reflexivity|].
    apply skipWs_cons_length in E3.
    destruct (c3 =? 44)%N; [|reflexivity].
    apply IHm. lia.
Qed.

Lemma parseValue_fuel (s : jsstring) (f : nat) :
  2 * List.length s + 1 <= f ->
  parseValue f s = parseValue (2 * List.length s + 1) s.
Proof.
  intros H. induction H as [|f H IH]; [reflexivity|].
  rewrite <- IH. apply (proj1 (parse_fuel_step f)). exact H.
Qed.

(** [JSON_parse] never fails for lack of fuel: any larger fuel gives the
    same result. *)
Lemma JSON_parse_fuel (text : jsstring) (f : nat) :
  2 * List.length text + 2 <= f ->
  JSON_parse text =
  match parseValue f text with
  | Some (v, r) =>
      match skipWs r with
      | [] => Some v
      | _ :: _ => None
      end
  | None => None
  end.
Proof.
  intros H. unfold JSON_parse.
  rewrite (@parseValue_fuel text f) by lia.
  rewrite (@parseValue_fuel text (2 * List.length text + 2)) by lia.
  reflexivity.
Qed.

(** ** JSON strings: quoting and reading back *)

Lemma hexValue_hexDigit (n : N) : (n < 16)%N -> hexValue (hexDigit n) = Some n.
Proof.
  intros H.
  assert (E : In n (map N.of_nat (seq 0 16))).
  { apply in_map_iff. exists (N.to_nat n). split; [apply N2Nat.id|].
    apply in_seq. lia. }
  simpl in E.
  repeat (destruct E as [<-|E]; [reflexivity|]). contradiction.
Qed.

Lemma hex_recompose (c : N) :
  (c < 65536)%N ->
  (4096 * ((c / 4096) mod 16) + 256 * ((c / 256) mod 16)
   + 16 * ((c / 16) mod 16) + c mod 16 = c)%N.
Proof.
  intros H.
  change 4096%N with (16 * 16 * 16)%N at 2.
  change 256%N with (16 * 16)%N at 2.
  rewrite <- !N.Div0.div_div.
  set (q1 := (c / 16)%N). set (q2 := (q1 / 16)%N). set (q3 := (q2 / 16)%N).
  pose proof (N.div_mod c 16 ltac:(discriminate)) as E0.
  pose proof (N.div_mod q1 16 ltac:(discriminate)) as E1.
  pose proof (N.div_mod q2 16 ltac:(discriminate)) as E2.
  fold q1 in E0. fold q2 in E1. fold q3 in E2.
  pose proof (N.mod_lt c 16 ltac:(discriminate)) as M0.
  pose proof (N.mod_lt q1 16 ltac:(discriminate)) as M1.
  pose proof (N.mod_lt q2 16 ltac:(discriminate)) as M2.
  generalize dependent (c mod 16)%N. intros r0 E0 M0.
  generalize dependent (q1 mod 16)%N. intros r1 E1 M1.
  generalize dependent (q2 mod 16)%N. intros r2 E2 M2.
  clearbody q1 q2 q3.
  assert (L3 : (q3 < 16)%N).
  { lia. }
  rewrite (N.mod_small q3 16 L3). lia.
Qed.

Lemma parseChars_raw (c : N) (s : jsstring) :
  (c =? 34)%N = false -> (c =? 92)%N = false -> (c <? 32)%N = false ->
  parseChars (c :: s) = consChar c (parseChars s).
Proof.
  intros H1 H2 H3. simpl. rewrite H1, H2, H3. reflexivity.
Qed.

Lemma parseChars_unicodeEscape (c : N) (s : jsstring) :
  (c < 65536)%N ->
  parseChars (unicodeEscape c ++ s) = consChar c (parseChars s).
Proof.
  intros H. unfold unicodeEscape.
  cbn [app parseChars N.eqb Pos.eqb].
  rewrite !hexValue_hexDigit by (apply N.mod_lt; discriminate).
  rewrite (hex_recompose H). reflexivity.
Qed.

Lemma surrogate_bound (c : N) :
  (c <? 32)%N || isHighSurrogate c || isLowSurrogate c = true ->
  (c < 65536)%N.
Proof.
  unfold isHighSurrogate, isLowSurrogate, inRange. intros H.
  apply orb_true_iff in H. destruct H as [H|H];
    [apply orb_true_iff in H; destruct H as [H|H]|].
  - apply N.ltb_lt in H. lia.
  - apply andb_true_iff in H. destruct H as [_ H]. apply N.leb_le in H. lia.
  - apply andb_true_iff in H. destruct H as [_ H]. apply N.leb_le in H. lia.
Qed.

Lemma parseChars_quoteUnit (c : N) (s : jsstring) :
  parseChars (quoteUnit c ++ s) = consChar c (parseChars s).
Proof.
  unfold quoteUnit.
  repeat match goal with
         | |- context [(c =? ?k)%N] =>
             destruct (N.eqb_spec c k) as [->|?]; [reflexivity|]
         end.
  destruct ((c <? 32)%N || isHighSurrogate c || isLowSurrogate c) eqn:E.
  - apply parseChars_unicodeEscape, surrogate_bound, E.
  - apply orb_false_iff in E. destruct E as [E _].
    apply orb_false_iff in E. destruct E as [E _].
    apply parseChars_raw; try assumption; apply N.eqb_neq; assumption.
Qed.

Lemma surrogate_raw (c : N) :
  isHighSurrogate c = true \/ isLowSurrogate c = true ->
  (c =? 34)%N = false /\ (c =? 92)%N = false /\ (c <? 32)%N = false.
Proof.
  unfold isHighSurrogate, isLowSurrogate, inRange.
  intros [H|H]; apply andb_true_iff in H; destruct H as [H _];
    apply N.leb_le in H; repeat split;
    try (apply N.eqb_neq; lia); apply N.ltb_ge; lia.
Qed.

Lemma parseChars_quoteChars_upto (n : nat) :
  forall (t rest : jsstring),
    List.length t <= n ->
    parseChars (quoteChars t ++ 34%N :: rest) = Some (t, rest).
Proof.
  induction n as [|n IH]; intros t rest Hlen.
  - destruct t; [reflexivity|simpl in Hlen; lia].
  - destruct t as [|c t1]; [reflexivity|].
    simpl in Hlen. cbn [quoteChars].
    destruct (isHighSurrogate c) eqn:Hc.
    + destruct t1 as [|d t2].
      * rewrite parseChars_unicodeEscape
          by (apply surrogate_bound; rewrite Hc, orb_true_r; reflexivity).
        reflexivity.
      * destruct (isLowSurrogate d) eqn:Hd.
        -- destruct (@surrogate_raw c (or_introl Hc)) as [A1 [A2 A3]].
           destruct (@surrogate_raw d (or_intror Hd)) as [B1 [B2 B3]].
           cbn [app].
           rewrite (@parseChars_raw c _ A1 A2 A3), (@parseChars_raw d _ B1 B2 B3).
           rewrite IH by (simpl in Hlen; lia). reflexivity.
        -- rewrite <- app_assoc.
           rewrite parseChars_unicodeEscape
             by (apply surrogate_bound; rewrite Hc, orb_true_r; reflexivity).
           rewrite IH by lia. reflexivity.
    + rewrite <- app_assoc. rewrite parseChars_quoteUnit.
      rewrite IH by lia. reflexivity.
Qed.

Lemma parseChars_quoteChars (t rest : jsstring) :
  parseChars (quoteChars t ++ 34%N :: rest) = Some (t, rest).
Proof. apply (@parseChars_quoteChars_upto (List.length t)). lia. Qed.

(** ** The JSON text of question arrays *)

Lemma questionText_segments (q : RawQuestion) (rest : jsstring) :
  questionText q ++ rest =
  beforeText ++ quoteChars (text q) ++ 34%N ::
  beforeIntent ++ quoteChars (intent q) ++ 34%N ::
  beforeLanguage ++ quoteChars (language q) ++ 34%N :: 125%N :: rest.
Proof.
  unfold questionText, QuoteJSONString.
  repeat (rewrite <- ?app_assoc; cbn [app]).
  reflexivity.
Qed.

Lemma parseValue_question (f : nat) (q : RawQuestion) (rest : jsstring) :
  parseValue (5 + f) (questionText q ++ rest) = Some (questionValue q, rest).
Proof.
  rewrite questionText_segments.
  unfold beforeText, beforeIntent, beforeLanguage.
  cbn -[quoteChars setOwn].
  rewrite parseChars_quoteChars.
  cbn -[quoteChars setOwn].
  rewrite parseChars_quoteChars.
  cbn -[quoteChars setOwn].
  rewrite parseChars_quoteChars.
  cbn -[quoteChars]. reflexivity.
Qed.

Lemma parseValue_question_any_fuel (f : nat) (q : RawQuestion) (rest : jsstring) :
  parseValue f (questionText q ++ rest) = None \/
  parseValue f (questionText q ++ rest) = Some (questionValue q, rest).
Proof.
  destruct f as [|[|[|[|[|f]]]]];
    [left|left|left|left|left|right; apply (parseValue_question f)];
    rewrite questionText_segments;
    unfold beforeText, beforeIntent, beforeLanguage;
    repeat (cbn -[quoteChars setOwn]; rewrite ?parseChars_quoteChars);
    reflexivity.
Qed.

Lemma JSON_stringify_body (qs : list RawQuestion) :
  JSON_stringify qs = 91%N :: body qs ++ [93%N].
Proof. reflexivity. Qed.

Lemma body_cons (q : RawQuestion) (qs : list RawQuestion) (rest : jsstring) :
  body (q :: qs) ++ rest =
  questionText q ++
    match qs with
    | [] => rest
    | _ :: _ => 44%N :: body qs ++ rest
    end.
Proof.
  unfold body. cbn [map join].
  destruct (map questionText qs) eqn:E.
  - destruct qs; [reflexivity|discriminate].
  - destruct qs; [discriminate|].
    rewrite <- E. rewrite <- !app_assoc. reflexivity.
Qed.

Lemma parseElements_body (qs : list RawQuestion) :
  forall (f : nat) (acc : list JsValue) (rest : jsstring),
    qs <> [] ->
    parseElements (List.length qs + 5 + f) (body qs ++ 93%N :: rest) acc
    = Some (JArr (rev acc ++ map questionValue qs), rest).
Proof.
  induction qs as [|q qs IH]; intros f acc rest Hne; [congruence|].
  rewrite body_cons.
  cbn [List.length Nat.add parseElements].
  replace (List.length qs + 5 + f) with (5 + (List.length qs + f)) by lia.
  rewrite parseValue_question.
  destruct qs as [|q' qs'].
  - cbn. reflexivity.
  - cbn [skipWs dropWhile isJsonWhiteSpace N.eqb Pos.eqb orb].
    cbn -[body parseElements Nat.add].
    replace (5 + (S (List.length qs') + f))
      with (List.length (q' :: qs') + 5 + f) by (cbn [List.length]; lia).
    rewrite IH by discriminate.
    cbn [rev map]. rewrite <- app_assoc. reflexivity.
Qed.

Lemma body_length (qs : list RawQuestion) :
  List.length qs <= List.length (body qs).
Proof.
  induction qs as [|q qs IH]; [apply Nat.le_0_l|].
  pose proof (body_cons q qs []) as E. rewrite !app_nil_r in E.
  rewrite E. rewrite length_app.
  assert (1 <= List.length (questionText q)).
  { pose proof (questionText_segments q []) as Eq.
    rewrite app_nil_r in Eq. rewrite Eq. cbn. lia. }
  destruct qs; cbn [List.length] in *; lia.
Qed.

Lemma parseValue_array_open (f : nat) (c : N) (s : jsstring) :
  isJsonWhiteSpace c = false -> (c =? 93)%N = false ->
  parseValue (S f) (91%N :: c :: s) = parseElements f (c :: s) [].
Proof.
  intros Hws Hc.
  cbn [parseValue skipWs dropWhile isJsonWhiteSpace N.eqb Pos.eqb orb].
  fold (isJsonWhiteSpace c). rewrite Hws, Hc. reflexivity.
Qed.

(** Parsing the JSON text of a question array gives back the array. *)
Lemma JSON_parse_stringify (qs : list RawQuestion) :
  JSON_parse (JSON_stringify qs) = Some (JArr (map questionValue qs)).
Proof.
  destruct qs as [|q qs]; [reflexivity|].
  unfold JSON_parse.
  pose proof (body_length (q :: qs)) as Hlen.
  rewrite JSON_stringify_body.
  remember (q :: qs) as l eqn:El.
  assert (Hne : l <> []) by (subst; discriminate).
  assert (Hstart : exists b, body l = 123%N :: b).
  { subst l. pose proof (body_cons q qs []) as E. rewrite !app_nil_r in E.
    rewrite E, questionText_segments. eexists. reflexivity. }
  destruct Hstart as [b Hb].
  assert (Hfuel : exists f,
             2 * List.length (91%N :: body l ++ [93%N]) + 2
             = S (List.length l + 5 + f)).
  { exists (2 * List.length (91%N :: body l ++ [93%N]) + 2
            - S (List.length l + 5)).
    cbn [List.length]. rewrite length_app. cbn [List.length]. lia. }
  destruct Hfuel as [f ->].
  assert (Hb' : body l ++ [93%N] = 123%N :: (b ++ [93%N]))
    by (rewrite Hb; reflexivity).
  rewrite Hb'. rewrite parseValue_array_open by reflexivity.
  rewrite <- Hb'. rewrite parseElements_body by assumption.
  reflexivity.
Qed.

(** ** The matcher on fenced blocks *)

Section MatcherFacts.

Variable R : Type.
Variable input : jsstring.

Lemma charMatches_backtick (icase : bool) (d : N) :
  RegExp.charMatches icase 96 d = (96 =? d)%N.
Proof.
  destruct icase; [|reflexivity].
  unfold RegExp.charMatches, RegExp.canonicalize.
  cbn [inRange N.leb N.compare Pos.compare Pos.compare_cont andb].
  destruct (inRange 97 122 d) eqn:E; [|reflexivity].
  unfold inRange in E. apply andb_true_iff in E. destruct E as [E1 E2].
  apply N.leb_le in E1. apply N.leb_le in E2.
  destruct (N.eqb_spec 96 (d - 32)), (N.eqb_spec 96 d); try reflexivity; lia.
Qed.

Lemma run_backticks (icase : bool) (s : jsstring) (cap : option jsstring)
    (k : RegExp.Cont R) :
  RegExp.run input icase (RegExp.literal QuestionParser.backticks) s cap k =
  match stripPrefix QuestionParser.backticks s with
  | Some rest => k rest cap
  | None => None
  end.
Proof.
  change QuestionParser.backticks with [96%N; 96%N; 96%N].
  cbn [RegExp.literal RegExp.run stripPrefix].
  destruct s as [|a s]; [reflexivity|].
  rewrite charMatches_backtick. destruct (96 =? a)%N; [|reflexivity].
  destruct s as [|b s]; [reflexivity|].
  rewrite charMatches_backtick. destruct (96 =? b)%N; [|reflexivity].
  destruct s as [|c s]; [reflexivity|].
  rewrite charMatches_backtick. destruct (96 =? c)%N; reflexivity.
Qed.

Lemma starGreedy_skip (p : N -> bool) (k : RegExp.Cont R) :
  (forall c s cap, p c = true -> k (c :: s) cap = None) ->
  forall s cap,
    RegExp.starGreedy p s cap k = k (dropWhile p s) cap.
Proof.
  intros Hk s cap. induction s as [|c s IH]; [reflexivity|].
  cbn [RegExp.starGreedy dropWhile].
  destruct (p c) eqn:Hc; [|reflexivity].
  rewrite IH. destruct (k (dropWhile p s) cap) eqn:E; [reflexivity|].
  apply Hk, Hc.
Qed.

Lemma stripPrefix_backticks_ws (c : N) (s : jsstring) :
  isWhiteSpace c = true -> stripPrefix QuestionParser.backticks (c :: s) = None.
Proof.
  intros Hc.
  change QuestionParser.backticks with [96%N; 96%N; 96%N].
  cbn [stripPrefix].
  destruct (N.eqb_spec 96 c) as [<-|]; [discriminate|reflexivity].
Qed.

(** White space and then the closing backticks. *)
Lemma run_closing (icase : bool) (s : jsstring) (cap : option jsstring)
    (k : RegExp.Cont R) :
  RegExp.run input icase
    (RegExp.Seq (RegExp.StarGreedy RegExp.whiteSpace)
       (RegExp.literal QuestionParser.backticks)) s cap k =
  match stripPrefix QuestionParser.backticks (dropWhile isWhiteSpace s) with
  | Some rest => k rest cap
  | None => None
  end.
Proof.
  cbn [RegExp.run].
  rewrite starGreedy_skip.
  - apply run_backticks.
  - intros c s' cap' Hc. rewrite run_backticks.
    rewrite stripPrefix_backticks_ws by exact Hc. reflexivity.
Qed.

Lemma anyChar_true (c : N) : RegExp.anyChar c = true.
Proof. unfold RegExp.anyChar. destruct (isWhiteSpace c); reflexivity. Qed.

Lemma consumed_app (pre s : jsstring) : RegExp.consumed (pre ++ s) s = pre.
Proof.
  unfold RegExp.consumed. rewrite length_app.
  replace (List.length pre + List.length s - List.length s)
    with (List.length pre) by lia.
  rewrite firstn_app, Nat.sub_diag, firstn_all. cbn. apply app_nil_r.
Qed.

(** The lazy capture followed by the closing, under a continuation that
    accepts whatever it is given. *)
Lemma run_capture_closing (icase : bool) (k : RegExp.Cont R) :
  (forall s cap, k s cap <> None) ->
  forall (s pre : jsstring) (cap : option jsstring),
    RegExp.starLazy RegExp.anyChar s cap
      (fun s' _ =>
         RegExp.run input icase
           (RegExp.Seq (RegExp.StarGreedy RegExp.whiteSpace)
              (RegExp.literal QuestionParser.backticks))
           s' (Some (RegExp.consumed (pre ++ s) s')) k)
    = match splitAtFence s with
      | Some (c, rest) => k rest (Some (pre ++ c))
      | None => None
      end.
Proof.
  intros Hk s. induction s as [|c s IH]; intros pre cap.
  - cbn [RegExp.starLazy splitAtFence]. rewrite run_closing.
    cbn [dropWhile].
    destruct (stripPrefix QuestionParser.backticks []) eqn:E;
      [discriminate|reflexivity].
  - cbn [RegExp.starLazy splitAtFence]. rewrite run_closing.
    destruct (stripPrefix QuestionParser.backticks
                (dropWhile isWhiteSpace (c :: s))) as [rest|] eqn:E.
    + rewrite consumed_app, app_nil_r.
      match goal with
      | |- match ?a with _ => _ end = ?b => change b with a
      end.
      destruct (k rest (Some pre)) eqn:Ek; [reflexivity|].
      exfalso. exact (Hk _ _ Ek).
    + rewrite anyChar_true.
      replace (pre ++ c :: s) with ((pre ++ [c]) ++ s)
        by (rewrite <- app_assoc; reflexivity).
      rewrite IH.
      destruct (splitAtFence s) as [[cp rest]|]; [|reflexivity].
      rewrite <- app_assoc. reflexivity.
Qed.

Lemma run_group_closing (icase : bool) (k : RegExp.Cont R) :
  (forall s cap, k s cap <> None) ->
  forall (s : jsstring) (cap : option jsstring),
    RegExp.run input icase
      (RegExp.Seq (RegExp.Group (RegExp.StarLazy RegExp.anyChar))
         (RegExp.Seq (RegExp.StarGreedy RegExp.whiteSpace)
            (RegExp.literal QuestionParser.backticks))) s cap k
    = match splitAtFence s with
      | Some (c, rest) => k rest (Some c)
      | None => None
      end.
Proof.
  intros Hk s cap.
  cbn [RegExp.run].
  pose proof (@run_capture_closing icase k Hk s [] cap) as H.
  cbn [app RegExp.run] in H. exact H.
Qed.

End MatcherFacts.

(** ** Trimming *)

Lemma trimStart_head (c : N) (s : jsstring) :
  isWhiteSpace c = false -> trimStart (c :: s) = c :: s.
Proof. intros H. unfold trimStart. cbn [dropWhile]. rewrite H. reflexivity. Qed.

Lemma trimEnd_snoc (s : jsstring) (c : N) :
  isWhiteSpace c = false -> trimEnd (s ++ [c]) = s ++ [c].
Proof.
  intros H. unfold trimEnd. rewrite rev_app_distr. cbn [rev app dropWhile].
  rewrite H. cbn [rev]. rewrite rev_involutive. reflexivity.
Qed.

Lemma dropWhile_snoc (p : N -> bool) (l : jsstring) (c : N) :
  p c = false -> exists y, dropWhile p (l ++ [c]) = y ++ [c].
Proof.
  intros H. induction l as [|a l IH].
  - exists []. cbn. rewrite H. reflexivity.
  - cbn [app dropWhile]. destruct (p a).
    + exact IH.
    + exists (a :: l). reflexivity.
Qed.

Lemma trimEnd_head (c : N) (s : jsstring) :
  isWhiteSpace c = false -> exists x, trimEnd (c :: s) = c :: x.
Proof.
  intros H. unfold trimEnd. cbn [rev].
  destruct (dropWhile_snoc isWhiteSpace (rev s) c H) as [y ->].
  rewrite rev_app_distr. cbn. eauto.
Qed.

Lemma trim_head (c : N) (s : jsstring) :
  isWhiteSpace c = false -> exists x, trim (c :: s) = c :: x.
Proof.
  intros H. unfold trim. rewrite trimStart_head by exact H.
  apply trimEnd_head, H.
Qed.

Lemma trim_clean (c d : N) (s : jsstring) :
  isWhiteSpace c = false -> isWhiteSpace d = false ->
  trim (c :: s ++ [d]) = c :: s ++ [d].
Proof.
  intros Hc Hd. unfold trim. rewrite trimStart_head by exact Hc.
  apply (trimEnd_snoc (c :: s)), Hd.
Qed.

(** ** Texts that are not JSON *)

Lemma parseValue_backtick (f : nat) (s : jsstring) :
  parseValue f (96%N :: s) = None.
Proof. destruct f; reflexivity. Qed.

Lemma parseValue_letter_j (f : nat) (s : jsstring) :
  parseValue f (106%N :: s) = None.
Proof. destruct f; reflexivity. Qed.

Lemma JSON_parse_backtick (s : jsstring) : JSON_parse (96%N :: s) = None.
Proof. unfold JSON_parse. rewrite parseValue_backtick. reflexivity. Qed.

Lemma JSON_parse_letter_j (s : jsstring) : JSON_parse (106%N :: s) = None.
Proof. unfold JSON_parse. rewrite parseValue_letter_j. reflexivity. Qed.

(** ** Where the capture stops *)

Lemma prepend_app (a b : jsstring) (r : option (jsstring * jsstring)) :
  prepend a (prepend b r) = prepend (a ++ b) r.
Proof. destruct r as [[cap rest]|]; cbn; [rewrite app_assoc|]; reflexivity. Qed.

Lemma splitAtFence_cons (c : N) (s : jsstring) :
  stripPrefix QuestionParser.backticks (dropWhile isWhiteSpace (c :: s)) = None ->
  splitAtFence (c :: s) = prepend [c] (splitAtFence s).
Proof.
  intros H. cbn [splitAtFence]. rewrite H. reflexivity.
Qed.

Lemma splitAtFence_plain_cons (c : N) (s : jsstring) :
  plain c = true -> splitAtFence (c :: s) = prepend [c] (splitAtFence s).
Proof.
  intros H. apply splitAtFence_cons.
  unfold plain in H. apply andb_true_iff in H. destruct H as [H1 H2].
  apply negb_true_iff in H1. apply negb_true_iff in H2.
  cbn [dropWhile]. rewrite H1.
  change QuestionParser.backticks with [96%N; 96%N; 96%N].
  cbn [stripPrefix]. rewrite N.eqb_sym, H2. reflexivity.
Qed.

Lemma splitAtFence_plain (a s : jsstring) :
  forallb plain a = true -> splitAtFence (a ++ s) = prepend a (splitAtFence s).
Proof.
  induction a as [|c a IH]; intros H.
  - cbn. destruct (splitAtFence s) as [[? ?]|]; reflexivity.
  - cbn [forallb] in H. apply andb_true_iff in H. destruct H as [Hc Ha].
    cbn [app]. rewrite splitAtFence_plain_cons by exact Hc.
    rewrite IH by exact Ha. apply (prepend_app [c] a).
Qed.

Lemma splitAtFence_empty_capture (s rest : jsstring) :
  splitAtFence s = Some ([], rest) ->
  stripPrefix QuestionParser.backticks (dropWhile isWhiteSpace s) = Some rest.
Proof.
  destruct s as [|c s]; cbn [splitAtFence];
    destruct (stripPrefix QuestionParser.backticks (dropWhile isWhiteSpace _))
      eqn:E; try congruence.
  destruct (splitAtFence s) as [[? ?]|]; discriminate.
Qed.

(** The capture never ends with white space. *)
Lemma splitAtFence_clean (s : jsstring) :
  forall cap rest,
    splitAtFence s = Some (cap, rest) ->
    cap = [] \/ exists x c, cap = x ++ [c] /\ isWhiteSpace c = false.
Proof.
  induction s as [|c s IH]; intros cap rest H.
  - cbn in H. discriminate.
  - cbn [splitAtFence] in H.
    destruct (stripPrefix QuestionParser.backticks
                (dropWhile isWhiteSpace (c :: s))) eqn:E.
    + injection H as <- _. left. reflexivity.
    + destruct (splitAtFence s) as [[cap' rest']|] eqn:Es; [|discriminate].
      injection H as <- <-. right.
      destruct (IH _ _ eq_refl) as [->|[x [d [-> Hd]]]].
      * exists [], c. split; [reflexivity|].
        apply splitAtFence_empty_capture in Es.
        destruct (isWhiteSpace c) eqn:Hc; [|reflexivity].
        cbn [dropWhile] in E. rewrite Hc in E. congruence.
      * exists (c :: x), d. split; [reflexivity|exact Hd].
Qed.

Lemma trim_capture (s cap rest : jsstring) (c : N) :
  splitAtFence s = Some (c :: cap, rest) ->
  isWhiteSpace c = false ->
  trim (c :: cap) = c :: cap.
Proof.
  intros H Hc. unfold trim. rewrite trimStart_head by exact Hc.
  destruct (splitAtFence_clean _ H) as [E|[x [d [E Hd]]]]; [discriminate|].
  rewrite E. apply trimEnd_snoc, Hd.
Qed.

(** ** A fence inside a serialized array *)

Lemma CutOrPass_step (seg content after : jsstring) :
  splitAtFence (seg ++ content ++ after)
    = prepend seg (splitAtFence (content ++ after)) ->
  (forall cap, parseChars cap = None -> parseChars (seg ++ cap) = None) ->
  CutOrPass content after ->
  CutOrPass (seg ++ content) after.
Proof.
  intros Hseg Hparse [Hpass|[cap [rest [Hcut Hnone]]]]; unfold CutOrPass;
    rewrite <- app_assoc, Hseg.
  - left. rewrite Hpass. apply prepend_app.
  - right. rewrite Hcut. exists (seg ++ cap), rest.
    split; [reflexivity|apply Hparse, Hnone].
Qed.

Lemma hexDigit_plain (n : N) : (n < 16)%N -> plain (hexDigit n) = true.
Proof.
  intros H.
  assert (E : In n (map N.of_nat (seq 0 16))).
  { apply in_map_iff. exists (N.to_nat n). split; [apply N2Nat.id|].
    apply in_seq. lia. }
  simpl in E.
  repeat (destruct E as [<-|E]; [reflexivity|]). contradiction.
Qed.

Lemma unicodeEscape_plain (c : N) : forallb plain (unicodeEscape c) = true.
Proof.
  unfold unicodeEscape. cbn [forallb].
  rewrite !hexDigit_plain by (apply N.mod_lt; discriminate). reflexivity.
Qed.

Lemma surrogate_plain (c : N) :
  isHighSurrogate c = true \/ isLowSurrogate c = true -> plain c = true.
Proof.
  unfold isHighSurrogate, isLowSurrogate, inRange, plain, isWhiteSpace, inRange.
  intros [H|H]; apply andb_true_iff in H; destruct H as [H1 H2];
    apply N.leb_le in H1; apply N.leb_le in H2;
    repeat match goal with
           | |- context [(?a <=? ?b)%N] => destruct (N.leb_spec a b); try lia
           | |- context [(?a =? ?b)%N] => destruct (N.eqb_spec a b); try lia
           end; reflexivity.
Qed.

Lemma quoteUnit_plain_or_raw (c : N) :
  forallb plain (quoteUnit c) = true \/ quoteUnit c = [c].
Proof.
  unfold quoteUnit.
  repeat match goal with
         | |- context [(c =? ?k)%N] =>
             destruct (N.eqb_spec c k) as [->|?]; [left; reflexivity|]
         end.
  destruct ((c <? 32)%N || isHighSurrogate c || isLowSurrogate c).
  - left. apply unicodeEscape_plain.
  - right. reflexivity.
Qed.

Lemma parseChars_none_unit (c : N) (cap : jsstring) :
  parseChars cap = None -> parseChars (quoteUnit c ++ cap) = None.
Proof. intros H. rewrite parseChars_quoteUnit, H. reflexivity. Qed.

Lemma parseChars_none_escape (c : N) (cap : jsstring) :
  isHighSurrogate c = true ->
  parseChars cap = None -> parseChars (unicodeEscape c ++ cap) = None.
Proof.
  intros Hc H. rewrite parseChars_unicodeEscape, H; [reflexivity|].
  apply surrogate_bound. rewrite Hc, orb_true_r. reflexivity.
Qed.

Lemma parseChars_none_pair (c d : N) (cap : jsstring) :
  isHighSurrogate c = true -> isLowSurrogate d = true ->
  parseChars cap = None -> parseChars ([c; d] ++ cap) = None.
Proof.
  intros Hc Hd H.
  destruct (@surrogate_raw c (or_introl Hc)) as [A1 [A2 A3]].
  destruct (@surrogate_raw d (or_intror Hd)) as [B1 [B2 B3]].
  cbn [app].
  rewrite (@parseChars_raw c _ A1 A2 A3), (@parseChars_raw d _ B1 B2 B3), H.
  reflexivity.
Qed.

Lemma CutOrPass_nil (after : jsstring) : CutOrPass [] after.
Proof.
  left. cbn. destruct (splitAtFence after) as [[? ?]|]; reflexivity.
Qed.

Lemma CutOrPass_quoteChars_upto (n : nat) :
  forall (t after : jsstring),
    List.length t <= n -> CutOrPass (quoteChars t) after.
Proof.
  induction n as [|n IH]; intros t after Hlen.
  - destruct t; [apply CutOrPass_nil|simpl in Hlen; lia].
  - destruct t as [|c t1]; [apply CutOrPass_nil|].
    simpl in Hlen. cbn [quoteChars].
    destruct (isHighSurrogate c) eqn:Hc.
    + destruct t1 as [|d t2].
      * rewrite <- (app_nil_r (unicodeEscape c)).
        apply CutOrPass_step.
        -- apply splitAtFence_plain, unicodeEscape_plain.
        -- intros cap. apply parseChars_none_escape, Hc.
        -- apply CutOrPass_nil.
      * destruct (isLowSurrogate d) eqn:Hd.
        -- change (c :: d :: quoteChars t2) with ([c; d] ++ quoteChars t2).
           apply CutOrPass_step.
           ++ apply splitAtFence_plain. cbn [forallb].
              rewrite (@surrogate_plain c (or_introl Hc)),
                      (@surrogate_plain d (or_intror Hd)). reflexivity.
           ++ intros cap. apply parseChars_none_pair; assumption.
           ++ apply IH. simpl in Hlen. lia.
        -- apply CutOrPass_step.
           ++ apply splitAtFence_plain, unicodeEscape_plain.
           ++ intros cap. apply parseChars_none_escape, Hc.
           ++ apply IH. lia.
    + destruct (quoteUnit_plain_or_raw c) as [Hplain|Hraw].
      * apply CutOrPass_step.
        -- apply splitAtFence_plain, Hplain.
        -- intros cap. apply parseChars_none_unit.
        -- apply IH. lia.
      * destruct (stripPrefix backticks
                    (dropWhile isWhiteSpace
                       (c :: quoteChars t1 ++ after))) as [rest|] eqn:E.
        -- right. exists [], rest. split; [|reflexivity].
           rewrite Hraw. cbn [app splitAtFence]. rewrite E. reflexivity.
        -- apply CutOrPass_step.
           ++ rewrite Hraw. cbn [app]. apply splitAtFence_cons, E.
           ++ intros cap. apply parseChars_none_unit.
           ++ apply IH. lia.
Qed.

Lemma CutOrPass_quoteChars (t after : jsstring) :
  CutOrPass (quoteChars t) after.
Proof. apply (@CutOrPass_quoteChars_upto (List.length t)). lia. Qed.

Ltac parse_through H :=
  unfold beforeText, beforeIntent, beforeLanguage;
  repeat (cbn -[quoteChars setOwn]; rewrite ?parseChars_quoteChars, ?H);
  reflexivity.

Lemma cut_in_text (cap : jsstring) :
  parseChars cap = None ->
  forall f, parseValue f (beforeText ++ cap) = None.
Proof.
  intros H f. destruct f as [|[|[|f]]]; parse_through H.
Qed.

Lemma cut_in_intent (t cap : jsstring) :
  parseChars cap = None ->
  forall f,
    parseValue f (beforeText ++ quoteChars t ++ 34%N :: beforeIntent ++ cap)
    = None.
Proof.
  intros H f. destruct f as [|[|[|[|f]]]]; parse_through H.
Qed.

Lemma cut_in_language (t i cap : jsstring) :
  parseChars cap = None ->
  forall f,
    parseValue f
      (beforeText ++ quoteChars t ++ 34%N ::
       beforeIntent ++ quoteChars i ++ 34%N :: beforeLanguage ++ cap)
    = None.
Proof.
  intros H f. destruct f as [|[|[|[|[|f]]]]]; parse_through H.
Qed.

Lemma splitAtFence_after_quote (a s : jsstring) :
  forallb plain a = true ->
  splitAtFence (34%N :: a ++ s) = prepend (34%N :: a) (splitAtFence s).
Proof.
  intros H. apply (splitAtFence_plain (34%N :: a) s).
  cbn [forallb]. rewrite H. reflexivity.
Qed.

Lemma split_question (q : RawQuestion) (after : jsstring) :
  QuestionCutOrPass (questionText q) after.
Proof.
  unfold QuestionCutOrPass.
  pose proof (questionText_segments q []) as Eq. rewrite app_nil_r in Eq.
  rewrite questionText_segments.
  set (Y2 := beforeLanguage ++ quoteChars (language q) ++ 34%N :: 125%N :: after).
  set (Y1 := beforeIntent ++ quoteChars (intent q) ++ 34%N :: Y2).
  rewrite (splitAtFence_plain beforeText _ eq_refl).
  destruct (CutOrPass_quoteChars (text q) (34%N :: Y1))
    as [P1|[cap [rest [C1 N1]]]].
  2:{ right. rewrite C1. exists (tl beforeText ++ cap), rest.
      split; [reflexivity|]. apply (@cut_in_text cap N1). }
  rewrite P1. subst Y1.
  rewrite (splitAtFence_after_quote beforeIntent _ eq_refl).
  destruct (CutOrPass_quoteChars (intent q) (34%N :: Y2))
    as [P2|[cap [rest [C2 N2]]]].
  2:{ right. rewrite C2.
      exists (tl beforeText ++ quoteChars (text q) ++ 34%N :: beforeIntent ++ cap),
             rest.
      split.
      - cbn [prepend]. rewrite <- ?app_assoc. reflexivity.
      - apply (@cut_in_intent (text q) cap N2). }
  rewrite P2. subst Y2.
  rewrite (splitAtFence_after_quote beforeLanguage _ eq_refl).
  destruct (CutOrPass_quoteChars (language q) (34%N :: 125%N :: after))
    as [P3|[cap [rest [C3 N3]]]].
  2:{ right. rewrite C3.
      exists (tl beforeText ++ quoteChars (text q) ++ 34%N ::
              beforeIntent ++ quoteChars (intent q) ++ 34%N ::
              beforeLanguage ++ cap), rest.
      split.
      - cbn [prepend]. rewrite <- ?app_assoc. cbn [app].
        rewrite <- ?app_assoc. reflexivity.
      - apply (@cut_in_language (text q) (intent q) cap N3). }
  rewrite P3.
  change (34%N :: 125%N :: after) with ([34%N; 125%N] ++ after).
  rewrite (splitAtFence_plain [34%N; 125%N] after eq_refl).
  left. rewrite !prepend_app. f_equal.
  rewrite Eq. rewrite <- ?app_assoc. cbn [app].
  rewrite <- ?app_assoc. reflexivity.
Qed.

Lemma questionText_head (q : RawQuestion) :
  exists x, questionText q = 123%N :: x.
Proof.
  pose proof (questionText_segments q []) as Eq. rewrite app_nil_r in Eq.
  rewrite Eq. eexists. reflexivity.
Qed.

(** Either no capture stops inside the elements, or one does and what it
    has captured is not a sequence of elements closed by a bracket. *)
Lemma split_body (qs : list RawQuestion) :
  qs <> [] ->
  forall tail,
    splitAtFence (body qs ++ 93%N :: tail)
      = prepend (body qs) (splitAtFence (93%N :: tail))
    \/ exists cap rest,
         splitAtFence (body qs ++ 93%N :: tail) = Some (123%N :: cap, rest)
         /\ forall f acc, parseElements f (123%N :: cap) acc = None.
Proof.
  induction qs as [|q qs IH]; intros Hne tail; [congruence|].
  rewrite body_cons.
  destruct qs as [|q' qs'].
  - destruct (split_question q (93%N :: tail))
      as [Hpass|[cap [rest [Hcut Hnone]]]].
    + left. rewrite Hpass.
      pose proof (body_cons q [] []) as E. rewrite !app_nil_r in E.
      rewrite E. reflexivity.
    + right. exists cap, rest. split; [exact Hcut|].
      intros f acc. destruct f; [reflexivity|].
      cbn [parseElements]. rewrite Hnone. reflexivity.
  - set (l := q' :: qs') in *.
    destruct (split_question q (44%N :: body l ++ 93%N :: tail))
      as [Hpass|[cap [rest [Hcut Hnone]]]].
    + rewrite Hpass.
      change (44%N :: body l ++ 93%N :: tail)
        with ([44%N] ++ body l ++ 93%N :: tail).
      rewrite (splitAtFence_plain [44%N] _ eq_refl).
      destruct (IH ltac:(subst l; discriminate) tail)
        as [Hpass'|[cap [rest [Hcut Hnone]]]].
      * left. rewrite Hpass', !prepend_app. f_equal.
        pose proof (body_cons q l []) as E. rewrite !app_nil_r in E.
        rewrite E. subst l. rewrite <- ?app_assoc. reflexivity.
      * right. rewrite Hcut. cbn [prepend].
        destruct (questionText_head q) as [x Hx].
        exists (x ++ [44%N] ++ 123%N :: cap), rest.
        split; [rewrite Hx; reflexivity|].
        intros f acc. destruct f; [reflexivity|].
        cbn [parseElements].
        change (123%N :: x ++ [44%N] ++ 123%N :: cap)
          with ((123%N :: x) ++ 44%N :: 123%N :: cap).
        rewrite <- Hx.
        destruct (parseValue_question_any_fuel f q (44%N :: 123%N :: cap))
          as [->| ->]; [reflexivity|].
        cbn [skipWs dropWhile isJsonWhiteSpace N.eqb Pos.eqb orb].
        apply Hnone.
    + right. exists cap, rest. split; [exact Hcut|].
      intros f acc. destruct f; [reflexivity|].
      cbn [parseElements]. rewrite Hnone. reflexivity.
Qed.

(** The capture of a block expression on the JSON text of a question array
    followed by the closing fence: the whole text, or a prefix of it that
    is not JSON. *)
Lemma split_stringify (qs : list RawQuestion) :
  splitAtFence (JSON_stringify qs ++ closingFence)
    = Some (JSON_stringify qs, [])
  \/ (qs <> [] /\
      exists cap rest,
        splitAtFence (JSON_stringify qs ++ closingFence)
          = Some (91%N :: cap, rest)
        /\ JSON_parse (91%N :: cap) = None).
Proof.
  destruct qs as [|q qs]; [left; reflexivity|].
  set (l := q :: qs). assert (Hne : l <> []) by discriminate.
  rewrite JSON_stringify_body. cbn [app]. rewrite <- app_assoc. cbn [app].
  rewrite (@splitAtFence_plain_cons 91%N _ eq_refl).
  destruct (split_body Hne closingFence)
    as [Hpass|[cap [rest [Hcut Hnone]]]].
  - left. rewrite Hpass.
    change (splitAtFence (93%N :: closingFence)) with (Some ([93%N], @nil N)).
    reflexivity.
  - right. split; [exact Hne|]. rewrite Hcut.
    exists (123%N :: cap), rest. split; [reflexivity|].
    unfold JSON_parse.
    replace (2 * List.length (91%N :: 123%N :: cap) + 2)
      with (S (2 * List.length (91%N :: 123%N :: cap) + 1)) by lia.
    rewrite parseValue_array_open by reflexivity.
    rewrite Hnone. reflexivity.
Qed.

(** ** The three expressions on a fenced block *)

Lemma fenced_cons (J : jsstring) :
  fenced J = lit "```json" ++ 10%N :: J ++ closingFence.
Proof. reflexivity. Qed.

Section RunSteps.

Variable R : Type.
Variable input : jsstring.

Lemma run_Seq (icase : bool) (a b : RegExp.pattern) (s : jsstring)
    (cap : option jsstring) (k : RegExp.Cont R) :
  RegExp.run input icase (RegExp.Seq a b) s cap k =
  RegExp.run input icase a s cap
    (fun s' cap' => RegExp.run input icase b s' cap' k).
Proof. reflexivity. Qed.

Lemma run_Char (icase : bool) (c d : N) (s : jsstring)
    (cap : option jsstring) (k : RegExp.Cont R) :
  RegExp.run input icase (RegExp.Char c) (d :: s) cap k =
  if RegExp.charMatches icase c d then k s cap else None.
Proof. reflexivity. Qed.

Lemma run_StarGreedy_cons (icase : bool) (p : N -> bool) (c : N)
    (s : jsstring) (cap : option jsstring) (k : RegExp.Cont R) :
  RegExp.run input icase (RegExp.StarGreedy p) (c :: s) cap k =
  if p c then
    match RegExp.run input icase (RegExp.StarGreedy p) s cap k with
    | Some r => Some r
    | None => k (c :: s) cap
    end
  else k (c :: s) cap.
Proof. reflexivity. Qed.

Lemma run_json_tag (s : jsstring) (cap : option jsstring) (k : RegExp.Cont R) :
  RegExp.run input true (RegExp.literal (lit "```json"))
    (lit "```json" ++ s) cap k = k s cap.
Proof. reflexivity. Qed.

Lemma run_captureThenClose (icase : bool) (k : RegExp.Cont R) :
  (forall s cap, k s cap <> None) ->
  forall (s : jsstring) (cap : option jsstring),
    RegExp.run input icase captureThenClose s cap k
    = match splitAtFence s with
      | Some (c, rest) => k rest (Some c)
      | None => None
      end.
Proof. apply run_group_closing. Qed.

Lemma starGreedy_any_app (a b : jsstring) (cap : option jsstring)
    (k : RegExp.Cont R) (r : R) :
  RegExp.starGreedy RegExp.anyChar b cap k = Some r ->
  RegExp.starGreedy RegExp.anyChar (a ++ b) cap k = Some r.
Proof.
  intros H. induction a as [|c a IH]; [exact H|].
  cbn [app RegExp.starGreedy]. rewrite anyChar_true, IH. reflexivity.
Qed.

End RunSteps.

Lemma execFrom_hit (re : RegExp.regexp) (input s : jsstring)
    (m : RegExp.MatchResult) :
  RegExp.matchAt re input s = Some m -> RegExp.execFrom re input s = Some m.
Proof. intros H. destruct s; cbn [RegExp.execFrom]; rewrite H; reflexivity. Qed.

Lemma execFrom_miss (re : RegExp.regexp) (input : jsstring) (c : N)
    (s : jsstring) :
  RegExp.matchAt re input (c :: s) = None ->
  RegExp.execFrom re input (c :: s) = RegExp.execFrom re input s.
Proof. intros H. cbn [RegExp.execFrom]. rewrite H. reflexivity. Qed.

Lemma jsonBlockRegex_source :
  RegExp.source jsonBlockRegex =
  RegExp.Seq (RegExp.literal (lit "```json"))
    (RegExp.Seq (RegExp.StarGreedy RegExp.whiteSpace) captureThenClose).
Proof. reflexivity. Qed.

Lemma codeBlockRegex_source :
  RegExp.source codeBlockRegex =
  RegExp.Seq (RegExp.literal backticks)
    (RegExp.Seq (RegExp.StarGreedy RegExp.whiteSpace) captureThenClose).
Proof. reflexivity. Qed.

Lemma exec_jsonBlock (J0 c rest : jsstring) :
  splitAtFence ((91%N :: J0) ++ closingFence) = Some (c, rest) ->
  exists m,
    RegExp.exec jsonBlockRegex (fenced (91%N :: J0)) = Some m
    /\ RegExp.group1 m = Some c.
Proof.
  intros Hsplit. unfold RegExp.exec.
  generalize (fenced (91%N :: J0)) at 1. intros input.
  rewrite fenced_cons.
  eexists. split; [apply execFrom_hit|].
  unfold RegExp.matchAt.
  change (RegExp.ignoreCase jsonBlockRegex) with true.
  rewrite jsonBlockRegex_source.
  rewrite run_Seq, run_json_tag, run_Seq.
  rewrite run_StarGreedy_cons.
  change (RegExp.whiteSpace 10%N) with true. cbv iota.
  cbn [app]. rewrite run_StarGreedy_cons.
  change (RegExp.whiteSpace 91%N) with false. cbv iota.
  rewrite run_captureThenClose by discriminate.
  change (91%N :: J0 ++ closingFence) with ((91%N :: J0) ++ closingFence).
  rewrite Hsplit. reflexivity.
  reflexivity.
Qed.

Lemma exec_codeBlock (J0 c rest : jsstring) :
  splitAtFence ((91%N :: J0) ++ closingFence) = Some (c, rest) ->
  exists m,
    RegExp.exec codeBlockRegex (fenced (91%N :: J0)) = Some m
    /\ RegExp.group1 m = Some (lit "json" ++ 10%N :: c).
Proof.
  intros Hsplit. unfold RegExp.exec.
  generalize (fenced (91%N :: J0)) at 1. intros input.
  rewrite fenced_cons.
  eexists. split; [apply execFrom_hit|].
  unfold RegExp.matchAt.
  change (RegExp.ignoreCase codeBlockRegex) with false.
  rewrite codeBlockRegex_source.
  rewrite run_Seq, run_backticks.
  change (stripPrefix backticks
            (lit "```json" ++ 10%N :: (91%N :: J0) ++ closingFence))
    with (Some (lit "json" ++ 10%N :: (91%N :: J0) ++ closingFence)).
  cbv iota. rewrite run_Seq.
  change (lit "json" ++ 10%N :: (91%N :: J0) ++ closingFence)
    with (106%N :: lit "son" ++ 10%N :: (91%N :: J0) ++ closingFence).
  rewrite run_StarGreedy_cons.
  change (RegExp.whiteSpace 106%N) with false. cbv iota.
  rewrite run_captureThenClose by discriminate.
  change (106%N :: lit "son" ++ 10%N :: (91%N :: J0) ++ closingFence)
    with (lit "json" ++ 10%N :: (91%N :: J0) ++ closingFence).
  rewrite (splitAtFence_plain (lit "json") _ eq_refl).
  rewrite splitAtFence_cons by reflexivity.
  rewrite Hsplit. reflexivity.
  reflexivity.
Qed.

Lemma arrayRegex_source :
  RegExp.source arrayRegex =
  RegExp.Seq (RegExp.Char 91)
    (RegExp.Seq (RegExp.StarGreedy RegExp.whiteSpace)
       (RegExp.Seq (RegExp.Char 123)
          (RegExp.Seq (RegExp.StarGreedy RegExp.anyChar)
             (RegExp.Seq (RegExp.Char 125)
                (RegExp.Seq (RegExp.StarGreedy RegExp.whiteSpace)
                   (RegExp.Char 93)))))).
Proof. reflexivity. Qed.

Lemma matchAt_array_miss (input : jsstring) (c : N) (s : jsstring) :
  (91 =? c)%N = false ->
  RegExp.matchAt arrayRegex input (c :: s) = None.
Proof.
  intros H. unfold RegExp.matchAt. rewrite arrayRegex_source.
  rewrite run_Seq, run_Char.
  change (RegExp.ignoreCase arrayRegex) with false.
  cbn [RegExp.charMatches]. rewrite H. reflexivity.
Qed.

(** On an array of objects followed by the closing fence, the greedy
    repetition backs off to the last closing brace and bracket. *)
Lemma matchAt_array_hit (input mid : jsstring) :
  let J := 91%N :: 123%N :: mid ++ [125%N; 93%N] in
  exists m,
    RegExp.matchAt arrayRegex input (J ++ closingFence) = Some m
    /\ RegExp.matched m = J.
Proof.
  intros J.
  eexists. split.
  - unfold RegExp.matchAt. rewrite arrayRegex_source.
    change (RegExp.ignoreCase arrayRegex) with false.
    set (K := fun (s' : jsstring) (cap : option jsstring) =>
                Some (RegExp.mkMatch
                        (List.length input - List.length (J ++ closingFence))
                        (RegExp.consumed (J ++ closingFence) s') cap)).
    assert (E : J ++ closingFence
                = 91%N :: 123%N :: mid ++ 125%N :: 93%N :: closingFence).
    { subst J. cbn [app]. rewrite <- app_assoc. reflexivity. }
    rewrite E.
    rewrite run_Seq, run_Char. cbn [RegExp.charMatches N.eqb Pos.eqb].
    rewrite run_Seq, run_StarGreedy_cons.
    change (RegExp.whiteSpace 123%N) with false. cbv iota.
    rewrite run_Seq, run_Char. cbn [RegExp.charMatches N.eqb Pos.eqb].
    rewrite run_Seq.
    change (RegExp.run input false (RegExp.StarGreedy RegExp.anyChar)
              (mid ++ 125%N :: 93%N :: closingFence) None)
      with (RegExp.starGreedy (R:=RegExp.MatchResult) RegExp.anyChar
              (mid ++ 125%N :: 93%N :: closingFence) None).
    apply starGreedy_any_app. reflexivity.
  - cbn [RegExp.matched]. apply consumed_app.
Qed.

Lemma questionText_shape (q : RawQuestion) :
  exists x, questionText q = 123%N :: x ++ [125%N].
Proof.
  pose proof (questionText_segments q []) as Eq. rewrite app_nil_r in Eq.
  exists (tl beforeText ++ quoteChars (text q) ++ 34%N ::
          beforeIntent ++ quoteChars (intent q) ++ 34%N ::
          beforeLanguage ++ quoteChars (language q) ++ [34%N]).
  rewrite Eq. repeat (rewrite <- app_assoc; cbn [app]). reflexivity.
Qed.

Lemma body_shape (qs : list RawQuestion) :
  qs <> [] -> exists mid, body qs = 123%N :: mid ++ [125%N].
Proof.
  induction qs as [|q qs IH]; intros Hne; [congruence|].
  pose proof (body_cons q qs []) as E. rewrite !app_nil_r in E. rewrite E.
  destruct (questionText_shape q) as [x ->].
  destruct qs as [|q' qs'].
  - rewrite app_nil_r. exists x. reflexivity.
  - destruct (IH ltac:(discriminate)) as [mid ->].
    exists (x ++ 125%N :: 44%N :: 123%N :: mid).
    cbn [app]. rewrite <- !app_assoc. reflexivity.
Qed.

Lemma JSON_stringify_shape (qs : list RawQuestion) :
  qs <> [] ->
  exists mid, JSON_stringify qs = 91%N :: 123%N :: mid ++ [125%N; 93%N].
Proof.
  intros Hne. destruct (body_shape Hne) as [mid E].
  exists mid. rewrite JSON_stringify_body, E.
  cbn [app]. rewrite <- app_assoc. reflexivity.
Qed.

Lemma exec_array (qs : list RawQuestion) :
  qs <> [] ->
  exists m,
    RegExp.exec arrayRegex (fenced (JSON_stringify qs)) = Some m
    /\ RegExp.matched m = JSON_stringify qs.
Proof.
  intros Hne. destruct (JSON_stringify_shape Hne) as [mid E].
  unfold RegExp.exec.
  generalize (fenced (JSON_stringify qs)) at 1. intros input.
  rewrite fenced_cons. rewrite E.
  destruct (matchAt_array_hit input mid) as [m [Hm Hmatched]].
  exists m. split; [|exact Hmatched].
  cbn [lit map list_ascii_of_string app].
  repeat (rewrite execFrom_miss by (apply matchAt_array_miss; reflexivity)).
  apply execFrom_hit. exact Hm.
Qed.

(** ** Extraction from a fenced block *)

Lemma fst_bind {A B} (m : Logged.t A) (f : A -> Logged.t B) :
  fst (Logged.bind m f) = fst (f (fst m)).
Proof.
  destruct m as [a l]. unfold Logged.bind. cbn [fst].
  destruct (f a). reflexivity.
Qed.

Lemma tryParseArray_result (text : jsstring) :
  fst (tryParseArray text)
  = match JSON_parse text with
    | Some (JArr items) => Some items
    | _ => None
    end.
Proof. reflexivity. Qed.

Lemma trim_fenced (J : jsstring) : trim (fenced J) = fenced J.
Proof.
  assert (E : fenced J
              = 96%N :: (96%N :: 96%N :: lit "json" ++ 10%N :: J
                           ++ [10%N; 96%N; 96%N]) ++ [96%N]).
  { rewrite fenced_cons. cbn [lit map list_ascii_of_string app].
    do 8 f_equal. rewrite <- app_assoc. reflexivity. }
  rewrite E. apply trim_clean; reflexivity.
Qed.

Lemma trim_stringify (qs : list RawQuestion) :
  trim (JSON_stringify qs) = JSON_stringify qs.
Proof. rewrite JSON_stringify_body. apply trim_clean; reflexivity. Qed.

Lemma truthyGroup_hit (m : RegExp.MatchResult) (c : N) (g : jsstring) :
  RegExp.group1 m = Some (c :: g) -> truthyGroup (Some m) = Some (c :: g).
Proof. intros H. unfold truthyGroup. rewrite H. reflexivity. Qed.

Lemma strategy4_fenced (qs : list RawQuestion) :
  qs <> [] ->
  fst (strategy4 (fenced (JSON_stringify qs)))
  = parsedArray (map questionValue qs).
Proof.
  intros Hne. unfold strategy4.
  destruct (exec_array Hne) as [m [-> Hm]].
  rewrite fst_bind, tryParseArray_result, Hm, JSON_parse_stringify.
  reflexivity.
Qed.

Lemma strategy3_fenced (qs : list RawQuestion) (cap rest : jsstring) :
  qs <> [] ->
  splitAtFence (JSON_stringify qs ++ closingFence) = Some (cap, rest) ->
  fst (strategy3 (fenced (JSON_stringify qs)))
  = parsedArray (map questionValue qs).
Proof.
  intros Hne Hsplit. unfold strategy3.
  rewrite JSON_stringify_body in Hsplit |- * at 1.
  destruct (exec_codeBlock _ Hsplit) as [m [-> Hm]].
  rewrite (@truthyGroup_hit m 106%N (lit "son" ++ 10%N :: cap) Hm).
  rewrite fst_bind, tryParseArray_result.
  destruct (@trim_head 106%N (lit "son" ++ 10%N :: cap) eq_refl) as [x ->].
  rewrite JSON_parse_letter_j.
  rewrite <- ?JSON_stringify_body.
  apply strategy4_fenced, Hne.
Qed.

(** C7.  For every array of question records, the JSON text of the array
    wrapped in a fenced block tagged json is extracted successfully, and
    the questions returned are the records of the array, in order. *)
Theorem fenced_json_roundtrip (qs : list RawQuestion) :
  fst (parseQuestionResponse (fenced (JSON_stringify qs)))
  = mkParseResult true (map questionValue qs) None.
Proof.
  unfold parseQuestionResponse.
  destruct (fenced (JSON_stringify qs)) as [|c0 s0] eqn:Ef;
    [discriminate|].
  rewrite <- Ef. clear Ef c0 s0.
  cbv zeta. rewrite trim_fenced.
  change (startsWith (fenced (JSON_stringify qs)) (lit "[")) with false.
  cbn [andb].
  rewrite fst_bind, tryParseArray_result.
  rewrite fenced_cons at 1.
  change (lit "```json" ++ 10%N :: JSON_stringify qs ++ closingFence)
    with (96%N :: lit "``json" ++ 10%N :: JSON_stringify qs ++ closingFence).
  rewrite JSON_parse_backtick.
  unfold strategy2.
  destruct (split_stringify qs) as [Hpass|[Hne [cap [rest [Hcut Hnone]]]]].
  - pose proof Hpass as Hsplit.
    rewrite JSON_stringify_body in Hsplit at 1.
    rewrite JSON_stringify_body at 1.
    destruct (exec_jsonBlock _ Hsplit) as [m [-> Hm]].
    rewrite JSON_stringify_body in Hm.
    rewrite (@truthyGroup_hit m _ _ Hm).
    rewrite <- ?JSON_stringify_body.
    rewrite fst_bind, tryParseArray_result, trim_stringify,
      JSON_parse_stringify.
    reflexivity.
  - pose proof Hcut as Hsplit.
    rewrite JSON_stringify_body in Hsplit at 1.
    rewrite JSON_stringify_body at 1.
    destruct (exec_jsonBlock _ Hsplit) as [m [-> Hm]].
    rewrite (@truthyGroup_hit m _ _ Hm).
    rewrite <- ?JSON_stringify_body.
    rewrite fst_bind, tryParseArray_result.
    rewrite (@trim_capture _ _ _ _ Hcut eq_refl), Hnone.
    apply (strategy3_fenced Hne Hcut).
Qed.

(** ** The outcomes of the scoring parser *)

Section ScoringParserFacts.

Variable ToNumber : JsValue -> number.
Variable syntaxErrorMessage : jsstring -> jsstring.









End ScoringParserFacts.

(** ** The outcomes of the question parser *)

Lemma failure_questionOutcome (msg : string) (l : list jsstring) :
  In (lit msg) parserMessages ->
  questionOutcome (failure msg, l).
Proof.
  intros H. right. unfold failure. cbn [success questions error].
  split; [reflexivity|split; [reflexivity|]].
  exists (lit msg). split; [exact H|reflexivity].
Qed.

(** One attempt followed by an alternative. *)
Lemma attempt_questionOutcome (text : jsstring) (alt : Logged.t ParseResult)
    (n : nat) :
  questionOutcome alt -> List.length (snd alt) <= n ->
  let run :=
    r <- tryParseArray text ;;
    match r with
    | Some items => Logged.ret (parsedArray items)
    | None => alt
    end in
  questionOutcome run /\ List.length (snd run) <= S n.
Proof.
  intros Ha Hn. cbv zeta.
  unfold tryParseArray, Logged.bind, Logged.JSON_parse, Logged.ret.
  destruct (JSON_parse text) as [[| | | | |items|]|] eqn:Hp;
    try (destruct alt as [r l]; cbn [snd] in Hn; split;
         [|cbn [snd app List.length]; lia];
         destruct Ha as [[H1 [H2 [t [Ht Hj]]]]|Hf];
         [left; repeat split; try assumption; exists t; split;
          [right; exact Ht|exact Hj]
         |right; exact Hf]).
  split; [|cbn; lia].
  left. cbn. repeat split. exists text. split; [left; reflexivity|exact Hp].
Qed.

Lemma strategy4_outcome (trimmed : jsstring) :
  questionOutcome (strategy4 trimmed) /\ List.length (snd (strategy4 trimmed)) <= 1.
Proof.
  unfold strategy4.
  assert (Hf : questionOutcome
            (Logged.ret (failure "Could not extract valid JSON array from response"))
          /\ List.length (snd (Logged.ret (A:=ParseResult)
               (failure "Could not extract valid JSON array from response"))) <= 0).
  { split; [|cbn; lia]. apply failure_questionOutcome. right; right; left; reflexivity. }
  destruct (RegExp.exec arrayRegex trimmed) as [m|].
  - apply (@attempt_questionOutcome (RegExp.matched m) _ 0); apply Hf.
  - destruct Hf as [H1 H2]. split; [exact H1|lia].
Qed.

Lemma strategy3_outcome (trimmed : jsstring) :
  questionOutcome (strategy3 trimmed) /\ List.length (snd (strategy3 trimmed)) <= 2.
Proof.
  unfold strategy3. destruct (strategy4_outcome trimmed) as [H1 H2].
  destruct (truthyGroup (RegExp.exec codeBlockRegex trimmed)) as [g|].
  - apply (@attempt_questionOutcome (trim g) _ 1); assumption.
  - split; [exact H1|lia].
Qed.

Lemma strategy2_outcome (trimmed : jsstring) :
  questionOutcome (strategy2 trimmed) /\ List.length (snd (strategy2 trimmed)) <= 3.
Proof.
  unfold strategy2. destruct (strategy3_outcome trimmed) as [H1 H2].
  destruct (truthyGroup (RegExp.exec jsonBlockRegex trimmed)) as [g|].
  - apply (@attempt_questionOutcome (trim g) _ 2); assumption.
  - split; [exact H1|lia].
Qed.

(** X2.  Whatever the response, the question parser calls [JSON.parse] at most
    four times and ends in a success whose questions are the array that one
    of the parsed texts denotes, with no error, or in a failure with no
    questions and one of its three messages. *)
Theorem parseQuestionResponse_outcome (response : jsstring) :
  questionOutcome (parseQuestionResponse response)
  /\ List.length (snd (parseQuestionResponse response)) <= 4.
Proof.
  unfold parseQuestionResponse.
  destruct response as [|c0 r0].
  - split; [|cbn; lia]. apply failure_questionOutcome. left; reflexivity.
  - cbv zeta.
    destruct (startsWith (trim (c0 :: r0)) (lit "[")
              && includes (trim (c0 :: r0)) (lit "MOCK]")).
    + split; [|cbn; lia]. apply failure_questionOutcome. right; left; reflexivity.
    + destruct (strategy2_outcome (trim (c0 :: r0))) as [H1 H2].
      apply (@attempt_questionOutcome (trim (c0 :: r0)) _ 3); assumption.
Qed.

(** ** White space around a response *)

Lemma dropWhile_idempotent (p : N -> bool) (s : jsstring) :
  dropWhile p (dropWhile p s) = dropWhile p s.
Proof.
  induction s as [|c s IH]; [reflexivity|].
  cbn [dropWhile]. destruct (p c) eqn:H; [exact IH|].
  cbn [dropWhile]. rewrite H. reflexivity.
Qed.

Lemma dropWhile_head (p : N -> bool) (s : jsstring) (c : N) (r : jsstring) :
  dropWhile p s = c :: r -> p c = false.
Proof.
  induction s as [|d s IH]; [discriminate|].
  cbn [dropWhile]. destruct (p d) eqn:H; [exact IH|].
  intros E. injection E as -> _. exact H.
Qed.

Lemma trimEnd_idempotent (s : jsstring) : trimEnd (trimEnd s) = trimEnd s.
Proof.
  unfold trimEnd. rewrite rev_involutive, dropWhile_idempotent. reflexivity.
Qed.

Lemma trim_idempotent (s : jsstring) : trim (trim s) = trim s.
Proof.
  unfold trim at 2 3.
  destruct (trimStart s) as [|c r] eqn:Hs; [reflexivity|].
  pose proof (dropWhile_head _ _ Hs) as Hc.
  destruct (@trimEnd_head c r Hc) as [x Hx].
  unfold trim. rewrite Hx, (@trimStart_head c x Hc), <- Hx.
  apply trimEnd_idempotent.
Qed.

(** X3.  White space around a response does not matter to either parser:
    when something is left after trimming, the response and its trimmed
    form give the same result and the same parse attempts. *)
Theorem parsers_ignore_surrounding_space
    (ToNumber : JsValue -> number) (syntaxErrorMessage : jsstring -> jsstring)
    (response : jsstring) :
  trim response <> [] ->
  parseQuestionResponse (trim response) = parseQuestionResponse response
  /\ ScoringParser.parseScoringResponse ToNumber syntaxErrorMessage (trim response)
     = ScoringParser.parseScoringResponse ToNumber syntaxErrorMessage response.
Proof.
  intros Hne.
  destruct response as [|c r]; [exfalso; apply Hne; reflexivity|].
  unfold parseQuestionResponse, ScoringParser.parseScoringResponse.
  destruct (trim (c :: r)) as [|c' r'] eqn:Ht; [congruence|].
  cbv zeta. rewrite <- Ht, trim_idempotent. split; reflexivity.
Qed.

Lemma parsers_ignore_surrounding_space_witness :
  parseQuestionResponse (trim (lit "  [1, 2] "))
  = parseQuestionResponse (lit "  [1, 2] ").
Proof.
  apply (@parsers_ignore_surrounding_space noCoercion noMessage
           (lit "  [1, 2] ")).
  vm_compute. discriminate.
Defined.

(** X4.  A response that consists of white space only is not reported as
    empty: the question parser hands the empty text to [JSON.parse] once
    and fails with its last message, whereas the empty response fails as
    "Empty or invalid response" without a parse. *)
Theorem blank_response_is_parsed (response : jsstring) :
  response <> [] -> trim response = [] ->
  parseQuestionResponse response
  = (failure "Could not extract valid JSON array from response", [[]])
  /\ parseQuestionResponse []
     = (failure "Empty or invalid response", []).
Proof.
  intros Hne Ht. split; [|reflexivity].
  destruct response as [|c r]; [congruence|].
  unfold parseQuestionResponse. cbv zeta. rewrite Ht.
  vm_compute. reflexivity.
Qed.

Lemma blank_response_is_parsed_witness :
  parseQuestionResponse (lit "   ")
  = (failure "Could not extract valid JSON array from response", [[]]).
Proof.
  apply (@blank_response_is_parsed (lit "   ")); [discriminate|reflexivity].
Defined.

(** ** What the validator accepts *)

Lemma Str_eqb_eq (a b : jsstring) : Str.eqb a b = true <-> a = b.
Proof.
  revert b. induction a as [|x a IH]; intros [|y b]; cbn [Str.eqb];
    try (split; [discriminate|discriminate]); [split; reflexivity|].
  rewrite andb_true_iff, N.eqb_eq, IH. split.
  - intros [-> ->]. reflexivity.
  - intros E. injection E as -> ->. auto.
Qed.

Lemma Str_eqb_refl (a : jsstring) : Str.eqb a a = true.
Proof. apply Str_eqb_eq. reflexivity. Qed.

Lemma letter_not_space (c : N) : inRange 97 122 c = true -> isWhiteSpace c = false.
Proof.
  unfold inRange, isWhiteSpace, inRange. intros H.
  apply andb_true_iff in H. destruct H as [H1 H2].
  apply N.leb_le in H1. apply N.leb_le in H2.
  repeat (apply orb_false_iff; split);
    try (apply andb_false_iff; (left; apply N.leb_gt; lia) || (right; apply N.leb_gt; lia));
    apply N.eqb_neq; lia.
Qed.

Lemma isoRegex_two (a b : N) :
  RegExp.test QuestionValidator.isoRegex [a; b] = true ->
  inRange 97 122 a = true /\ inRange 97 122 b = true.
Proof.
  unfold RegExp.test, RegExp.exec. cbn.
  destruct (inRange 97 122 a); [|discriminate].
  destruct (inRange 97 122 b); [|discriminate].
  auto.
Qed.

Lemma isoRegex_letters (a b : N) :
  inRange 97 122 a = true -> inRange 97 122 b = true ->
  RegExp.test QuestionValidator.isoRegex [a; b] = true.
Proof.
  intros Ha Hb. unfold RegExp.test, RegExp.exec. cbn.
  rewrite Ha, Hb. reflexivity.
Qed.

Section ValidatorFacts2.

Import QuestionValidator.

Variable toLowerCase : jsstring -> jsstring.
Variable config : ValidationConfig.

Lemma lengthOf_nonempty (s : jsstring) :
  strictEq (lengthOf s) zero = false -> s <> [].
Proof. intros H ->. vm_compute in H. discriminate. Qed.

(** What the absence of errors says about the normal form. *)
Lemma no_errors_constraints (q : JsValue) (i : nat) (r : RawQuestion) :
  validateSingleQuestion toLowerCase q i config = [] ->
  normalFormOf toLowerCase q r ->
  meetsConstraints config r.
Proof.
  unfold validateSingleQuestion, normalFormOf, meetsConstraints.
  destruct q; try discriminate.
  intros H [t [it [l [Ht [Hi [Hl ->]]]]]].
  rewrite Ht, Hi, Hl in H. cbn [text intent language].
  apply app_nil_inv in H. destruct H as [H1 H].
  apply app_nil_inv in H. destruct H as [H2 H3].
  apply app_nil_inv in H1. destruct H1 as [Ha H1].
  apply app_nil_inv in H1. destruct H1 as [Hb Hc].
  destruct (lt (lengthOf (trim t)) (nullish (minTextLength config) (ofZ 10)));
    [discriminate|].
  destruct (gt (lengthOf (trim t)) (nullish (maxTextLength config) (ofZ 200)));
    [discriminate|].
  destruct (strictEq (lengthOf (trim t)) zero) eqn:Hz; [discriminate|].
  destruct (existsb (Str.eqb it) (nullish (allowedIntents config) VALID_INTENTS))
    eqn:Hin; [|discriminate].
  destruct (Nat.eqb (List.length (trim (toLowerCase l))) 2) eqn:Hlen;
    [|discriminate].
  destruct (RegExp.test isoRegex (trim (toLowerCase l))) eqn:Hre; [|discriminate].
  repeat split.
  - apply lengthOf_nonempty, Hz.
  - apply existsb_exists in Hin. destruct Hin as [x [Hx Hxe]].
    apply Str_eqb_eq in Hxe. subst x. exact Hx.
  - apply Nat.eqb_eq in Hlen.
    destruct (trim (toLowerCase l)) as [|a [|b [|c rest]]]; try discriminate.
    exists a, b. split; [reflexivity|]. apply isoRegex_two, Hre.
Qed.

Lemma normal_forms_meet_constraints (cands : list JsValue)
    (accepted : list RawQuestion) :
  Forall2 (normalFormOf toLowerCase) cands accepted ->
  Forall (fun c => passes toLowerCase config c = true) cands ->
  Forall (meetsConstraints config) accepted.
Proof.
  induction 1 as [|c r cands accepted Hcr _ IH]; intros Hp; constructor.
  - inversion Hp as [|? ? Hc _]; subst. unfold passes in Hc.
    destruct (validateSingleQuestion toLowerCase c 0 config) eqn:E;
      [|discriminate].
    exact (@no_errors_constraints c 0 r E Hcr).
  - apply IH. inversion Hp; assumption.
Qed.

(** X5.  Every question the validator lets through meets the constraints of
    the configuration, whether or not the batch as a whole is valid: its
    text is not empty and neither shorter than the minimum nor longer than
    the maximum, its intent is one of those allowed, and its language is
    two letters from a to z. *)
Theorem accepted_questions_meet_constraints
    (items : list JsValue) (result : ValidationResult) :
  validateQuestions toLowerCase (JArr items) config = Some result ->
  Forall (meetsConstraints config) (questions result).
Proof.
  unfold validateQuestions.
  destruct (validateFrom_spec toLowerCase config items 0 [] [])
    as [acc [Hrun Hacc]].
  rewrite Hrun. intros E. injection E as <-. cbn [questions app].
  apply (normal_forms_meet_constraints Hacc).
  apply Forall_forall. intros c Hin. apply filter_In in Hin. apply Hin.
Qed.

Hypothesis lower_fixes_letters :
  forall a b, inRange 97 122 a = true -> inRange 97 122 b = true ->
              toLowerCase [a; b] = [a; b].

(** The normal form of a candidate without errors has no errors either,
    and is its own normal form. *)
Lemma normal_form_passes (q : JsValue) (i j : nat) (r : RawQuestion) :
  validateSingleQuestion toLowerCase q i config = [] ->
  normalFormOf toLowerCase q r ->
  validateSingleQuestion toLowerCase (questionValue r) j config = []
  /\ normalizedQuestion toLowerCase (questionValue r) = Some r.
Proof.
  unfold normalFormOf.
  destruct q; try discriminate.
  intros H [t [it [l [Ht [Hi [Hl ->]]]]]].
  unfold validateSingleQuestion in H.
  rewrite Ht, Hi, Hl in H.
  apply app_nil_inv in H. destruct H as [H1 H].
  apply app_nil_inv in H. destruct H as [H2 H3].
  apply app_nil_inv in H1. destruct H1 as [Ha H1].
  apply app_nil_inv in H1. destruct H1 as [Hb Hc].
  destruct (lt (lengthOf (trim t)) (nullish (minTextLength config) (ofZ 10)))
    eqn:Hmin; [discriminate|].
  destruct (gt (lengthOf (trim t)) (nullish (maxTextLength config) (ofZ 200)))
    eqn:Hmax; [discriminate|].
  destruct (strictEq (lengthOf (trim t)) zero) eqn:Hz; [discriminate|].
  destruct (existsb (Str.eqb it) (nullish (allowedIntents config) VALID_INTENTS))
    eqn:Hin; [|discriminate].
  destruct (Nat.eqb (List.length (trim (toLowerCase l))) 2) eqn:Hlen;
    [|discriminate].
  destruct (RegExp.test isoRegex (trim (toLowerCase l))) eqn:Hre; [|discriminate].
  apply Nat.eqb_eq in Hlen.
  destruct (trim (toLowerCase l)) as [|a [|b [|c rest]]]; try discriminate.
  destruct (isoRegex_two _ _ Hre) as [Ha' Hb'].
  assert (Hlang : trim (toLowerCase [a; b]) = [a; b]).
  { rewrite (lower_fixes_letters a b Ha' Hb').
    apply (@trim_clean a b []); apply letter_not_space; assumption. }
  unfold validateSingleQuestion, normalizedQuestion, questionValue.
  cbn [text intent language].
  change (get (JObj [(lit "text", JStr (trim t)); (lit "intent", JStr it);
                     (lit "language", JStr [a; b])]) (lit "text"))
    with (JStr (trim t)).
  change (get (JObj [(lit "text", JStr (trim t)); (lit "intent", JStr it);
                     (lit "language", JStr [a; b])]) (lit "intent"))
    with (JStr it).
  change (get (JObj [(lit "text", JStr (trim t)); (lit "intent", JStr it);
                     (lit "language", JStr [a; b])]) (lit "language"))
    with (JStr [a; b]).
  cbv beta iota zeta. rewrite trim_idempotent, Hmin, Hmax, Hz, Hin, Hlang, Hre.
  split; reflexivity.
Qed.

Lemma validateFrom_normal_forms (cands : list JsValue)
    (accepted : list RawQuestion) :
  Forall2 (normalFormOf toLowerCase) cands accepted ->
  Forall (fun c => passes toLowerCase config c = true) cands ->
  forall i validQuestions errors,
    validateFrom toLowerCase i (map questionValue accepted) config
      validQuestions errors
    = Some (validQuestions ++ accepted, errors).
Proof.
  induction 1 as [|c r cands accepted Hcr _ IH]; intros Hp i vq errs.
  - cbn. rewrite app_nil_r. reflexivity.
  - inversion Hp as [|? ? Hc Hrest]; subst. unfold passes in Hc.
    destruct (validateSingleQuestion toLowerCase c 0 config) eqn:E;
      [|discriminate].
    destruct (@normal_form_passes c 0 i r E Hcr) as [Hv Hn].
    cbn [map validateFrom]. rewrite Hv, Hn.
    rewrite (IH Hrest), <- app_assoc. reflexivity.
Qed.

(** X6.  Validation is idempotent on what it accepts: the accepted questions,
    validated again under the same configuration, all pass and come back
    unchanged. *)
Theorem validation_is_idempotent
    (items : list JsValue) (result : ValidationResult) :
  validateQuestions toLowerCase (JArr items) config = Some result ->
  validateQuestions toLowerCase (JArr (map questionValue (questions result)))
    config
  = Some (mkValidation true (questions result) []).
Proof.
  unfold validateQuestions at 1.
  destruct (validateFrom_spec toLowerCase config items 0 [] [])
    as [acc [Hrun Hacc]].
  rewrite Hrun. intros E. injection E as <-. cbn [questions app].
  unfold validateQuestions.
  rewrite (validateFrom_normal_forms Hacc).
  - reflexivity.
  - apply Forall_forall. intros c Hin. apply filter_In in Hin. apply Hin.
Qed.

End ValidatorFacts2.

Lemma asciiLower_letters (a b : N) :
  inRange 97 122 a = true -> inRange 97 122 b = true ->
  asciiLower [a; b] = [a; b].
Proof.
  intros Ha Hb. unfold asciiLower. cbn [map].
  assert (H : forall c, inRange 97 122 c = true -> inRange 65 90 c = false).
  { intros c Hc. unfold inRange in *. apply andb_true_iff in Hc.
    destruct Hc as [H1 _]. apply N.leb_le in H1.
    apply andb_false_iff. right. apply N.leb_gt. lia. }
  rewrite (H a Ha), (H b Hb). reflexivity.
Qed.

Lemma validation_is_idempotent_witness :
  QuestionValidator.validateQuestions asciiLower
    (JArr (map questionValue
       [mkRawQuestion (lit "How much does a backup cost?") (lit "pricing")
          (lit "en")]))
    QuestionValidator.defaultConfig
  = Some (QuestionValidator.mkValidation true
       [mkRawQuestion (lit "How much does a backup cost?") (lit "pricing")
          (lit "en")] []).
Proof.
  apply (@validation_is_idempotent asciiLower QuestionValidator.defaultConfig
           asciiLower_letters sampleCandidates
           (QuestionValidator.mkValidation false
              [mkRawQuestion (lit "How much does a backup cost?")
                 (lit "pricing") (lit "en")]
              (QuestionValidator.validateSingleQuestion asciiLower
                 (questionValue
                    (mkRawQuestion (lit "short") (lit "pricing") (lit "en")))
                 0 QuestionValidator.defaultConfig))).
  vm_compute. reflexivity.
Defined.

Lemma accepted_questions_meet_constraints_witness :
  Forall (meetsConstraints QuestionValidator.defaultConfig)
    [mkRawQuestion (lit "How much does a backup cost?") (lit "pricing")
       (lit "en")].
Proof.
  apply (@accepted_questions_meet_constraints asciiLower
           QuestionValidator.defaultConfig sampleCandidates
           (QuestionValidator.mkValidation false
              [mkRawQuestion (lit "How much does a backup cost?")
                 (lit "pricing") (lit "en")]
              (QuestionValidator.validateSingleQuestion asciiLower
                 (questionValue
                    (mkRawQuestion (lit "short") (lit "pricing") (lit "en")))
                 0 QuestionValidator.defaultConfig))).
  vm_compute. reflexivity.
Defined.

Section LanguagesIgnored.

Import QuestionValidator.

Variable toLowerCase : jsstring -> jsstring.

Lemma validateFrom_languages (config : ValidationConfig)
    (languages : option (list jsstring)) (items : list JsValue) :
  forall i validQuestions errors,
    validateFrom toLowerCase i items (withAllowedLanguages config languages)
      validQuestions errors
    = validateFrom toLowerCase i items config validQuestions errors.
Proof.
  induction items as [|item rest IH]; intros i vq errs; [reflexivity|].
  cbn [validateFrom].
  change (validateSingleQuestion toLowerCase item i
            (withAllowedLanguages config languages))
    with (validateSingleQuestion toLowerCase item i config).
  destruct (validateSingleQuestion toLowerCase item i config).
  - destruct (normalizedQuestion toLowerCase item); [apply IH|reflexivity].
  - apply IH.
Qed.

(** X7.  The list of allowed languages of the configuration has no effect:
    replacing it changes nothing in the result. *)
Theorem allowedLanguages_has_no_effect (config : ValidationConfig)
    (languages : option (list jsstring)) (questions : JsValue) :
  validateQuestions toLowerCase questions
    (withAllowedLanguages config languages)
  = validateQuestions toLowerCase questions config.
Proof.
  unfold validateQuestions. destruct questions; try reflexivity.
  rewrite validateFrom_languages. reflexivity.
Qed.

End LanguagesIgnored.

(** ** Grouping the scores by service *)

Section OwnProperties.

Variable V : Type.

Lemma Str_eqb_sym (a b : jsstring) : Str.eqb a b = Str.eqb b a.
Proof.
  destruct (Str.eqb a b) eqn:E1, (Str.eqb b a) eqn:E2; try reflexivity.
  - apply Str_eqb_eq in E1. subst. rewrite Str_eqb_refl in E2. discriminate.
  - apply Str_eqb_eq in E2. subst. rewrite Str_eqb_refl in E1. discriminate.
Qed.

Lemma getOwn_none (props : list (jsstring * V)) (k : jsstring) :
  getOwn props k = None <-> ~ In k (map fst props).
Proof.
  induction props as [|[k' v'] rest IH]; cbn [getOwn map fst In].
  - tauto.
  - destruct (Str.eqb k' k) eqn:E.
    + apply Str_eqb_eq in E. subst. split; [discriminate|tauto].
    + rewrite IH. split.
      * intros H [H1|H1]; [subst; rewrite Str_eqb_refl in E; discriminate|tauto].
      * tauto.
Qed.

Lemma getOwn_in (props : list (jsstring * V)) (k : jsstring) (v : V) :
  NoDup (map fst props) -> In (k, v) props -> getOwn props k = Some v.
Proof.
  induction props as [|[k' v'] rest IH]; cbn [getOwn map fst In]; [tauto|].
  intros Hnd [H|H].
  - injection H as -> ->. rewrite Str_eqb_refl. reflexivity.
  - inversion Hnd as [|? ? Hnot Hrest]; subst.
    destruct (Str.eqb k' k) eqn:E.
    + apply Str_eqb_eq in E. subst. exfalso. apply Hnot.
      apply in_map_iff. exists (k, v). auto.
    + apply IH; assumption.
Qed.

Lemma getOwn_some_in (props : list (jsstring * V)) (k : jsstring) (v : V) :
  getOwn props k = Some v -> In (k, v) props.
Proof.
  induction props as [|[k' v'] rest IH]; cbn [getOwn In]; [discriminate|].
  destruct (Str.eqb k' k) eqn:E.
  - apply Str_eqb_eq in E. subst. intros H. injection H as ->. auto.
  - auto.
Qed.

Lemma getOwn_replaceOwn (props : list (jsstring * V)) (k k' : jsstring) (v : V) :
  getOwn (replaceOwn props k v) k'
  = if Str.eqb k k'
    then match getOwn props k with Some _ => Some v | None => None end
    else getOwn props k'.
Proof.
  induction props as [|[k0 v0] rest IH]; cbn [replaceOwn getOwn].
  - destruct (Str.eqb k k'); reflexivity.
  - destruct (Str.eqb k0 k) eqn:E0.
    + apply Str_eqb_eq in E0. subst k0. cbn [getOwn].
      destruct (Str.eqb k k'); reflexivity.
    + cbn [getOwn]. destruct (Str.eqb k0 k') eqn:E1.
      * apply Str_eqb_eq in E1. subst k0.
        rewrite Str_eqb_sym, E0. reflexivity.
      * exact IH.
Qed.

Lemma keys_replaceOwn (props : list (jsstring * V)) (k : jsstring) (v : V) :
  map fst (replaceOwn props k v) = map fst props.
Proof.
  induction props as [|[k0 v0] rest IH]; cbn [replaceOwn map fst]; [reflexivity|].
  destruct (Str.eqb k0 k); cbn [map fst]; [reflexivity|].
  rewrite IH. reflexivity.
Qed.

Lemma getOwn_insertIndexed (props : list (jsstring * V)) (n : N)
    (k k' : jsstring) (v : V) :
  getOwn props k = None ->
  getOwn (insertIndexed props n k v) k'
  = if Str.eqb k k' then Some v else getOwn props k'.
Proof.
  induction props as [|[k0 v0] rest IH]; cbn [insertIndexed getOwn]; intros Hk.
  - reflexivity.
  - destruct (Str.eqb k0 k) eqn:E0; [discriminate|].
    destruct (arrayIndex k0) as [n'|]; [destruct (n' <? n)%N|]; cbn [getOwn];
      try reflexivity.
    destruct (Str.eqb k0 k') eqn:E1.
    + apply Str_eqb_eq in E1. subst k0. rewrite Str_eqb_sym, E0. reflexivity.
    + apply IH, Hk.
Qed.

Lemma keys_insertIndexed (props : list (jsstring * V)) (n : N)
    (k : jsstring) (v : V) (x : jsstring) :
  In x (map fst (insertIndexed props n k v)) <-> x = k \/ In x (map fst props).
Proof.
  induction props as [|[k0 v0] rest IH]; cbn [insertIndexed map fst In].
  - intuition.
  - destruct (arrayIndex k0) as [n'|]; [destruct (n' <? n)%N|];
      cbn [map fst In]; try rewrite IH; intuition.
Qed.

Lemma NoDup_insertIndexed (props : list (jsstring * V)) (n : N)
    (k : jsstring) (v : V) :
  ~ In k (map fst props) -> NoDup (map fst props) ->
  NoDup (map fst (insertIndexed props n k v)).
Proof.
  induction props as [|[k0 v0] rest IH]; cbn [insertIndexed map fst In];
    intros Hk Hnd.
  - constructor; [tauto|constructor].
  - destruct (arrayIndex k0) as [n'|]; [destruct (n' <? n)%N|]; cbn [map fst].
    + inversion Hnd as [|? ? H1 H2]; subst. constructor.
      * rewrite keys_insertIndexed. intros [->|H]; tauto.
      * apply IH; tauto.
    + constructor; [cbn [In]; tauto|exact Hnd].
    + constructor; [cbn [In]; tauto|exact Hnd].
Qed.

Lemma getOwn_app_last (props : list (jsstring * V)) (k k' : jsstring) (v : V) :
  getOwn props k = None ->
  getOwn (props ++ [(k, v)]) k'
  = if Str.eqb k k' then Some v else getOwn props k'.
Proof.
  induction props as [|[k0 v0] rest IH]; cbn [app getOwn]; intros Hk.
  - destruct (Str.eqb k k'); reflexivity.
  - destruct (Str.eqb k0 k) eqn:E0; [discriminate|].
    destruct (Str.eqb k0 k') eqn:E1.
    + apply Str_eqb_eq in E1. subst k0. rewrite Str_eqb_sym, E0. reflexivity.
    + apply IH, Hk.
Qed.

(** Reading a property after an assignment. *)
Lemma getOwn_setOwn (props : list (jsstring * V)) (k k' : jsstring) (v : V) :
  getOwn (setOwn props k v) k'
  = if Str.eqb k k' then Some v else getOwn props k'.
Proof.
  unfold setOwn. destruct (getOwn props k) eqn:Hk.
  - rewrite getOwn_replaceOwn, Hk. reflexivity.
  - destruct (arrayIndex k).
    + apply getOwn_insertIndexed, Hk.
    + apply getOwn_app_last, Hk.
Qed.

Lemma keys_setOwn (props : list (jsstring * V)) (k : jsstring) (v : V)
    (x : jsstring) :
  In x (map fst (setOwn props k v)) <-> x = k \/ In x (map fst props).
Proof.
  unfold setOwn. destruct (getOwn props k) eqn:Hk.
  - rewrite keys_replaceOwn. split; [tauto|].
    intros [->|H]; [|exact H].
    destruct (in_dec (list_eq_dec N.eq_dec) k (map fst props)) as [Hin|Hin];
      [exact Hin|].
    apply getOwn_none in Hin. congruence.
  - destruct (arrayIndex k).
    + apply keys_insertIndexed.
    + rewrite map_app, in_app_iff. cbn. intuition.
Qed.

Lemma NoDup_setOwn (props : list (jsstring * V)) (k : jsstring) (v : V) :
  NoDup (map fst props) -> NoDup (map fst (setOwn props k v)).
Proof.
  intros Hnd. unfold setOwn. destruct (getOwn props k) eqn:Hk.
  - rewrite keys_replaceOwn. exact Hnd.
  - apply getOwn_none in Hk. destruct (arrayIndex k).
    + apply NoDup_insertIndexed; assumption.
    + rewrite map_app. cbn [map fst].
      apply (NoDup_Add (a := k) (l := map fst props)).
      * rewrite <- (app_nil_r (map fst props)) at 1. apply Add_app.
      * split; assumption.
Qed.

End OwnProperties.

(** ** Grouping the scores by service *)

Lemma scoresOf_app (k : jsstring) (a b : list VisibilityScore.t) :
  scoresOf k (a ++ b) = scoresOf k a ++ scoresOf k b.
Proof. unfold scoresOf. rewrite filter_app, map_app. reflexivity. Qed.

Lemma scoresOf_unseen (k : jsstring) (seen : list VisibilityScore.t) :
  existsb (fun sc => Str.eqb (VisibilityScore.service sc) k) seen = false ->
  scoresOf k seen = [].
Proof.
  unfold scoresOf. induction seen as [|sc seen IH]; cbn [existsb filter map];
    [reflexivity|].
  intros H. apply orb_false_iff in H. destruct H as [H1 H2].
  rewrite H1. apply IH, H2.
Qed.

Lemma scoresOf_one (k : jsstring) (sc : VisibilityScore.t) :
  scoresOf k [sc]
  = if Str.eqb (VisibilityScore.service sc) k then [VisibilityScore.score sc]
    else [].
Proof.
  unfold scoresOf. cbn [filter].
  destruct (Str.eqb (VisibilityScore.service sc) k); reflexivity.
Qed.

Lemma Grouped_nil : Grouped [] [].
Proof. split; [constructor|reflexivity]. Qed.

Lemma Grouped_unseen (m : list (jsstring * list number))
    (seen : list VisibilityScore.t) (k : jsstring) :
  Grouped m seen -> Forall (fun sc => ~ clashesWithPrototype sc) seen ->
  inherited k = true -> getOwn m k = None.
Proof.
  intros [_ Hm] Hseen Hk. rewrite Hm.
  destruct (existsb _ seen) eqn:E; [|reflexivity].
  apply existsb_exists in E. destruct E as [sc [Hin He]].
  apply Str_eqb_eq in He. subst k.
  rewrite Forall_forall in Hseen. elim (Hseen sc Hin). exact Hk.
Qed.

Lemma Grouped_push (m : list (jsstring * list number))
    (seen : list VisibilityScore.t) (sc : VisibilityScore.t)
    (m0 : list (jsstring * list number)) (arr : list number) :
  NoDup (map fst m0) ->
  (forall k, getOwn m0 k
             = if Str.eqb (VisibilityScore.service sc) k then Some arr
               else getOwn m k) ->
  arr = scoresOf (VisibilityScore.service sc) seen ->
  Grouped m seen ->
  Grouped (setOwn m0 (VisibilityScore.service sc)
             (arr ++ [VisibilityScore.score sc])) (seen ++ [sc]).
Proof.
  intros Hnd Hm0 Harr [_ Hm]. split; [apply NoDup_setOwn, Hnd|].
  intros k. rewrite getOwn_setOwn, existsb_app, scoresOf_app, scoresOf_one.
  cbn [existsb]. rewrite orb_false_r.
  destruct (Str.eqb (VisibilityScore.service sc) k) eqn:E.
  - apply Str_eqb_eq in E. subst k. rewrite orb_true_r.
    rewrite Harr. reflexivity.
  - rewrite orb_false_r, app_nil_r.
    rewrite Hm0, E. apply Hm.
Qed.

Lemma addScore_step (m : list (jsstring * list number))
    (seen : list VisibilityScore.t) (sc : VisibilityScore.t) :
  Grouped m seen -> Forall (fun sc => ~ clashesWithPrototype sc) seen ->
  if inherited (VisibilityScore.service sc)
  then Agents.addScore m sc = None
  else exists m', Agents.addScore m sc = Some m' /\ Grouped m' (seen ++ [sc]).
Proof.
  intros Hg Hseen. unfold Agents.addScore, Agents.lookup. cbv zeta.
  destruct (inherited (VisibilityScore.service sc)) eqn:Hin.
  - rewrite (@Grouped_unseen m seen _ Hg Hseen Hin). cbv beta iota.
    rewrite (@Grouped_unseen m seen _ Hg Hseen Hin). reflexivity.
  - destruct (getOwn m (VisibilityScore.service sc)) as [arr|] eqn:Hk.
    + rewrite Hk. eexists. split; [reflexivity|].
      apply (@Grouped_push m seen sc m arr); try assumption.
      * apply Hg.
      * intros k. destruct (Str.eqb (VisibilityScore.service sc) k) eqn:E;
          [|reflexivity].
        apply Str_eqb_eq in E. subst k. exact Hk.
      * destruct Hg as [_ Hm]. rewrite Hm in Hk.
        destruct (existsb _ seen); congruence.
    + rewrite getOwn_setOwn, Str_eqb_refl.
      eexists. split; [reflexivity|].
      apply (@Grouped_push m seen sc
               (setOwn m (VisibilityScore.service sc) []) []); try assumption.
      * apply NoDup_setOwn, Hg.
      * intros k. apply getOwn_setOwn.
      * destruct Hg as [_ Hm]. rewrite Hm in Hk.
        destruct (existsb _ seen) eqn:E; [discriminate|].
        symmetry. apply scoresOf_unseen, E.
Qed.

Lemma addScores_spec (scores : list VisibilityScore.t) :
  forall m seen,
    Grouped m seen -> Forall (fun sc => ~ clashesWithPrototype sc) seen ->
    match Agents.addScores m scores with
    | None => Exists clashesWithPrototype scores
    | Some m' =>
        Grouped m' (seen ++ scores)
        /\ Forall (fun sc => ~ clashesWithPrototype sc) (seen ++ scores)
    end.
Proof.
  induction scores as [|sc rest IH]; intros m seen Hg Hseen; cbn [Agents.addScores].
  - rewrite app_nil_r. split; assumption.
  - pose proof (@addScore_step m seen sc Hg Hseen) as Hstep.
    destruct (inherited (VisibilityScore.service sc)) eqn:Hin.
    + rewrite Hstep. left. exact Hin.
    + destruct Hstep as [m' [-> Hg']].
      assert (Hseen' : Forall (fun sc => ~ clashesWithPrototype sc) (seen ++ [sc])).
      { apply Forall_app. split; [exact Hseen|]. constructor; [|constructor].
        unfold clashesWithPrototype. congruence. }
      specialize (IH m' (seen ++ [sc]) Hg' Hseen').
      rewrite <- app_assoc in IH. cbn [app] in IH.
      destruct (Agents.addScores m' rest); [exact IH|].
      right. exact IH.
Qed.

Lemma groupScores_spec (providerResults : list ProviderVisibilityResult.t) :
  forall m seen,
    Grouped m seen -> Forall (fun sc => ~ clashesWithPrototype sc) seen ->
    match Agents.groupScores m providerResults with
    | None => Exists clashesWithPrototype (allScores providerResults)
    | Some m' =>
        Grouped m' (seen ++ allScores providerResults)
        /\ Forall (fun sc => ~ clashesWithPrototype sc)
             (seen ++ allScores providerResults)
    end.
Proof.
  induction providerResults as [|result rest IH]; intros m seen Hg Hseen;
    cbn [Agents.groupScores allScores flat_map].
  - rewrite app_nil_r. split; assumption.
  - pose proof (@addScores_spec (ProviderVisibilityResult.scores result) m seen
                  Hg Hseen) as Hs.
    destruct (Agents.addScores m (ProviderVisibilityResult.scores result)) as [m'|].
    + destruct Hs as [Hg' Hseen'].
      specialize (IH m' _ Hg' Hseen').
      fold (allScores rest). rewrite <- app_assoc in IH.
      destruct (Agents.groupScores m' rest); [exact IH|].
      apply Exists_app. right. exact IH.
    + apply Exists_app. left. exact Hs.
Qed.

Lemma groupScores_from_empty (providerResults : list ProviderVisibilityResult.t) :
  match Agents.groupScores [] providerResults with
  | None => Exists clashesWithPrototype (allScores providerResults)
  | Some m =>
      Grouped m (allScores providerResults)
      /\ Forall (fun sc => ~ clashesWithPrototype sc) (allScores providerResults)
  end.
Proof.
  exact (@groupScores_spec providerResults [] [] Grouped_nil (Forall_nil _)).
Qed.

Section DashboardFacts2.

Variable callLlm : LlmProvider -> jsstring -> option jsstring.
Variable toFixed2 : number -> jsstring.

(** X8.  The dashboard fails exactly when some score names a service after a
    member of [Object.prototype], such as "constructor" or "toString": the
    grouping then calls [push] on the inherited member. *)
Theorem dashboard_fails_on_prototype_names
    (company : CompanyProfile.t) (questions : list GeneratedQuestion.t)
    (providerResults : list ProviderVisibilityResult.t) :
  Agents.dashboardAgent callLlm toFixed2 company questions providerResults = None
  <-> Exists clashesWithPrototype (allScores providerResults).
Proof.
  unfold Agents.dashboardAgent.
  pose proof (groupScores_from_empty providerResults) as H.
  destruct (Agents.groupScores [] providerResults) as [m|].
  - destruct H as [_ Hclean]. split; [discriminate|].
    intros Hex. apply Exists_exists in Hex. destruct Hex as [sc [Hin Hc]].
    rewrite Forall_forall in Hclean. elim (Hclean sc Hin Hc).
  - split; [intros _; exact H|reflexivity].
Qed.

(** X9.  The dashboard holds one insight per service that was scored, and
    the average of an insight is taken over the scores of its service, across
    all providers, in the order they were produced. *)
Theorem insights_group_scores_by_service
    (company : CompanyProfile.t) (questions : list GeneratedQuestion.t)
    (providerResults : list ProviderVisibilityResult.t)
    (result : DashboardResult.t) :
  Agents.dashboardAgent callLlm toFixed2 company questions providerResults
    = Some result ->
  let scores := allScores providerResults in
  let insights := DashboardResult.insights result in
  NoDup (map DashboardInsight.service insights)
  /\ (forall service,
        In service (map DashboardInsight.service insights)
        <-> In service (map VisibilityScore.service scores))
  /\ Forall (fun insight =>
               DashboardInsight.avgScore insight
               = Agents.average (scoresOf (DashboardInsight.service insight) scores))
        insights.
Proof.
  unfold Agents.dashboardAgent.
  pose proof (groupScores_from_empty providerResults) as H.
  destruct (Agents.groupScores [] providerResults) as [m|]; [|discriminate].
  destruct H as [[Hnd Hm] _].
  intros E. injection E as <-. cbv zeta. cbn [DashboardResult.insights].
  assert (Hkeys : map DashboardInsight.service (map Agents.insightOf m) = map fst m).
  { rewrite map_map. apply map_ext. intros [k arr]. reflexivity. }
  rewrite Hkeys. split; [exact Hnd|split].
  - intros service. split.
    + intros Hin.
      destruct (getOwn m service) eqn:Hg;
        [|apply getOwn_none in Hg; tauto].
      rewrite Hm in Hg.
      destruct (existsb _ (allScores providerResults)) eqn:Hex; [|discriminate].
      apply existsb_exists in Hex. destruct Hex as [sc [Hsc He]].
      apply Str_eqb_eq in He. subst service. apply in_map, Hsc.
    + intros Hin. apply in_map_iff in Hin. destruct Hin as [sc [<- Hsc]].
      destruct (in_dec (list_eq_dec N.eq_dec) (VisibilityScore.service sc)
                  (map fst m)) as [Hk|Hk]; [exact Hk|].
      apply getOwn_none in Hk. rewrite Hm in Hk.
      assert (Hex : existsb
                (fun sc0 => Str.eqb (VisibilityScore.service sc0)
                              (VisibilityScore.service sc))
                (allScores providerResults) = true).
      { apply existsb_exists. exists sc. split; [exact Hsc|apply Str_eqb_refl]. }
      rewrite Hex in Hk. discriminate.
  - apply Forall_forall. intros insight Hin.
    apply in_map_iff in Hin. destruct Hin as [[k arr] [<- Hkin]].
    cbn [Agents.insightOf DashboardInsight.avgScore DashboardInsight.service].
    pose proof (@getOwn_in _ m k arr Hnd Hkin) as Hg.
    rewrite Hm in Hg.
    destruct (existsb _ (allScores providerResults)); [|discriminate].
    injection Hg as <-. reflexivity.
Qed.

End DashboardFacts2.

Lemma insights_group_scores_by_service_witness :
  NoDup (map DashboardInsight.service (DashboardResult.insights sampleDashboard))
  /\ (forall service,
        In service
          (map DashboardInsight.service (DashboardResult.insights sampleDashboard))
        <-> In service
              (map VisibilityScore.service (allScores sampleProviderResults)))
  /\ Forall (fun insight =>
               DashboardInsight.avgScore insight
               = Agents.average
                   (scoresOf (DashboardInsight.service insight)
                      (allScores sampleProviderResults)))
        (DashboardResult.insights sampleDashboard).
Proof.
  apply (@insights_group_scores_by_service failingLlm noDigits sampleCompany []
           sampleProviderResults sampleDashboard).
  vm_compute. reflexivity.
Defined.

(** ** The recommendations of the dashboard *)

Lemma consumed_one (c : N) (s : jsstring) : RegExp.consumed (c :: s) s = [c].
Proof.
  unfold RegExp.consumed. cbn [List.length].
  replace (S (List.length s) - List.length s) with 1 by lia. reflexivity.
Qed.

Lemma matchAt_bullet (input : jsstring) (c : N) (s : jsstring) :
  RegExp.matchAt Agents.bulletRegex input (c :: s)
  = if bulletSeparator c
    then Some (RegExp.mkMatch (List.length input - S (List.length s)) [c] None)
    else None.
Proof.
  unfold RegExp.matchAt, Agents.bulletRegex, bulletSeparator.
  cbn [RegExp.source RegExp.ignoreCase RegExp.run RegExp.charMatches List.length].
  rewrite consumed_one.
  rewrite (N.eqb_sym 10 c), (N.eqb_sym 8226 c), (N.eqb_sym 45 c).
  destruct (c =? 10)%N; [reflexivity|].
  destruct (c =? 8226)%N; [reflexivity|].
  destruct (c =? 45)%N; reflexivity.
Qed.

Lemma splitLoop_pieces (input : jsstring) (fuel : nat) :
  forall s piece,
    List.length s < fuel ->
    Forall (fun c => bulletSeparator c = false) piece ->
    Forall (Forall (fun c => bulletSeparator c = false))
      (RegExp.splitLoop fuel Agents.bulletRegex input piece s).
Proof.
  induction fuel as [|f IH]; intros s piece Hlen Hpiece; [lia|].
  cbn [RegExp.splitLoop].
  destruct s as [|c s'].
  - constructor; [|constructor]. apply Forall_rev, Hpiece.
  - cbn [List.length] in Hlen. rewrite matchAt_bullet.
    destruct (bulletSeparator c) eqn:Hc.
    + cbn [RegExp.matched List.length Nat.eqb andb skipn].
      constructor.
      * apply Forall_rev, Hpiece.
      * apply IH; [lia|constructor].
    + apply IH; [lia|]. constructor; assumption.
Qed.

Lemma split_pieces (s : jsstring) :
  Forall (Forall (fun c => bulletSeparator c = false))
    (RegExp.split Agents.bulletRegex s).
Proof.
  unfold RegExp.split. destruct s as [|c s'].
  - destruct (RegExp.matchAt Agents.bulletRegex [] []); repeat constructor.
  - apply splitLoop_pieces; [cbn [List.length]; lia|constructor].
Qed.

Lemma Forall_dropWhile (P : N -> Prop) (p : N -> bool) (s : jsstring) :
  Forall P s -> Forall P (dropWhile p s).
Proof.
  induction 1 as [|c s Hc Hs IH]; cbn [dropWhile]; [constructor|].
  destruct (p c); [exact IH|constructor; assumption].
Qed.

Lemma Forall_trim (P : N -> Prop) (s : jsstring) :
  Forall P s -> Forall P (trim s).
Proof.
  intros H. unfold trim, trimEnd, trimStart.
  apply Forall_rev, Forall_dropWhile, Forall_rev, Forall_dropWhile, H.
Qed.

Lemma Forall_firstn {A} (P : A -> Prop) (n : nat) (l : list A) :
  Forall P l -> Forall P (firstn n l).
Proof.
  revert l. induction n as [|n IH]; intros l H; [constructor|].
  destruct H; cbn [firstn]; constructor; auto.
Qed.

Lemma bulletsOf_bullets (recText : jsstring) :
  Forall isBullet (Agents.bulletsOf recText)
  /\ List.length (Agents.bulletsOf recText) <= 3.
Proof.
  unfold Agents.bulletsOf. split; [|apply firstn_le_length].
  apply Forall_firstn. apply Forall_forall. intros b Hb.
  apply filter_In in Hb. destruct Hb as [Hin Hne].
  apply in_map_iff in Hin. destruct Hin as [piece [<- Hpiece]].
  repeat split.
  - intros E. rewrite E in Hne. discriminate.
  - apply trim_idempotent.
  - apply Forall_trim.
    pose proof (split_pieces recText) as Hall.
    rewrite Forall_forall in Hall. apply Hall, Hpiece.
Qed.

Lemma join_nonempty (sep a : jsstring) (l : list jsstring) :
  a <> [] -> join sep (a :: l) <> [].
Proof.
  intros Ha. cbn [join]. destruct l; [exact Ha|].
  destruct a; [congruence|discriminate].
Qed.

Lemma join_space_bullets (l : list jsstring) :
  Forall isBullet l ->
  Forall (fun c => bulletSeparator c = false) (join (lit " ") l).
Proof.
  induction 1 as [|a l [_ [_ Ha]] Hl IH]; [constructor|].
  cbn [join]. destruct l as [|b l']; [exact Ha|].
  apply Forall_app. split; [exact Ha|].
  apply Forall_app. split; [repeat constructor|exact IH].
Qed.

Section RecommendationFacts2.

Variable callLlm : LlmProvider -> jsstring -> option jsstring.
Variable toFixed2 : number -> jsstring.
Variable company : CompanyProfile.t.

Lemma buildRecommendation_for (insight : DashboardInsight.t) :
  exists r,
    Agents.buildRecommendation callLlm toFixed2 company insight
    = Agents.Fulfilled r
    /\ recommendationFor company insight r.
Proof.
  unfold Agents.buildRecommendation. cbv zeta.
  destruct (callLlm openai _) as [recText|];
    eexists; (split; [reflexivity|]); unfold recommendationFor;
    cbn [Recommendation.title Recommendation.suggestedPrompts
         Recommendation.description];
    (split; [reflexivity|split; [reflexivity|]]).
  - destruct (bulletsOf_bullets recText) as [Hb _].
    destruct (Agents.bulletsOf recText) as [|b bs]; cbn [List.length Nat.ltb Nat.leb].
    + discriminate.
    + inversion Hb as [|? ? [Hne _] _]; subst.
      apply join_nonempty, Hne.
  - destruct (ge _ _); discriminate.
Qed.

Lemma resolveAll_for (insights all : list DashboardInsight.t) :
  forall idx,
    Forall2 (recommendationFor company) insights
      (Agents.resolveAll company all idx
         (map (Agents.buildRecommendation callLlm toFixed2 company) insights)).
Proof.
  induction insights as [|insight rest IH]; intros idx;
    cbn [map Agents.resolveAll]; constructor.
  - destruct (buildRecommendation_for insight) as [r [-> Hr]]. exact Hr.
  - apply IH.
Qed.

(** X10.  The dashboard gives one recommendation per insight, in the same
    order; each is titled and prompted for the service of its insight and
    has a description that is not empty, whatever the provider returns. *)
Theorem one_recommendation_per_insight
    (questions : list GeneratedQuestion.t)
    (providerResults : list ProviderVisibilityResult.t)
    (result : DashboardResult.t) :
  Agents.dashboardAgent callLlm toFixed2 company questions providerResults
    = Some result ->
  Forall2 (recommendationFor company) (DashboardResult.insights result)
    (DashboardResult.recommendations result).
Proof.
  unfold Agents.dashboardAgent.
  destruct (Agents.groupScores [] providerResults) as [m|]; [|discriminate].
  intros E. injection E as <-.
  cbn [DashboardResult.insights DashboardResult.recommendations].
  apply resolveAll_for.
Qed.

(** X11.  When the provider answers, the description is either the fixed
    "enhance" text or one to three bullets joined by single spaces; a
    bullet has no white space at its ends and no line feed, bullet sign or
    hyphen, so that the joined description has none of the three either. *)
Theorem enriched_description_is_bullets
    (insight : DashboardInsight.t) (recText : jsstring) :
  callLlm openai (Agents.recommendationPrompt toFixed2 company insight)
    = Some recText ->
  exists r,
    Agents.buildRecommendation callLlm toFixed2 company insight
    = Agents.Fulfilled r
    /\ (Recommendation.description r = Agents.enhance
        \/ exists bullets,
             Recommendation.description r = join (lit " ") bullets
             /\ 1 <= List.length bullets <= 3
             /\ Forall isBullet bullets
             /\ Forall (fun c => bulletSeparator c = false)
                  (Recommendation.description r)).
Proof.
  intros Hcall. unfold Agents.buildRecommendation. cbv zeta. rewrite Hcall.
  eexists. split; [reflexivity|]. cbn [Recommendation.description].
  destruct (bulletsOf_bullets recText) as [Hb Hlen].
  destruct (Agents.bulletsOf recText) as [|b bs] eqn:E.
  - left. reflexivity.
  - right. exists (b :: bs). cbn [List.length Nat.ltb Nat.leb].
    split; [reflexivity|]. split; [cbn [List.length] in *; lia|].
    split; [exact Hb|]. apply join_space_bullets, Hb.
Qed.

End RecommendationFacts2.

Lemma one_recommendation_per_insight_witness :
  Forall2 (recommendationFor sampleCompany)
    (DashboardResult.insights sampleDashboard)
    (DashboardResult.recommendations sampleDashboard).
Proof.
  apply (@one_recommendation_per_insight failingLlm noDigits sampleCompany []
           sampleProviderResults sampleDashboard).
  vm_compute. reflexivity.
Defined.

Lemma enriched_description_is_bullets_witness :
  exists r,
    Agents.buildRecommendation advisingLlm noDigits sampleCompany sampleInsight
    = Agents.Fulfilled r
    /\ (Recommendation.description r = Agents.enhance
        \/ exists bullets,
             Recommendation.description r = join (lit " ") bullets
             /\ 1 <= List.length bullets <= 3
             /\ Forall isBullet bullets
             /\ Forall (fun c => bulletSeparator c = false)
                  (Recommendation.description r)).
Proof.
  apply (@enriched_description_is_bullets advisingLlm noDigits sampleCompany
           sampleInsight (lit "- Publish case studies - Add a pricing page")).
  reflexivity.
Defined.

(** ** Not-a-number in the calculator *)

Lemma add_nan_l (y : number) : add NaN y = NaN.
Proof. reflexivity. Qed.

Lemma add_nan_r (x : number) : add x NaN = NaN.
Proof. destruct x; reflexivity. Qed.

Lemma mul_nan_l (y : number) : mul NaN y = NaN.
Proof. reflexivity. Qed.

Lemma mul_nan_r (x : number) : mul x NaN = NaN.
Proof. destruct x; reflexivity. Qed.

Lemma div_nan_r (x : number) : div x NaN = NaN.
Proof. destruct x; reflexivity. Qed.

Lemma div_nan_l (y : number) : div NaN y = NaN.
Proof. reflexivity. Qed.

Lemma strictEq_nan (y : number) : strictEq NaN y = false.
Proof. reflexivity. Qed.

Lemma baseScore_nan_factor (b : Breakdown.t) (w : Weights.t) :
  hasNaNFactor b -> baseScore b w = NaN.
Proof.
  unfold hasNaNFactor, baseScore.
  intros [H|[H|[H|[H|[H|H]]]]]; rewrite H;
    rewrite ?mul_nan_l, ?add_nan_l, ?add_nan_r; reflexivity.
Qed.

Lemma weightSum_nan (w : Weights.t) : hasNaNWeight w -> weightSum w = NaN.
Proof.
  unfold hasNaNWeight, weightSum.
  intros [H|[H|[H|[H|[H|H]]]]]; rewrite H;
    rewrite ?add_nan_l, ?add_nan_r; reflexivity.
Qed.

Lemma baseScore_nan_weight (b : Breakdown.t) (w : Weights.t) :
  hasNaNWeight w -> baseScore b (normalizeWeights w) = NaN.
Proof.
  intros Hw. unfold normalizeWeights. cbv zeta.
  rewrite (weightSum_nan Hw), strictEq_nan.
  unfold baseScore.
  cbn [Weights.mentionPresence Weights.mentionContext Weights.mentionPosition
       Weights.descriptionDetail Weights.answerRelevance Weights.serviceMatch].
  rewrite !div_nan_r, !mul_nan_r. reflexivity.
Qed.

Lemma score_of_nan_base (b : Breakdown.t) (w : Weights.t) :
  baseScore b (normalizeWeights w) = NaN ->
  calculateVisibilityScore b w = zero.
Proof.
  intros H. unfold calculateVisibilityScore. cbv zeta. rewrite H.
  destruct (gt (Breakdown.mentionPresence b) zero); reflexivity.
Qed.

(** X12.  A NaN among the six factors or among the six weights does not
    propagate: the score is then exactly 0. *)
Theorem nan_input_scores_zero (b : Breakdown.t) (w : Weights.t) :
  hasNaNFactor b \/ hasNaNWeight w ->
  calculateVisibilityScore b w = zero.
Proof.
  intros [H|H]; apply score_of_nan_base.
  - apply baseScore_nan_factor, H.
  - apply baseScore_nan_weight, H.
Qed.

Lemma nan_input_scores_zero_witness :
  calculateVisibilityScore nan_breakdown DEFAULT_SCORING_WEIGHTS = zero.
Proof.
  apply nan_input_scores_zero. left. right. left. reflexivity.
Defined.

(** ** API keys and the choice of a scoring provider *)

(** ** API keys *)

Lemma dropWhile_nil_iff (p : N -> bool) (s : jsstring) :
  dropWhile p s = [] <-> Forall (fun c => p c = true) s.
Proof.
  induction s as [|c s IH]; cbn [dropWhile].
  - split; [constructor|reflexivity].
  - destruct (p c) eqn:H.
    + rewrite IH. split; [intros Hs; constructor; assumption|].
      intros Hs. inversion Hs; assumption.
    + split; [discriminate|]. intros Hs. inversion Hs; congruence.
Qed.

Lemma trim_nil_iff (s : jsstring) :
  trim s = [] <-> Forall (fun c => isWhiteSpace c = true) s.
Proof.
  rewrite <- dropWhile_nil_iff. fold (trimStart s). unfold trim.
  destruct (trimStart s) as [|c r] eqn:E; [tauto|].
  pose proof (dropWhile_head _ _ E) as Hc.
  destruct (@trimEnd_head c r Hc) as [x ->]. split; discriminate.
Qed.

(** X13.  A key counts as configured exactly when it holds a character that
    is not white space: an unset key, an empty key and a key of blanks are
    all missing. *)
Theorem blank_key_is_missing (key : option jsstring) :
  LlmClients.hasValidApiKey key = true
  <-> exists k c, key = Some k /\ In c k /\ isWhiteSpace c = false.
Proof.
  unfold LlmClients.hasValidApiKey. split.
  - destruct key as [[|c k]|]; try discriminate.
    intros H. exists (c :: k).
    destruct (trim (c :: k)) as [|d r] eqn:E; [discriminate|].
    assert (Hn : ~ Forall (fun c => isWhiteSpace c = true) (c :: k)).
    { intros HF. apply trim_nil_iff in HF. congruence. }
    apply neg_Forall_Exists_neg in Hn.
    + apply Exists_exists in Hn. destruct Hn as [x [Hx Hw]].
      exists x. repeat split; [exact Hx|].
      destruct (isWhiteSpace x); congruence.
    + intros x. destruct (isWhiteSpace x); [left; reflexivity|right; discriminate].
  - intros [k [c [-> [Hin Hc]]]].
    destruct k as [|c0 k]; [destruct Hin|].
    destruct (trim (c0 :: k)) as [|d r] eqn:E; [|reflexivity].
    apply trim_nil_iff in E. rewrite Forall_forall in E.
    rewrite (E c Hin) in Hc. discriminate.
Qed.

(** ** Choosing the scoring provider *)

Lemma find_keyed (env : ProcessEnv.t) (l : list LlmClients.ProviderName) :
  match find (LlmClients.hasApiKey env) l with
  | Some n => LlmClients.hasApiKey env n = true
  | None => Forall (fun n => LlmClients.hasApiKey env n = false) l
  end.
Proof.
  induction l as [|n l IH]; cbn [find]; [constructor|].
  destruct (LlmClients.hasApiKey env n) eqn:H; [exact H|].
  destruct (find (LlmClients.hasApiKey env) l); [exact IH|].
  constructor; assumption.
Qed.

Lemma selectScoringProvider_keyed (env : ProcessEnv.t)
    (optionProvider envProvider : option LlmClients.ProviderName)
    (fallbackProvider n : LlmClients.ProviderName) :
  VisibilityScoring.selectScoringProvider env optionProvider envProvider
    fallbackProvider = Some n ->
  LlmClients.hasApiKey env n = true.
Proof.
  unfold VisibilityScoring.selectScoringProvider. cbv zeta.
  destruct (VisibilityScoring.keyed env optionProvider) eqn:Ho.
  - intros ->. exact Ho.
  - destruct (VisibilityScoring.keyed env envProvider) eqn:He.
    + intros ->. exact He.
    + destruct (LlmClients.hasApiKey env fallbackProvider) eqn:Hf.
      * intros E. injection E as <-. exact Hf.
      * pose proof (find_keyed env
          [LlmClients.Known openai; LlmClients.Known anthropic;
           LlmClients.Known gemini]) as H.
        intros E. rewrite E in H. exact H.
Qed.

Lemma selectScoringProvider_none (env : ProcessEnv.t)
    (optionProvider envProvider : option LlmClients.ProviderName)
    (fallbackProvider : LlmClients.ProviderName) :
  VisibilityScoring.selectScoringProvider env optionProvider envProvider
    fallbackProvider = None
  <-> forall p, LlmClients.hasApiKey env (LlmClients.Known p) = false.
Proof.
  unfold VisibilityScoring.selectScoringProvider. cbv zeta. split.
  - destruct (VisibilityScoring.keyed env optionProvider) eqn:Ho.
    { intros E. rewrite E in Ho. discriminate. }
    destruct (VisibilityScoring.keyed env envProvider) eqn:He.
    { intros E. rewrite E in He. discriminate. }
    destruct (LlmClients.hasApiKey env fallbackProvider); [discriminate|].
    pose proof (find_keyed env
      [LlmClients.Known openai; LlmClients.Known anthropic;
       LlmClients.Known gemini]) as H.
    intros E. rewrite E in H.
    inversion H as [|? ? H1 H']; subst. inversion H' as [|? ? H2 H'']; subst.
    inversion H'' as [|? ? H3 _]; subst.
    intros [| |]; assumption.
  - intros Hno.
    assert (Hall : forall n, LlmClients.hasApiKey env n = false).
    { intros [p|s]; [apply Hno|reflexivity]. }
    assert (Hk : forall o, VisibilityScoring.keyed env o = false).
    { intros [n|]; [apply Hall|reflexivity]. }
    rewrite !Hk, Hall. cbn [find]. rewrite !Hno. reflexivity.
Qed.

(** X14.  The provider chosen for scoring always has a key, hence is one of
    the three known providers and never a stray name from the environment;
    and none is chosen exactly when none of the three has a key. *)
Theorem scoring_provider_has_a_key (env : ProcessEnv.t)
    (optionProvider envProvider : option LlmClients.ProviderName)
    (fallbackProvider : LlmClients.ProviderName) :
  let chosen :=
    VisibilityScoring.selectScoringProvider env optionProvider envProvider
      fallbackProvider in
  (forall n, chosen = Some n ->
     LlmClients.hasApiKey env n = true
     /\ exists p, n = LlmClients.Known p)
  /\ (chosen = None
      <-> forall p, LlmClients.hasApiKey env (LlmClients.Known p) = false).
Proof.
  cbv zeta. split; [|apply selectScoringProvider_none].
  intros n Hn. pose proof (selectScoringProvider_keyed _ _ _ _ Hn) as Hk.
  split; [exact Hk|]. destruct n as [p|s]; [eauto|discriminate].
Qed.

(** ** Mock answers and the range of a scored answer *)

(** ** Mock answers *)





Section MockFacts.

Variable responsesCreate : jsstring -> option LlmClients.OpenAIResponse.
Variable messagesCreate : jsstring -> option jsstring.
Variable generateContent : jsstring -> option jsstring.
Variable ToNumber : JsValue -> number.
Variable syntaxErrorMessage : jsstring -> jsstring.


End MockFacts.


(** ** Scoring one answer *)

Section ScoringFacts.

Variable ToNumber : JsValue -> number.
Variable syntaxErrorMessage : jsstring -> jsstring.
Variable coercedFinalScore : Breakdown.t -> JsValue -> option number.
Variable callLlm : LlmProvider -> jsstring -> option jsstring.
Variable env : ProcessEnv.t.

Lemma calculate_range (b : Breakdown.t) (w : VisibilityScoring.ResolvedWeights)
    (score : number) :
  VisibilityScoring.calculate coercedFinalScore b w = Some score ->
  inUnitInterval score.
Proof.
  destruct w as [w|parsed]; cbn [VisibilityScoring.calculate].
  - intros E. injection E as <-. apply calculateVisibilityScore_range.
  - destruct (coercedFinalScore b parsed) as [x|]; cbn [option_map];
      [|discriminate].
    intros E. injection E as <-. apply clamp_inUnitInterval.
Qed.

Lemma orElse_nonempty_string (a b : jsstring) :
  b <> [] -> VisibilityScoring.orElse a b <> [].
Proof. intros Hb. destruct a; cbn; [exact Hb|discriminate]. Qed.

(** The result is the heuristic one, or comes from a parsed breakdown. *)
Lemma scoreAnswerVisibility_cases
    (provider : LlmProvider) (company : CompanyProfile.t)
    (question : GeneratedQuestion.t) (answer : jsstring)
    (options : option VisibilityScoring.VisibilityScoringOptions)
    (heuristicScore : number) (heuristicRationale : jsstring) :
  let result :=
    VisibilityScoring.scoreAnswerVisibility ToNumber syntaxErrorMessage
      coercedFinalScore callLlm env provider company question answer options
      heuristicScore heuristicRationale in
  result = heuristicResult heuristicScore heuristicRationale
  \/ exists scoringProvider response b w score,
       LlmClients.hasApiKey env (LlmClients.Known scoringProvider) = true
       /\ callLlm scoringProvider
            (VisibilityScoring.buildScoringPrompt company question answer)
          = Some response
       /\ (let parsed :=
             fst (ScoringParser.parseScoringResponse ToNumber syntaxErrorMessage
                    response) in
           ScoringParser.success parsed = true
           /\ ScoringParser.breakdown parsed = Some b)
       /\ VisibilityScoring.calculate coercedFinalScore b w = Some score
       /\ result
          = VisibilityScoring.mkResult score (Some b)
              (VisibilityScoring.orElse (Breakdown.rationale b)
                 heuristicRationale).
Proof.
  cbv zeta. unfold VisibilityScoring.scoreAnswerVisibility. cbv zeta.
  match goal with |- context [negb ?e] => destruct e end; cbn [negb];
    [|left; reflexivity].
  match goal with
  | |- context [VisibilityScoring.selectScoringProvider ?e ?o ?v ?f] =>
      destruct (VisibilityScoring.selectScoringProvider e o v f) as [n|] eqn:Hsel
  end; [|left; reflexivity].
  pose proof (selectScoringProvider_keyed _ _ _ _ Hsel) as Hkey.
  destruct n as [p|s]; [|discriminate].
  cbn [VisibilityScoring.callNamed].
  destruct (callLlm p _) as [response|] eqn:Hcall; [|left; reflexivity].
  destruct (fst (ScoringParser.parseScoringResponse ToNumber syntaxErrorMessage
                   response)) as [ok bd err] eqn:Hp.
  cbn [ScoringParser.success ScoringParser.breakdown].
  destruct ok; [|left; reflexivity].
  destruct bd as [b|]; [|left; reflexivity].
  destruct (VisibilityScoring.calculate coercedFinalScore b
              (VisibilityScoring.resolveWeights env options))
    as [score|] eqn:Hscore; [|left; reflexivity].
  right.
  exists p, response, b, (VisibilityScoring.resolveWeights env options), score.
  cbv zeta. rewrite Hp. cbn [ScoringParser.success ScoringParser.breakdown].
  repeat split; try assumption.
Qed.


End ScoringFacts.

(** ** An array inside prose *)

(** ** An array inside prose *)

Lemma trimEnd_app_keep (a : jsstring) (c : N) (b : jsstring) :
  isWhiteSpace c = false -> trimEnd (a ++ c :: b) = a ++ c :: trimEnd b.
Proof.
  intros H. unfold trimEnd. rewrite rev_app_distr. cbn [rev].
  rewrite <- app_assoc. cbn [app].
  assert (E : forall l t, dropWhile isWhiteSpace (l ++ c :: t)
                          = dropWhile isWhiteSpace l ++ c :: t
                            \/ dropWhile isWhiteSpace l = []).
  { induction l as [|x l IH]; intros t; [right; reflexivity|].
    cbn [app dropWhile]. destruct (isWhiteSpace x); [apply IH|left; reflexivity]. }
  destruct (E (rev b) (rev a)) as [->|Hnil].
  - rewrite rev_app_distr. cbn [rev]. rewrite rev_involutive, <- app_assoc.
    reflexivity.
  - rewrite Hnil. cbn [rev app].
    assert (Hd : dropWhile isWhiteSpace (rev b ++ c :: rev a) = c :: rev a).
    { clear E. revert Hnil. generalize (rev b). induction l as [|x l IH];
        cbn [app dropWhile]; [rewrite H; reflexivity|].
      destruct (isWhiteSpace x); [exact IH|discriminate]. }
    rewrite Hd. cbn [rev]. rewrite rev_involutive. reflexivity.
Qed.

Lemma forallb_dropWhile (P p : N -> bool) (s : jsstring) :
  forallb P s = true -> forallb P (dropWhile p s) = true.
Proof.
  induction s as [|c s IH]; cbn [forallb dropWhile]; [reflexivity|].
  intros H. apply andb_true_iff in H. destruct H as [Hc Hs].
  destruct (p c); [apply IH, Hs|]. cbn [forallb]. rewrite Hc, Hs. reflexivity.
Qed.

Lemma forallb_rev (P : N -> bool) (s : jsstring) :
  forallb P s = true -> forallb P (rev s) = true.
Proof.
  rewrite !forallb_forall. intros H x Hx. apply H, in_rev, Hx.
Qed.

Lemma forallb_trimEnd (P : N -> bool) (s : jsstring) :
  forallb P s = true -> forallb P (trimEnd s) = true.
Proof.
  intros H. unfold trimEnd. apply forallb_rev, forallb_dropWhile, forallb_rev, H.
Qed.

Section ArrayMatch.

Variable input : jsstring.

Lemma bracket_after_space_none (s0 x : jsstring) (cap : option jsstring) :
  forallb (fun c => negb (c =? 93)%N) x = true ->
  RegExp.run input false
    (RegExp.Seq (RegExp.StarGreedy RegExp.whiteSpace) (RegExp.Char 93))
    x cap (found input s0) = None.
Proof.
  rewrite run_Seq. cbn [RegExp.run].
  induction x as [|c x IH]; cbn [forallb RegExp.starGreedy]; [reflexivity|].
  intros H. apply andb_true_iff in H. destruct H as [Hc Hx].
  assert (Hk : RegExp.run input false (RegExp.Char 93) (c :: x) cap (found input s0)
               = None).
  { cbn [RegExp.run RegExp.charMatches]. rewrite N.eqb_sym.
    apply negb_true_iff in Hc. rewrite Hc. reflexivity. }
  destruct (RegExp.whiteSpace c); [|exact Hk].
  rewrite (IH Hx). exact Hk.
Qed.

Lemma closing_none (s0 x : jsstring) (cap : option jsstring) :
  forallb (fun c => negb (c =? 93)%N) x = true ->
  RegExp.starGreedy RegExp.anyChar x cap
    (fun s' cap' => RegExp.run input false arrayClosing s' cap' (found input s0))
  = None.
Proof.
  induction x as [|c x IH]; cbn [forallb RegExp.starGreedy]; [reflexivity|].
  intros H. apply andb_true_iff in H. destruct H as [Hc Hx].
  rewrite anyChar_true, (IH Hx).
  unfold arrayClosing. rewrite run_Seq, run_Char.
  destruct (RegExp.charMatches false 125 c); [|reflexivity].
  apply bracket_after_space_none, Hx.
Qed.

Lemma matchAt_array_in_prose (mid suffix : jsstring) :
  forallb (fun c => negb (c =? 93)%N) suffix = true ->
  let J := 91%N :: 123%N :: mid ++ [125%N; 93%N] in
  exists m,
    RegExp.matchAt arrayRegex input (J ++ suffix) = Some m
    /\ RegExp.matched m = J.
Proof.
  intros Hs J. eexists. split.
  - unfold RegExp.matchAt. rewrite arrayRegex_source.
    change (RegExp.ignoreCase arrayRegex) with false.
    fold (found input (J ++ suffix)).
    assert (E : J ++ suffix = 91%N :: 123%N :: mid ++ 125%N :: 93%N :: suffix).
    { subst J. cbn [app]. rewrite <- app_assoc. reflexivity. }
    rewrite E at 1.
    rewrite run_Seq, run_Char. cbn [RegExp.charMatches N.eqb Pos.eqb].
    rewrite run_Seq, run_StarGreedy_cons.
    change (RegExp.whiteSpace 123%N) with false. cbv iota.
    rewrite run_Seq, run_Char. cbn [RegExp.charMatches N.eqb Pos.eqb].
    rewrite run_Seq.
    change (RegExp.run input false (RegExp.StarGreedy RegExp.anyChar)
              (mid ++ 125%N :: 93%N :: suffix) None)
      with (RegExp.starGreedy (R:=RegExp.MatchResult) RegExp.anyChar
              (mid ++ 125%N :: 93%N :: suffix) None).
    apply starGreedy_any_app.
    cbn [RegExp.starGreedy]. rewrite !anyChar_true.
    fold arrayClosing.
    rewrite (closing_none (J ++ suffix) suffix None Hs).
    unfold arrayClosing at 1. rewrite run_Seq, run_Char.
    change (RegExp.charMatches false 125 93) with false. cbv iota.
    unfold arrayClosing. rewrite run_Seq, run_Char.
    change (RegExp.charMatches false 125 125) with true. cbv iota.
    rewrite run_Seq, run_StarGreedy_cons.
    change (RegExp.whiteSpace 93%N) with false. cbv iota.
    rewrite run_Char.
    change (RegExp.charMatches false 93 93) with true. cbv iota.
    reflexivity.
  - cbn [RegExp.matched]. apply consumed_app.
Qed.

End ArrayMatch.

Lemma exec_array_in_prose (prefix mid suffix : jsstring) :
  forallb (fun c => negb (c =? 91)%N) prefix = true ->
  forallb (fun c => negb (c =? 93)%N) suffix = true ->
  let J := 91%N :: 123%N :: mid ++ [125%N; 93%N] in
  exists m,
    RegExp.exec arrayRegex (prefix ++ J ++ suffix) = Some m
    /\ RegExp.matched m = J.
Proof.
  intros Hp Hs J. unfold RegExp.exec.
  generalize (prefix ++ J ++ suffix) at 1. intros input.
  destruct (matchAt_array_in_prose input mid suffix Hs) as [m [Hm Hmatched]].
  exists m. split; [|exact Hmatched].
  induction prefix as [|c prefix IH]; cbn [app].
  - apply execFrom_hit. exact Hm.
  - cbn [forallb] in Hp. apply andb_true_iff in Hp. destruct Hp as [Hc Hp].
    rewrite execFrom_miss.
    + apply IH, Hp.
    + apply matchAt_array_miss. rewrite N.eqb_sym. apply negb_true_iff, Hc.
Qed.

(** A text without backticks holds no fenced block. *)
Lemma block_miss (R : Type) (input : jsstring) (icase : bool)
    (opening : jsstring) (rest : RegExp.pattern) (s : jsstring)
    (k : RegExp.Cont R) :
  match s with c :: _ => (96 =? c)%N = false | [] => True end ->
  RegExp.run input icase
    (RegExp.Seq (RegExp.literal (96%N :: opening)) rest) s None k = None.
Proof.
  intros H. rewrite run_Seq. cbn [RegExp.literal]. rewrite run_Seq.
  destruct s as [|c t]; [reflexivity|].
  rewrite run_Char, charMatches_backtick, H. reflexivity.
Qed.

Lemma execFrom_without_backticks (re : RegExp.regexp) (opening : jsstring)
    (rest : RegExp.pattern) (input s : jsstring) :
  RegExp.source re = RegExp.Seq (RegExp.literal (96%N :: opening)) rest ->
  forallb (fun c => negb (c =? 96)%N) s = true ->
  RegExp.execFrom re input s = None.
Proof.
  intros Hsrc.
  induction s as [|c s IH]; cbn [forallb RegExp.execFrom]; intros H.
  - unfold RegExp.matchAt. rewrite Hsrc, block_miss; [reflexivity|exact I].
  - apply andb_true_iff in H. destruct H as [Hc Hs].
    unfold RegExp.matchAt. rewrite Hsrc, block_miss.
    + apply IH, Hs.
    + rewrite N.eqb_sym. apply negb_true_iff, Hc.
Qed.

Lemma no_block_without_backticks (s : jsstring) :
  forallb (fun c => negb (c =? 96)%N) s = true ->
  RegExp.exec jsonBlockRegex s = None /\ RegExp.exec codeBlockRegex s = None.
Proof.
  intros H. unfold RegExp.exec. split.
  - apply (@execFrom_without_backticks jsonBlockRegex (lit "``json")
             (RegExp.Seq (RegExp.StarGreedy RegExp.whiteSpace) captureThenClose));
      [reflexivity|exact H].
  - apply (@execFrom_without_backticks codeBlockRegex (lit "``")
             (RegExp.Seq (RegExp.StarGreedy RegExp.whiteSpace) captureThenClose));
      [reflexivity|exact H].
Qed.

(** The JSON text of questions without backticks has none. *)
Lemma quoteChars_backtickFree (n : nat) :
  forall s, List.length s <= n ->
    forallb (fun c => negb (c =? 96)%N) s = true ->
    forallb (fun c => negb (c =? 96)%N) (quoteChars s) = true.
Proof.
  assert (Hhex : forall k, (k < 16)%N -> negb (hexDigit k =? 96)%N = true).
  { intros k Hk. unfold hexDigit. apply negb_true_iff, N.eqb_neq.
    destruct (k <? 10)%N eqn:E; [apply N.ltb_lt in E|apply N.ltb_ge in E]; lia. }
  assert (Hesc : forall c, forallb (fun c => negb (c =? 96)%N) (unicodeEscape c)
                           = true).
  { intros c. unfold unicodeEscape. cbn [forallb].
    rewrite !Hhex by (apply N.mod_lt; discriminate). reflexivity. }
  assert (Hunit : forall c, negb (c =? 96)%N = true ->
            forallb (fun c => negb (c =? 96)%N) (quoteUnit c) = true).
  { intros c Hc. unfold quoteUnit.
    repeat match goal with
           | |- context [if ?b then _ else _] => destruct b; [reflexivity|]
           end.
    destruct (_ || _); [apply Hesc|]. cbn [forallb]. rewrite Hc. reflexivity. }
  induction n as [|n IH]; intros s Hlen Hs.
  - destruct s; [reflexivity|cbn [List.length] in Hlen; lia].
  - destruct s as [|c s1]; [reflexivity|].
    cbn [forallb] in Hs. apply andb_true_iff in Hs. destruct Hs as [Hc Hs1].
    cbn [List.length] in Hlen. cbn [quoteChars].
    destruct (isHighSurrogate c).
    + destruct s1 as [|d s2]; [apply Hesc|].
      cbn [forallb] in Hs1. apply andb_true_iff in Hs1.
      destruct Hs1 as [Hd Hs2]. cbn [List.length] in Hlen.
      destruct (isLowSurrogate d).
      * cbn [forallb]. rewrite Hc, Hd. apply IH; [lia|exact Hs2].
      * rewrite forallb_app, Hesc. apply IH; [cbn [List.length]; lia|].
        cbn [forallb]. rewrite Hd, Hs2. reflexivity.
    + rewrite forallb_app, (Hunit c Hc). apply IH; [lia|exact Hs1].
Qed.

Lemma QuoteJSONString_backtickFree (s : jsstring) :
  forallb (fun c => negb (c =? 96)%N) s = true ->
  forallb (fun c => negb (c =? 96)%N) (QuoteJSONString s) = true.
Proof.
  intros H. unfold QuoteJSONString. cbn [forallb].
  rewrite forallb_app, (@quoteChars_backtickFree (List.length s) s (le_n _) H).
  reflexivity.
Qed.

Lemma questionText_backtickFree (q : RawQuestion) :
  backtickFree q = true ->
  forallb (fun c => negb (c =? 96)%N) (questionText q) = true.
Proof.
  unfold backtickFree. rewrite !forallb_app, !andb_true_iff.
  intros [Ht [Hi Hl]]. unfold questionText.
  rewrite !forallb_app.
  rewrite (QuoteJSONString_backtickFree _ Ht),
          (QuoteJSONString_backtickFree _ Hi),
          (QuoteJSONString_backtickFree _ Hl).
  reflexivity.
Qed.

Lemma join_backtickFree (l : list jsstring) :
  forallb (forallb (fun c => negb (c =? 96)%N)) l = true ->
  forallb (fun c => negb (c =? 96)%N) (join (lit ",") l) = true.
Proof.
  induction l as [|a l IH]; [reflexivity|].
  cbn [forallb join]. intros H. apply andb_true_iff in H. destruct H as [Ha Hl].
  destruct l as [|b l']; [exact Ha|].
  rewrite !forallb_app, Ha, (IH Hl). reflexivity.
Qed.

Lemma JSON_stringify_backtickFree (qs : list RawQuestion) :
  forallb backtickFree qs = true ->
  forallb (fun c => negb (c =? 96)%N) (JSON_stringify qs) = true.
Proof.
  intros H. unfold JSON_stringify. rewrite !forallb_app.
  rewrite join_backtickFree; [reflexivity|].
  rewrite forallb_forall in *. intros t Ht.
  apply in_map_iff in Ht. destruct Ht as [q [<- Hq]].
  apply questionText_backtickFree, H, Hq.
Qed.

Lemma capital_cases (c : N) :
  inRange 65 90 c = true -> In c (map N.of_nat (seq 65 26)).
Proof.
  intros Hc. unfold inRange in Hc. apply andb_true_iff in Hc.
  destruct Hc as [H1 H2]. apply N.leb_le in H1. apply N.leb_le in H2.
  rewrite <- (N2Nat.id c). apply in_map, in_seq. lia.
Qed.

Lemma JSON_parse_capital (c : N) (s : jsstring) :
  inRange 65 90 c = true -> JSON_parse (c :: s) = None.
Proof.
  intros Hc. apply capital_cases in Hc.
  unfold JSON_parse.
  assert (Hv : forall f, parseValue f (c :: s) = None).
  { intros [|f]; [reflexivity|].
    cbn [map seq] in Hc. cbn in Hc.
    repeat (destruct Hc as [<-|Hc]; [reflexivity|]).
    destruct Hc. }
  rewrite Hv. reflexivity.
Qed.

(** X17.  An array of questions inside prose is found by the last strategy:
    when the prose before it starts with a capital letter and has no
    opening bracket, the prose after it has no closing bracket, and there
    is no backtick anywhere, the parser returns the questions of the
    array, in order. *)
Theorem array_in_prose_is_extracted (qs : list RawQuestion)
    (prefix suffix : jsstring) :
  qs <> [] ->
  leadingProse prefix = true ->
  trailingProse suffix = true ->
  forallb backtickFree qs = true ->
  fst (parseQuestionResponse (prefix ++ JSON_stringify qs ++ suffix))
  = parsedArray (map questionValue qs).
Proof.
  intros Hne Hp Hs Hq.
  unfold leadingProse in Hp. apply andb_true_iff in Hp. destruct Hp as [Hc Hp].
  destruct prefix as [|c p]; [discriminate|].
  assert (Hcw : isWhiteSpace c = false).
  { unfold inRange in Hc. apply andb_true_iff in Hc. destruct Hc as [H1 H2].
    apply N.leb_le in H1. apply N.leb_le in H2.
    unfold isWhiteSpace, inRange.
    repeat (apply orb_false_iff; split);
      try (apply andb_false_iff;
           (left; apply N.leb_gt; lia) || (right; apply N.leb_gt; lia));
      apply N.eqb_neq; lia. }
  destruct (JSON_stringify_shape Hne) as [mid EJ].
  assert (Hsplit3 : forall P : N -> bool,
            forallb P ((c :: p) ++ JSON_stringify qs ++ trimEnd suffix)
            = forallb P (c :: p) && forallb P (JSON_stringify qs)
              && forallb P (trimEnd suffix)).
  { intros P. rewrite !forallb_app, andb_assoc. reflexivity. }
  assert (Htrim : trim ((c :: p) ++ JSON_stringify qs ++ suffix)
                  = (c :: p) ++ JSON_stringify qs ++ trimEnd suffix).
  { unfold trim. cbn [app]. rewrite trimStart_head by exact Hcw.
    rewrite EJ.
    replace (c :: p ++ (91%N :: 123%N :: mid ++ [125%N; 93%N]) ++ suffix)
      with ((c :: p ++ 91%N :: 123%N :: mid ++ [125%N]) ++ 93%N :: suffix)
      by (cbn [app]; rewrite <- !app_assoc; cbn [app];
          rewrite <- !app_assoc; reflexivity).
    rewrite trimEnd_app_keep by reflexivity.
    cbn [app]. rewrite <- !app_assoc. cbn [app]. rewrite <- !app_assoc.
    reflexivity. }
  unfold trailingProse in Hs.
  assert (Hp91 : forallb (fun c => negb (c =? 91)%N) (c :: p) = true).
  { rewrite forallb_forall in *. intros x Hx. specialize (Hp x Hx).
    apply andb_true_iff in Hp. apply Hp. }
  assert (Hp96 : forallb (fun c => negb (c =? 96)%N) (c :: p) = true).
  { rewrite forallb_forall in *. intros x Hx. specialize (Hp x Hx).
    apply andb_true_iff in Hp. apply Hp. }
  assert (Hs93 : forallb (fun c => negb (c =? 93)%N) (trimEnd suffix) = true).
  { apply forallb_trimEnd. rewrite forallb_forall in *. intros x Hx.
    specialize (Hs x Hx). apply andb_true_iff in Hs. apply Hs. }
  assert (Hs96 : forallb (fun c => negb (c =? 96)%N) (trimEnd suffix) = true).
  { apply forallb_trimEnd. rewrite forallb_forall in *. intros x Hx.
    specialize (Hs x Hx). apply andb_true_iff in Hs. apply Hs. }
  assert (Hall96 : forallb (fun c => negb (c =? 96)%N)
                     ((c :: p) ++ JSON_stringify qs ++ trimEnd suffix) = true).
  { rewrite Hsplit3, Hp96, Hs96, (JSON_stringify_backtickFree _ Hq).
    reflexivity. }
  unfold parseQuestionResponse. cbn [app]. cbv zeta.
  change (c :: p ++ JSON_stringify qs ++ suffix)
    with ((c :: p) ++ JSON_stringify qs ++ suffix).
  rewrite Htrim.
  assert (Hstart : startsWith ((c :: p) ++ JSON_stringify qs ++ trimEnd suffix)
                     (lit "[") = false).
  { cbn [app]. unfold startsWith. cbn [lit map list_ascii_of_string stripPrefix].
    cbn [forallb] in Hp91. apply andb_true_iff in Hp91.
    destruct Hp91 as [Hc91 _]. apply negb_true_iff in Hc91.
    change (N_of_ascii "["%char) with 91%N. rewrite N.eqb_sym, Hc91.
    reflexivity. }
  rewrite Hstart. cbn [andb].
  rewrite fst_bind, tryParseArray_result.
  cbn [app]. rewrite (@JSON_parse_capital c _ Hc).
  change (c :: p ++ JSON_stringify qs ++ trimEnd suffix)
    with ((c :: p) ++ JSON_stringify qs ++ trimEnd suffix).
  destruct (no_block_without_backticks _ Hall96) as [H2 H3].
  unfold strategy2. rewrite H2. cbn [truthyGroup].
  unfold strategy3. rewrite H3. cbn [truthyGroup].
  unfold strategy4.
  rewrite EJ.
  destruct (exec_array_in_prose (c :: p) mid (trimEnd suffix) Hp91 Hs93)
    as [m [-> Hm]].
  rewrite fst_bind, tryParseArray_result, Hm, <- EJ, JSON_parse_stringify.
  reflexivity.
Qed.

Lemma array_in_prose_is_extracted_witness :
  fst (parseQuestionResponse
         (lit "Here are the questions: "
          ++ JSON_stringify
               [mkRawQuestion (lit "Who offers managed backup near me?")
                  (lit "find_service") (lit "en")]
          ++ lit " Hope this helps."))
  = parsedArray
      (map questionValue
         [mkRawQuestion (lit "Who offers managed backup near me?")
            (lit "find_service") (lit "en")]).
Proof.
  apply array_in_prose_is_extracted; [discriminate| | |]; reflexivity.
Defined.

(** ** The heuristic fallback of the scoring *)

Section ScoringFallback.

Variable ToNumber : JsValue -> number.
Variable syntaxErrorMessage : jsstring -> jsstring.
Variable coercedFinalScore : Breakdown.t -> JsValue -> option number.
Variable callLlm : LlmProvider -> jsstring -> option jsstring.
Variable env : ProcessEnv.t.


End ScoringFallback.


(** ** The visibility agent *)

Section VisibilityAgentFacts.

Variable toLowerCase : jsstring -> jsstring.
Variable ToNumber : JsValue -> number.
Variable syntaxErrorMessage : jsstring -> jsstring.
Variable coercedFinalScore : Breakdown.t -> JsValue -> option number.
Variable callLlm : LlmProvider -> jsstring -> option jsstring.
Variable env : ProcessEnv.t.

Lemma heuristicScore_range (company : CompanyProfile.t) (answer : jsstring) :
  inUnitInterval (Agents.heuristicScore toLowerCase company answer).
Proof.
  unfold Agents.heuristicScore.
  destruct (Agents.companyMentioned toLowerCase company answer),
    (Agents.serviceMatched toLowerCase company answer);
    cbn [andb]; split; vm_compute; reflexivity.
Qed.

Lemma heuristicRationale_nonempty (company : CompanyProfile.t)
    (answer : jsstring) :
  Agents.heuristicRationale toLowerCase company answer <> [].
Proof. unfold Agents.heuristicRationale. discriminate. Qed.

Lemma relatedService_member (company : CompanyProfile.t)
    (question : GeneratedQuestion.t) :
  match CompanyProfile.services company with
  | [] => VisibilityAgent.relatedService toLowerCase company question = None
  | _ :: _ =>
      exists service,
        VisibilityAgent.relatedService toLowerCase company question
        = Some service
        /\ In service (CompanyProfile.services company)
  end.
Proof.
  unfold VisibilityAgent.relatedService.
  destruct (CompanyProfile.services company) as [|s0 rest] eqn:Es;
    [reflexivity|].
  destruct (find _ (s0 :: rest)) as [s|] eqn:Ef.
  - exists s. split; [reflexivity|]. apply find_some in Ef. apply Ef.
  - exists s0. split; [reflexivity|left; reflexivity].
Qed.

Lemma answerFrom_spec (provider : LlmProvider) (company : CompanyProfile.t)
    (questions : list GeneratedQuestion.t) :
  forall answers scores,
    match VisibilityAgent.answerFrom toLowerCase ToNumber syntaxErrorMessage
            coercedFinalScore callLlm env provider company questions answers
            scores with
    | Agents.Fulfilled r =>
        exists newAnswers newScores,
          r = VisibilityAgent.mkResult provider (answers ++ newAnswers)
                (scores ++ newScores)
          /\ Forall2 (answerTo callLlm provider company) questions newAnswers
          /\ List.length newScores = List.length questions
          /\ Forall (scoreFor provider company) newScores
    | Agents.Rejected => Exists (unanswered callLlm provider company) questions
    end.
Proof.
  induction questions as [|question rest IH]; intros answers scores;
    cbn [VisibilityAgent.answerFrom].
  - exists [], []. rewrite !app_nil_r. repeat split; constructor.
  - destruct (callLlm provider (VisibilityAgent.answerPrompt company question))
      as [answer|] eqn:Hcall; [|left; exact Hcall].
    cbv zeta.
    match goal with
    | |- match VisibilityAgent.answerFrom _ _ _ _ _ _ _ _ _ ?a ?s with _ => _ end =>
        specialize (IH a s);
        destruct (VisibilityAgent.answerFrom toLowerCase ToNumber
                    syntaxErrorMessage coercedFinalScore callLlm env provider
                    company rest a s) as [r|]
    end; [|right; exact IH].
    destruct IH as [As [Ss [-> [HA [HL HS]]]]].
    eexists (_ :: As), (_ :: Ss). rewrite <- !app_assoc. cbn [app].
    split; [reflexivity|]. split; [|split].
    + constructor; [|exact HA]. repeat split. exact Hcall.
    + cbn [List.length]. rewrite HL. reflexivity.
    + constructor; [|exact HS].
      unfold scoreFor. cbn [VisibilityAgent.scoredBy VisibilityAgent.score
        VisibilityAgent.rationale VisibilityAgent.service].
      split; [reflexivity|].
      destruct (scoreAnswerVisibility_cases ToNumber syntaxErrorMessage
                  coercedFinalScore callLlm env provider company question
                  answer None
                  (Agents.heuristicScore toLowerCase company answer)
                  (Agents.heuristicRationale toLowerCase company answer))
        as [->|[p [response [b [w [sc [_ [_ [_ [Hsc ->]]]]]]]]]];
        cbn [heuristicResult VisibilityScoring.score VisibilityScoring.rationale].
      * split; [apply heuristicScore_range|].
        split; [apply heuristicRationale_nonempty|].
        apply relatedService_member.
      * split; [exact (calculate_range _ _ _ Hsc)|].
        split; [apply orElse_nonempty_string, heuristicRationale_nonempty|].
      apply relatedService_member.
Qed.


(** X20.  The visibility agent fails exactly when the provider rejects the
    prompt of one of the questions; scoring never makes it fail. *)
Theorem visibility_agent_fails_with_provider
    (provider : LlmProvider) (company : CompanyProfile.t)
    (questions : list GeneratedQuestion.t) :
  VisibilityAgent.visibilityAgentForProvider toLowerCase ToNumber
    syntaxErrorMessage coercedFinalScore callLlm env provider company questions
  = Agents.Rejected
  <-> Exists (unanswered callLlm provider company) questions.
Proof.
  unfold VisibilityAgent.visibilityAgentForProvider.
  pose proof (answerFrom_spec provider company questions [] []) as H.
  destruct (VisibilityAgent.answerFrom toLowerCase ToNumber syntaxErrorMessage
              coercedFinalScore callLlm env provider company questions [] [])
    as [r|].
  - split; [discriminate|]. intros Hex. exfalso.
    destruct H as [As [Ss [_ [HA _]]]].
    clear - HA Hex. induction HA as [|q a qs As' [_ [_ Hq]] _ IH].
    + inversion Hex.
    + inversion Hex as [? ? Hu|? ? Hrest]; subst.
      * unfold unanswered in Hu. congruence.
      * exact (IH Hrest).
  - split; [intros _; exact H|reflexivity].
Qed.

End VisibilityAgentFacts.


(** ** The template questions *)

(** ** Indices in templates *)

Lemma lit_inj (a b : string) : lit a = lit b -> a = b.
Proof.
  unfold lit. intros H.
  rewrite <- (string_of_list_ascii_of_string a),
          <- (string_of_list_ascii_of_string b).
  f_equal. revert H.
  generalize (list_ascii_of_string a) (list_ascii_of_string b).
  induction l as [|x l IH]; intros [|y l']; cbn [map]; try discriminate;
    [reflexivity|].
  intros E. injection E as Hxy Hl. f_equal; [|apply IH, Hl].
  rewrite <- (ascii_N_embedding x), <- (ascii_N_embedding y), Hxy. reflexivity.
Qed.

Lemma indexToString_inj (a b : nat) :
  Arr.indexToString a = Arr.indexToString b -> a = b.
Proof.
  unfold Arr.indexToString. intros H. apply lit_inj in H.
  assert (Hu : Nat.to_uint a = Nat.to_uint b).
  { pose proof (DecimalString.NilEmpty.usu (Nat.to_uint a)) as Ha.
    pose proof (DecimalString.NilEmpty.usu (Nat.to_uint b)) as Hb.
    rewrite H in Ha. congruence. }
  rewrite <- (DecimalNat.Unsigned.of_to a), <- (DecimalNat.Unsigned.of_to b), Hu. reflexivity.
Qed.

Lemma uint_digits (d : Decimal.uint) :
  Forall (fun c => isDigit c = true) (lit (DecimalString.NilEmpty.string_of_uint d)).
Proof.
  induction d; cbn [DecimalString.NilEmpty.string_of_uint]; unfold lit in *;
    cbn [list_ascii_of_string map]; constructor; try assumption; reflexivity.
Qed.

Lemma indexToString_digits (n : nat) :
  Forall (fun c => isDigit c = true) (Arr.indexToString n).
Proof. apply uint_digits. Qed.

(** Two texts that start with digits and a hyphen agree on the digits. *)
Lemma digits_then_hyphen (a b x y : jsstring) :
  Forall (fun c => isDigit c = true) a ->
  Forall (fun c => isDigit c = true) b ->
  a ++ 45%N :: x = b ++ 45%N :: y -> a = b /\ x = y.
Proof.
  intros Ha. revert b. induction Ha as [|c a Hc Ha IH]; intros b Hb E.
  - destruct Hb as [|d b Hd Hb]; cbn [app] in E.
    + injection E as ->. auto.
    + injection E as <- _. discriminate.
  - destruct Hb as [|d b Hd Hb]; cbn [app] in E.
    + injection E as -> _. discriminate.
    + injection E as -> E. destruct (IH b Hb E) as [-> ->]. auto.
Qed.

(** ** Template questions *)

Lemma flatMapFrom_ids (services : list jsstring) :
  forall idx id,
    In id (map GeneratedQuestion.id
             (Arr.flatMapFrom QuestionGeneration.templatesFor idx services)) ->
    exists j k, idx <= j /\ id = Arr.indexToString j ++ 45%N :: k.
Proof.
  induction services as [|s rest IH]; intros idx id; cbn [Arr.flatMapFrom map].
  - intros [].
  - rewrite map_app, in_app_iff. intros [H|H].
    + cbn in H. destruct H as [<-|[<-|[<-|[]]]]; exists idx; eexists;
        (split; [lia|reflexivity]).
    + destruct (IH _ _ H) as [j [k [Hj ->]]]. exists j, k. split; [lia|reflexivity].
Qed.

Lemma templatesFor_ids_NoDup (s : jsstring) (idx : nat) :
  NoDup (map GeneratedQuestion.id (QuestionGeneration.templatesFor s idx)).
Proof.
  cbn. pose proof (indexToString_digits idx) as Hd.
  assert (Hne : forall k k', k <> k' ->
            Arr.indexToString idx ++ 45%N :: k
            <> Arr.indexToString idx ++ 45%N :: k').
  { intros k k' Hk E. apply (digits_then_hyphen _ _ Hd Hd) in E. tauto. }
  repeat constructor; cbn [In]; intros H;
    repeat match goal with
           | H : _ \/ _ |- _ => destruct H as [H|H]
           | H : False |- _ => destruct H
           | H : Arr.indexToString idx ++ _ = Arr.indexToString idx ++ _ |- _ =>
               revert H; apply Hne; discriminate
           end.
Qed.

Lemma flatMapFrom_ids_NoDup (services : list jsstring) :
  forall idx,
    NoDup (map GeneratedQuestion.id
             (Arr.flatMapFrom QuestionGeneration.templatesFor idx services)).
Proof.
  induction services as [|s rest IH]; intros idx; cbn [Arr.flatMapFrom map].
  - constructor.
  - rewrite map_app. apply NoDup_app.
    + apply templatesFor_ids_NoDup.
    + apply IH.
    + intros id Hin Hrest.
      destruct (flatMapFrom_ids _ _ _ Hrest) as [j [k [Hj ->]]].
      cbn in Hin.
      assert (Hne : forall k', Arr.indexToString idx ++ 45%N :: k'
                               <> Arr.indexToString j ++ 45%N :: k).
      { intros k' E.
        apply (digits_then_hyphen _ _ (indexToString_digits idx)
                 (indexToString_digits j)) in E.
        destruct E as [E _]. apply indexToString_inj in E. lia. }
      destruct Hin as [H|[H|[H|[]]]]; revert H; apply Hne.
Qed.

Lemma flatMapFrom_length (services : list jsstring) :
  forall idx,
    List.length (Arr.flatMapFrom QuestionGeneration.templatesFor idx services)
    = 3 * List.length services.
Proof.
  induction services as [|s rest IH]; intros idx; cbn [Arr.flatMapFrom];
    [reflexivity|].
  rewrite length_app, IH. cbn [List.length QuestionGeneration.templatesFor]. lia.
Qed.

Lemma flatMapFrom_english (services : list jsstring) :
  forall idx,
    Forall (fun q => GeneratedQuestion.language q = lit "en"
                     /\ In (GeneratedQuestion.intent q)
                          QuestionValidator.VALID_INTENTS)
      (Arr.flatMapFrom QuestionGeneration.templatesFor idx services).
Proof.
  induction services as [|s rest IH]; intros idx; cbn [Arr.flatMapFrom];
    [constructor|].
  apply Forall_app. split; [|apply IH].
  repeat constructor; cbn; tauto.
Qed.

(** X21.  The template questions are three per service, in the order of the
    services; their ids are pairwise distinct; each is in English and has
    one of the valid intents. *)
Theorem template_questions_are_distinct (company : CompanyProfile.t) :
  let questions := QuestionGeneration.generateTemplateQuestions company in
  List.length questions = 3 * List.length (CompanyProfile.services company)
  /\ NoDup (map GeneratedQuestion.id questions)
  /\ Forall (fun q => GeneratedQuestion.language q = lit "en"
                      /\ In (GeneratedQuestion.intent q)
                           QuestionValidator.VALID_INTENTS) questions.
Proof.
  cbv zeta. unfold QuestionGeneration.generateTemplateQuestions.
  split; [apply flatMapFrom_length|].
  split; [apply flatMapFrom_ids_NoDup|apply flatMapFrom_english].
Qed.

(** ** The template questions and the validator *)

(** ** Template questions and the validator *)

Lemma lengths_within_default_bounds (n : nat) :
  10 <= n <= 200 ->
  lt (ofZ (Z.of_nat n)) (ofZ 10) = false
  /\ gt (ofZ (Z.of_nat n)) (ofZ 200) = false
  /\ strictEq (ofZ (Z.of_nat n)) zero = false.
Proof.
  intros Hn.
  assert (Hall : forallb
            (fun n => negb (lt (ofZ (Z.of_nat n)) (ofZ 10))
                      && negb (gt (ofZ (Z.of_nat n)) (ofZ 200))
                      && negb (strictEq (ofZ (Z.of_nat n)) zero))
            (seq 10 191) = true) by (vm_compute; reflexivity).
  rewrite forallb_forall in Hall.
  specialize (Hall n). rewrite in_seq in Hall.
  assert (H : 10 <= n < 10 + 191) by lia. apply Hall in H.
  apply andb_true_iff in H. destruct H as [H H3].
  apply andb_true_iff in H. destruct H as [H1 H2].
  apply negb_true_iff in H1, H2, H3. auto.
Qed.

Lemma trim_between (c d : N) (a s b : jsstring) :
  isWhiteSpace c = false -> isWhiteSpace d = false ->
  trim ((c :: a) ++ s ++ b ++ [d]) = (c :: a) ++ s ++ b ++ [d].
Proof.
  intros Hc Hd.
  replace ((c :: a) ++ s ++ b ++ [d]) with (c :: (a ++ s ++ b) ++ [d])
    by (cbn [app]; rewrite <- !app_assoc; reflexivity).
  apply trim_clean; assumption.
Qed.

Section TemplateValidation.

Import QuestionValidator.

Variable toLowerCase : jsstring -> jsstring.
Hypothesis lower_en : toLowerCase (lit "en") = lit "en".

(** A question in English with a valid intent and a text of the given
    shape passes. *)
Lemma framed_question_passes (id0 : jsstring) (c d : N) (a s b it : jsstring)
    (i : nat) :
  isWhiteSpace c = false -> isWhiteSpace d = false ->
  10 <= List.length ((c :: a) ++ s ++ b ++ [d]) <= 200 ->
  existsb (Str.eqb it) VALID_INTENTS = true ->
  let q := GeneratedQuestion.mk id0 ((c :: a) ++ s ++ b ++ [d]) (lit "en") it in
  validateSingleQuestion toLowerCase (asCandidate q) i defaultConfig = []
  /\ normalizedQuestion toLowerCase (asCandidate q) = Some (rawOf q).
Proof.
  intros Hc Hd Hlen Hit. cbv zeta.
  unfold validateSingleQuestion, normalizedQuestion, asCandidate, rawOf.
  cbn [GeneratedQuestion.id GeneratedQuestion.text GeneratedQuestion.language
       GeneratedQuestion.intent].
  set (t := (c :: a) ++ s ++ b ++ [d]) in *.
  change (get (JObj [(lit "id", JStr id0); (lit "text", JStr t);
                     (lit "language", JStr (lit "en")); (lit "intent", JStr it)])
            (lit "text")) with (JStr t).
  change (get (JObj [(lit "id", JStr id0); (lit "text", JStr t);
                     (lit "language", JStr (lit "en")); (lit "intent", JStr it)])
            (lit "intent")) with (JStr it).
  change (get (JObj [(lit "id", JStr id0); (lit "text", JStr t);
                     (lit "language", JStr (lit "en")); (lit "intent", JStr it)])
            (lit "language")) with (JStr (lit "en")).
  cbv beta iota zeta.
  assert (Ht : trim t = t) by (apply trim_between; assumption).
  rewrite Ht, lower_en.
  destruct (lengths_within_default_bounds Hlen) as [H1 [H2 H3]].
  unfold lengthOf. cbn [nullish minTextLength maxTextLength allowedIntents
                        defaultConfig].
  rewrite H1, H2, H3, Hit. split; reflexivity.
Qed.

Lemma templatesFor_pass (s : jsstring) (idx i : nat) :
  List.length s <= 162 ->
  Forall (fun q =>
            forall i,
              validateSingleQuestion toLowerCase (asCandidate q) i defaultConfig
              = []
              /\ normalizedQuestion toLowerCase (asCandidate q) = Some (rawOf q))
    (QuestionGeneration.templatesFor s idx).
Proof.
  intros Hs. unfold QuestionGeneration.templatesFor. cbv zeta.
  apply Forall_cons; [intros j|apply Forall_cons; [intros j|
    apply Forall_cons; [intros j|apply Forall_nil]]].
  - apply (@framed_question_passes _ 87%N 63%N (lit "hich companies provide ")
             s (lit " in my region") (lit "find_service") j);
      try reflexivity.
    rewrite !length_app. cbn [List.length]. 
    change (List.length (lit "hich companies provide ")) with 23.
    change (List.length (lit " in my region")) with 13. lia.
  - apply (@framed_question_passes _ 87%N 63%N (lit "hat are the best options for ")
             s [] (lit "compare_options") j);
      try reflexivity.
    rewrite !length_app. cbn [List.length].
    change (List.length (lit "hat are the best options for ")) with 29. lia.
  - apply (@framed_question_passes _ 72%N 63%N (lit "ow much does ")
             s (lit " cost") (lit "pricing") j);
      try reflexivity.
    rewrite !length_app. cbn [List.length].
    change (List.length (lit "ow much does ")) with 13.
    change (List.length (lit " cost")) with 5. lia.
Qed.

Lemma validateFrom_passing (qs : list GeneratedQuestion.t) :
  Forall (fun q =>
            forall i,
              validateSingleQuestion toLowerCase (asCandidate q) i defaultConfig
              = []
              /\ normalizedQuestion toLowerCase (asCandidate q) = Some (rawOf q))
    qs ->
  forall i validQuestions errors,
    validateFrom toLowerCase i (map asCandidate qs) defaultConfig validQuestions
      errors
    = Some (validQuestions ++ map rawOf qs, errors).
Proof.
  induction 1 as [|q qs Hq _ IH]; intros i vq errs; cbn [map validateFrom].
  - rewrite app_nil_r. reflexivity.
  - destruct (Hq i) as [-> ->]. rewrite IH, <- app_assoc. reflexivity.
Qed.

Lemma flatMapFrom_pass (services : list jsstring) :
  Forall (fun s => List.length s <= 162) services ->
  forall idx,
    Forall (fun q =>
              forall i,
                validateSingleQuestion toLowerCase (asCandidate q) i
                  defaultConfig = []
                /\ normalizedQuestion toLowerCase (asCandidate q)
                   = Some (rawOf q))
      (Arr.flatMapFrom QuestionGeneration.templatesFor idx services).
Proof.
  induction 1 as [|s rest Hs _ IH]; intros idx; cbn [Arr.flatMapFrom];
    [constructor|].
  apply Forall_app. split; [apply (@templatesFor_pass s idx 0 Hs)|apply IH].
Qed.

(** X22.  The template questions meet the standard the validator sets for
    generated ones: when no service name is longer than 162 code units, the
    batch of template questions is valid and every question comes back
    unchanged. *)
Theorem template_questions_pass_validation (company : CompanyProfile.t) :
  Forall (fun s => List.length s <= 162) (CompanyProfile.services company) ->
  validateQuestions toLowerCase
    (JArr (map asCandidate (QuestionGeneration.generateTemplateQuestions company)))
    defaultConfig
  = Some (mkValidation true
            (map rawOf (QuestionGeneration.generateTemplateQuestions company))
            []).
Proof.
  intros Hs. unfold validateQuestions.
  rewrite (@validateFrom_passing _ (@flatMapFrom_pass _ Hs 0)). reflexivity.
Qed.

End TemplateValidation.

Lemma template_questions_pass_validation_witness :
  QuestionValidator.validateQuestions asciiLower
    (JArr (map asCandidate
             (QuestionGeneration.generateTemplateQuestions sampleCompany)))
    QuestionValidator.defaultConfig
  = Some (QuestionValidator.mkValidation true
            (map rawOf (QuestionGeneration.generateTemplateQuestions sampleCompany))
            []).
Proof.
  apply (@template_questions_pass_validation asciiLower eq_refl sampleCompany).
  repeat constructor.
Defined.

(** ** The question generator *)

(** ** Generated questions *)

Lemma mapFrom_length {A B} (f : A -> nat -> B) (l : list A) :
  forall idx, List.length (Arr.mapFrom f idx l) = List.length l.
Proof.
  induction l as [|x l IH]; intros idx; cbn [Arr.mapFrom List.length];
    [reflexivity|]. rewrite IH. reflexivity.
Qed.

Lemma In_firstn {A} (n : nat) (l : list A) (x : A) :
  In x (firstn n l) -> In x l.
Proof.
  revert l. induction n as [|n IH]; intros [|y l]; cbn [firstn In]; try tauto.
  intros [H|H]; [left; exact H|right; apply IH, H].
Qed.

Lemma NoDup_firstn {A} (n : nat) (l : list A) : NoDup l -> NoDup (firstn n l).
Proof.
  revert l. induction n as [|n IH]; intros l H; [constructor|].
  destruct H as [|x l Hx Hl]; cbn [firstn]; constructor.
  - intros Hin. apply Hx. apply (In_firstn n l x Hin).
  - apply IH, Hl.
Qed.

Lemma sliceFromStart_twelve {A} (l : list A) :
  Arr.sliceFromStart l (ofZ 12) = firstn 12 l.
Proof.
  unfold Arr.sliceFromStart.
  change (Arr.ToIntegerOrInfinity (ofZ 12)) with (Arr.Integer 12).
  cbv zeta. cbn [Z.ltb Z.compare].
  destruct (Z.min_spec 12 (Z.of_nat (List.length l))) as [[H ->]|[H ->]].
  - reflexivity.
  - rewrite Nat2Z.id. rewrite firstn_all.
    symmetry. apply firstn_all2. lia.
Qed.

Lemma short_of_eight (n : nat) :
  lt (ofZ (Z.of_nat n)) (ofZ 8) = false -> 8 <= n.
Proof.
  intros H. destruct (le_lt_dec 8 n) as [Hn|Hn]; [exact Hn|exfalso].
  do 8 (destruct n as [|n]; [vm_compute in H; discriminate|]). lia.
Qed.

Section AgentFacts.

Variable toLowerCase : jsstring -> jsstring.
Variable numberToString : number -> jsstring.
Variable callLlm : LlmProvider -> jsstring -> option jsstring.
Variable timestamp : nat -> jsstring.
Variable env : ProcessEnv.t.

Lemma mapFrom_identified_ids (l : list RawQuestion) :
  forall idx id,
    In id (map GeneratedQuestion.id
             (Arr.mapFrom (QuestionGeneration.identified timestamp) idx l)) ->
    exists j, idx <= j
              /\ id = lit "q-" ++ Arr.indexToString j ++ 45%N :: timestamp j.
Proof.
  induction l as [|q l IH]; intros idx id; cbn [Arr.mapFrom map In]; [tauto|].
  intros [<-|H].
  - exists idx. split; [lia|reflexivity].
  - destruct (IH _ _ H) as [j [Hj ->]]. exists j. split; [lia|reflexivity].
Qed.

Lemma mapFrom_identified_NoDup (l : list RawQuestion) :
  forall idx,
    NoDup (map GeneratedQuestion.id
             (Arr.mapFrom (QuestionGeneration.identified timestamp) idx l)).
Proof.
  induction l as [|q l IH]; intros idx; cbn [Arr.mapFrom map]; constructor;
    [|apply IH].
  intros Hin. destruct (mapFrom_identified_ids _ _ _ Hin) as [j [Hj E]].
  cbn [QuestionGeneration.identified GeneratedQuestion.id] in E.
  change (lit "q-" ++ Arr.indexToString idx ++ lit "-" ++ timestamp idx)
    with (113%N :: 45%N :: Arr.indexToString idx ++ 45%N :: timestamp idx) in E.
  change (lit "q-" ++ Arr.indexToString j ++ 45%N :: timestamp j)
    with (113%N :: 45%N :: Arr.indexToString j ++ 45%N :: timestamp j) in E.
  injection E as E.
  apply (digits_then_hyphen _ _ (indexToString_digits idx)
           (indexToString_digits j)) in E.
  destruct E as [E _]. apply indexToString_inj in E. lia.
Qed.

Lemma mapFrom_identified_raw (l : list RawQuestion) :
  forall idx,
    map rawOf (Arr.mapFrom (QuestionGeneration.identified timestamp) idx l) = l.
Proof.
  induction l as [|[t i lg] l IH]; intros idx; cbn [Arr.mapFrom map];
    [reflexivity|].
  rewrite IH. reflexivity.
Qed.

(** How a run of the agent ends: with the template questions when the
    fallback is on, with an error when it is off, or with the validated
    questions of the response. *)
Lemma questionGeneratorAgent_cases (company : CompanyProfile.t)
    (options : QuestionGeneration.QuestionGenerationOptions) :
  let outcome :=
    QuestionGeneration.questionGeneratorAgent toLowerCase numberToString
      callLlm timestamp env company options in
  (fallbackEnabled options = true
   /\ outcome
      = QuestionGeneration.Returned
          (QuestionGeneration.generateTemplateQuestions company))
  \/ (fallbackEnabled options = false /\ exists e, outcome = QuestionGeneration.Threw e)
  \/ exists items validationResult,
       QuestionValidator.validateQuestions toLowerCase (JArr items)
         QuestionValidator.defaultConfig = Some validationResult
       /\ QuestionValidator.valid validationResult = true
       /\ QuestionValidator.questions validationResult <> []
       /\ (lt (Arr.lengthOf (QuestionValidator.questions validationResult))
             (LlmClients.nullish (QuestionGeneration.minQuestions options) (ofZ 8))
           && fallbackEnabled options = false)
       /\ outcome
          = QuestionGeneration.Returned
              (Arr.sliceFromStart
                 (Arr.mapFrom (QuestionGeneration.identified timestamp) 0
                    (QuestionValidator.questions validationResult))
                 (LlmClients.nullish (QuestionGeneration.maxQuestions options)
                    (ofZ 12))).
Proof.
  cbv zeta. unfold QuestionGeneration.questionGeneratorAgent. cbv zeta.
  fold (fallbackEnabled options).
  assert (Hfb : forall e,
            (fallbackEnabled options = true
             /\ (if fallbackEnabled options
                 then QuestionGeneration.Returned
                        (QuestionGeneration.generateTemplateQuestions company)
                 else QuestionGeneration.Threw e)
                = QuestionGeneration.Returned
                    (QuestionGeneration.generateTemplateQuestions company))
            \/ (fallbackEnabled options = false
                /\ exists e',
                     (if fallbackEnabled options
                      then QuestionGeneration.Returned
                             (QuestionGeneration.generateTemplateQuestions company)
                      else QuestionGeneration.Threw e)
                     = QuestionGeneration.Threw e')).
  { intros e. destruct (fallbackEnabled options); [left|right]; eauto. }
  destruct (negb (LlmClients.hasApiKey env _)).
  { destruct (Hfb (QuestionGeneration.ApiKeyNotConfigured
                     (QuestionGeneration.providerOf env options))); tauto. }
  destruct (QuestionGeneration.callNamed callLlm _ _) as [response|].
  2:{ destruct (Hfb QuestionGeneration.CallRejected); tauto. }
  destruct (success (fst (parseQuestionResponse response))
            && Nat.ltb 0 (List.length
                 (QuestionParser.questions (fst (parseQuestionResponse response))))).
  2:{ match goal with |- context [QuestionGeneration.FailedToParse ?m] =>
        destruct (Hfb (QuestionGeneration.FailedToParse m)); tauto end. }
  destruct (QuestionValidator.validateQuestions toLowerCase _ _)
    as [validationResult|] eqn:Hval.
  2:{ destruct (Hfb QuestionGeneration.TypeErrorInValidation); tauto. }
  destruct (QuestionValidator.valid validationResult) eqn:Hvalid; cbn [andb].
  2:{ match goal with |- context [QuestionGeneration.QuestionValidationFailed ?m] =>
        destruct (Hfb (QuestionGeneration.QuestionValidationFailed m)); tauto end. }
  destruct (Nat.ltb 0 (List.length (QuestionValidator.questions validationResult)))
    eqn:Hne.
  2:{ match goal with |- context [QuestionGeneration.QuestionValidationFailed ?m] =>
        destruct (Hfb (QuestionGeneration.QuestionValidationFailed m)); tauto end. }
  assert (Hlen : Arr.lengthOf
            (Arr.mapFrom (QuestionGeneration.identified timestamp) 0
               (QuestionValidator.questions validationResult))
          = Arr.lengthOf (QuestionValidator.questions validationResult))
    by (unfold Arr.lengthOf; rewrite mapFrom_length; reflexivity).
  rewrite Hlen.
  destruct (lt _ _ && fallbackEnabled options) eqn:Hshort.
  - left. apply andb_true_iff in Hshort. destruct Hshort as [_ Hf].
    split; [exact Hf|reflexivity].
  - right. right. eexists _, validationResult.
    split; [exact Hval|]. split; [exact Hvalid|]. split.
    + destruct (QuestionValidator.questions validationResult);
        [discriminate|discriminate].
    + split; [exact Hshort|reflexivity].
Qed.

(** X23.  With the fallback on, as it is by default, the question generator
    never throws; and it returns exactly the template questions whenever the
    provider has no key, the call rejects, or the response is not accepted
    by the parser. *)
Theorem fallback_keeps_generation_total (company : CompanyProfile.t)
    (options : QuestionGeneration.QuestionGenerationOptions) :
  fallbackEnabled options = true ->
  exists questions,
    QuestionGeneration.questionGeneratorAgent toLowerCase numberToString
      callLlm timestamp env company options
    = QuestionGeneration.Returned questions
    /\ (providerUnusable callLlm numberToString env company options ->
        questions = QuestionGeneration.generateTemplateQuestions company).
Proof.
  intros Hfb.
  assert (Hdirect :
    providerUnusable callLlm numberToString env company options ->
    QuestionGeneration.questionGeneratorAgent toLowerCase numberToString
      callLlm timestamp env company options
    = QuestionGeneration.Returned
        (QuestionGeneration.generateTemplateQuestions company)).
  { unfold providerUnusable, QuestionGeneration.questionGeneratorAgent.
    cbv zeta. fold (fallbackEnabled options). rewrite Hfb.
    intros [Hk|[Hc|[response [Hc Hs]]]].
    - rewrite Hk. reflexivity.
    - destruct (negb (LlmClients.hasApiKey env _)); [reflexivity|].
      rewrite Hc. reflexivity.
    - destruct (negb (LlmClients.hasApiKey env _)); [reflexivity|].
      rewrite Hc, Hs. reflexivity. }
  assert (Hq : exists questions,
            QuestionGeneration.questionGeneratorAgent toLowerCase
              numberToString callLlm timestamp env company options
            = QuestionGeneration.Returned questions).
  { destruct (questionGeneratorAgent_cases company options)
      as [[_ H]|[[H _]|[items [vr [_ [_ [_ [_ H]]]]]]]];
      [eauto|congruence|eauto]. }
  destruct Hq as [questions Hq]. exists questions. split; [exact Hq|].
  intros Hun. rewrite (Hdirect Hun) in Hq. injection Hq as <-. reflexivity.
Qed.

(** X24.  With the default bounds, what the question generator returns is
    either the template questions or questions taken from the response:
    then there is at least one and there are at most twelve, at least eight
    when the fallback is on; their ids are pairwise distinct; and each
    meets the constraints of the validator. *)
Theorem generated_questions_are_validated (company : CompanyProfile.t)
    (options : QuestionGeneration.QuestionGenerationOptions)
    (questions : list GeneratedQuestion.t) :
  QuestionGeneration.minQuestions options = None ->
  QuestionGeneration.maxQuestions options = None ->
  QuestionGeneration.questionGeneratorAgent toLowerCase numberToString
    callLlm timestamp env company options
  = QuestionGeneration.Returned questions ->
  questions = QuestionGeneration.generateTemplateQuestions company
  \/ (1 <= List.length questions <= 12
      /\ (fallbackEnabled options = true -> 8 <= List.length questions)
      /\ NoDup (map GeneratedQuestion.id questions)
      /\ Forall (fun q =>
                   meetsConstraints QuestionValidator.defaultConfig (rawOf q))
           questions).
Proof.
  intros Hmin Hmax Hrun.
  destruct (questionGeneratorAgent_cases company options)
    as [[_ H]|[[_ [e H]]|[items [vr [Hval [_ [Hne [Hshort H]]]]]]]].
  - left. congruence.
  - congruence.
  - right. rewrite H in Hrun. injection Hrun as <-.
    rewrite Hmax. cbn [LlmClients.nullish]. rewrite sliceFromStart_twelve.
    rewrite Hmin in Hshort. cbn [LlmClients.nullish] in Hshort.
    set (qs := Arr.mapFrom (QuestionGeneration.identified timestamp) 0
                 (QuestionValidator.questions vr)).
    assert (Hlen : List.length qs = List.length (QuestionValidator.questions vr))
      by apply mapFrom_length.
    assert (Hpos : 1 <= List.length qs).
    { rewrite Hlen. destruct (QuestionValidator.questions vr);
        [congruence|cbn [List.length]; lia]. }
    rewrite length_firstn. repeat split.
    + lia.
    + lia.
    + intros Hfb. rewrite Hfb, andb_true_r in Hshort.
      apply short_of_eight in Hshort. lia.
    + rewrite <- firstn_map. apply NoDup_firstn, mapFrom_identified_NoDup.
    + apply Forall_forall. intros q Hq. apply In_firstn in Hq.
      assert (Hall : Forall (meetsConstraints QuestionValidator.defaultConfig)
                       (QuestionValidator.questions vr)).
      { clear - Hval. revert Hval. unfold QuestionValidator.validateQuestions.
        destruct (validateFrom_spec toLowerCase QuestionValidator.defaultConfig
                    items 0 [] []) as [acc [Hrun Hacc]].
        rewrite Hrun. intros E. injection E as <-.
        cbn [QuestionValidator.questions app].
        apply (@normal_forms_meet_constraints toLowerCase
                 QuestionValidator.defaultConfig _ _ Hacc).
        apply Forall_forall. intros c Hc. apply filter_In in Hc. apply Hc. }
      rewrite Forall_forall in Hall. apply Hall.
      rewrite <- (mapFrom_identified_raw (QuestionValidator.questions vr) 0).
      apply in_map, Hq.
Qed.

End AgentFacts.

Lemma fallback_keeps_generation_total_witness :
  exists questions,
    QuestionGeneration.questionGeneratorAgent asciiLower noDigits silentLlm
      fixedClock emptyEnv sampleCompany QuestionGeneration.noOptions
    = QuestionGeneration.Returned questions.
Proof.
  destruct (@fallback_keeps_generation_total asciiLower noDigits silentLlm
              fixedClock emptyEnv sampleCompany QuestionGeneration.noOptions
              eq_refl) as [questions [H _]].
  exists questions. exact H.
Defined.

Lemma generated_questions_are_validated_witness :
  exists questions,
    QuestionGeneration.questionGeneratorAgent asciiLower noDigits helpfulLlm
      fixedClock openaiOnlyEnv sampleCompany QuestionGeneration.noOptions
    = QuestionGeneration.Returned questions
    /\ List.length questions = 8
    /\ (questions = QuestionGeneration.generateTemplateQuestions sampleCompany
        \/ (1 <= List.length questions <= 12
            /\ (fallbackEnabled QuestionGeneration.noOptions = true ->
                8 <= List.length questions)
            /\ NoDup (map GeneratedQuestion.id questions)
            /\ Forall (fun q =>
                         meetsConstraints QuestionValidator.defaultConfig
                           (rawOf q))
                 questions)).
Proof.
  eexists. split; [vm_compute; reflexivity|]. split; [reflexivity|].
  apply (@generated_questions_are_validated asciiLower noDigits helpfulLlm
           fixedClock openaiOnlyEnv sampleCompany QuestionGeneration.noOptions);
    [reflexivity|reflexivity|vm_compute; reflexivity].
Defined.

(** ** The description of a website *)

(** ** The matcher finds only matches *)

Section MatcherSoundness.

Variable R : Type.
Variable input : jsstring.

Lemma starGreedy_sound (p : N -> bool) (s : jsstring) :
  forall (cap : option jsstring) (k : RegExp.Cont R) (x : R),
    RegExp.starGreedy p s cap k = Some x ->
    exists pre s',
      s = pre ++ s' /\ Forall (fun c => p c = true) pre /\ k s' cap = Some x.
Proof.
  induction s as [|c s IH]; intros cap k x; cbn [RegExp.starGreedy].
  - intros H. exists [], []. repeat split; [constructor|exact H].
  - destruct (p c) eqn:Hc.
    + destruct (RegExp.starGreedy p s cap k) as [y|] eqn:E.
      * intros H. injection H as <-.
        destruct (IH _ _ _ E) as [pre [s' [-> [Hpre Hk]]]].
        exists (c :: pre), s'. repeat split; [constructor; assumption|exact Hk].
      * intros H. exists [], (c :: s). repeat split; [constructor|exact H].
    + intros H. exists [], (c :: s). repeat split; [constructor|exact H].
Qed.

Lemma starLazy_sound (p : N -> bool) (s : jsstring) :
  forall (cap : option jsstring) (k : RegExp.Cont R) (x : R),
    RegExp.starLazy p s cap k = Some x ->
    exists pre s',
      s = pre ++ s' /\ Forall (fun c => p c = true) pre /\ k s' cap = Some x.
Proof.
  induction s as [|c s IH]; intros cap k x; cbn [RegExp.starLazy].
  - destruct (k [] cap) as [y|] eqn:E; [|discriminate].
    intros H. injection H as <-.
    exists [], []. repeat split; [constructor|exact E].
  - destruct (k (c :: s) cap) as [y|] eqn:E.
    + intros H. injection H as <-.
      exists [], (c :: s). repeat split; [constructor|exact E].
    + destruct (p c) eqn:Hc; [|discriminate].
      intros H. destruct (IH _ _ _ H) as [pre [s' [-> [Hpre Hk]]]].
      exists (c :: pre), s'. repeat split; [constructor; assumption|exact Hk].
Qed.

Lemma run_sound (icase : bool) (r : RegExp.pattern) :
  forall (s : jsstring) (cap : option jsstring) (k : RegExp.Cont R) (x : R),
    RegExp.run input icase r s cap k = Some x ->
    exists s' cap',
      Matches input icase r s cap s' cap' /\ k s' cap' = Some x.
Proof.
  induction r as [|c|p|a IHa b IHb|a IHa b IHb|p|p|a IHa| |];
    intros s cap k x; cbn [RegExp.run].
  - intros H. exists s, cap. split; [constructor|exact H].
  - destruct s as [|d s']; [discriminate|].
    destruct (RegExp.charMatches icase c d) eqn:E; [|discriminate].
    intros H. exists s', cap. split; [constructor; exact E|exact H].
  - destruct s as [|d s']; [discriminate|].
    destruct (p d) eqn:E; [|discriminate].
    intros H. exists s', cap. split; [constructor; exact E|exact H].
  - intros H. destruct (IHa _ _ _ _ H) as [s1 [cap1 [Ha Hb]]].
    destruct (IHb _ _ _ _ Hb) as [s2 [cap2 [Hb' Hk]]].
    exists s2, cap2. split; [econstructor; eassumption|exact Hk].
  - destruct (RegExp.run input icase a s cap k) as [y|] eqn:E.
    + intros H. injection H as <-.
      destruct (IHa _ _ _ _ E) as [s1 [cap1 [Ha Hk]]].
      exists s1, cap1. split; [apply MatchesAltLeft; exact Ha|exact Hk].
    + intros H. destruct (IHb _ _ _ _ H) as [s1 [cap1 [Hb Hk]]].
      exists s1, cap1. split; [apply MatchesAltRight; exact Hb|exact Hk].
  - intros H. destruct (starGreedy_sound _ _ _ _ H) as [pre [s' [-> [Hp Hk]]]].
    exists s', cap. split; [constructor; exact Hp|exact Hk].
  - intros H. destruct (starLazy_sound _ _ _ _ H) as [pre [s' [-> [Hp Hk]]]].
    exists s', cap. split; [constructor; exact Hp|exact Hk].
  - intros H. destruct (IHa _ _ _ _ H) as [s1 [cap1 [Ha Hk]]].
    exists s1, (Some (RegExp.consumed s s1)).
    split; [econstructor; exact Ha|exact Hk].
  - destruct (Nat.eqb (List.length s) (List.length input)) eqn:E; [|discriminate].
    intros H. exists s, cap. split; [|exact H].
    constructor. apply Nat.eqb_eq, E.
  - destruct s; [|discriminate].
    intros H. exists [], cap. split; [constructor|exact H].
Qed.

End MatcherSoundness.

Lemma Matches_suffix (input : jsstring) (icase : bool) (r : RegExp.pattern)
    (s : jsstring) (cap : option jsstring) (s' : jsstring)
    (cap' : option jsstring) :
  Matches input icase r s cap s' cap' -> exists pre, s = pre ++ s'.
Proof.
  induction 1;
    try (exists []; reflexivity);
    try (eexists [_]; reflexivity);
    try (eexists; reflexivity);
    try assumption.
  destruct IHMatches1 as [p1 ->]. destruct IHMatches2 as [p2 ->].
  exists (p1 ++ p2). rewrite app_assoc. reflexivity.
Qed.

(** The capture after a match is the one before it, or the text that the
    body of one of the groups of the pattern matched. *)
Lemma Matches_capture (input : jsstring) (icase : bool) (r : RegExp.pattern)
    (s : jsstring) (cap : option jsstring) (s' : jsstring)
    (cap' : option jsstring) :
  Matches input icase r s cap s' cap' ->
  cap' = cap
  \/ exists g s1 c1 s2 c2,
       In g (groups r) /\ Matches input icase g s1 c1 s2 c2
       /\ cap' = Some (RegExp.consumed s1 s2).
Proof.
  induction 1; cbn [groups]; try (left; reflexivity).
  - destruct IHMatches2 as [->|[g [x1 [c1 [x2 [c2 [Hg [Hm ->]]]]]]]].
    + destruct IHMatches1 as [->|[g [x1 [c1 [x2 [c2 [Hg [Hm ->]]]]]]]];
        [left; reflexivity|].
      right. exists g, x1, c1, x2, c2. rewrite in_app_iff. auto.
    + right. exists g, x1, c1, x2, c2. rewrite in_app_iff. auto.
  - destruct IHMatches as [->|[g [x1 [c1 [x2 [c2 [Hg [Hm ->]]]]]]]];
      [left; reflexivity|].
    right. exists g, x1, c1, x2, c2. rewrite in_app_iff. auto.
  - destruct IHMatches as [->|[g [x1 [c1 [x2 [c2 [Hg [Hm ->]]]]]]]];
      [left; reflexivity|].
    right. exists g, x1, c1, x2, c2. rewrite in_app_iff. auto.
  - right. exists a, s, cap, s1, cap1. split; [left; reflexivity|].
    split; [assumption|reflexivity].
Qed.

Lemma execFrom_sound (re : RegExp.regexp) (input s : jsstring)
    (m : RegExp.MatchResult) :
  RegExp.execFrom re input s = Some m ->
  exists s0 s' cap',
    Matches input (RegExp.ignoreCase re) (RegExp.source re) s0 None s' cap'
    /\ RegExp.group1 m = cap'.
Proof.
  induction s as [|c s IH]; cbn [RegExp.execFrom].
  - destruct (RegExp.matchAt re input []) as [m'|] eqn:E; [|discriminate].
    intros H. injection H as ->. unfold RegExp.matchAt in E.
    destruct (run_sound _ _ _ _ _ _ E) as [s' [cap' [Hm Hk]]].
    injection Hk as <-. exists [], s', cap'. split; [exact Hm|reflexivity].
  - destruct (RegExp.matchAt re input (c :: s)) as [m'|] eqn:E.
    + intros H. injection H as ->. unfold RegExp.matchAt in E.
      destruct (run_sound _ _ _ _ _ _ E) as [s' [cap' [Hm Hk]]].
      injection Hk as <-. exists (c :: s), s', cap'.
      split; [exact Hm|reflexivity].
    + exact IH.
Qed.

(** ** The description of a page *)

Lemma metaRegex_capture (html g : jsstring) :
  QuestionParser.truthyGroup (RegExp.exec SiteMetadata.metaRegex html) = Some g ->
  g <> [] /\ Forall (fun c => SiteMetadata.isQuote c = false) g.
Proof.
  unfold QuestionParser.truthyGroup, RegExp.exec.
  destruct (RegExp.execFrom SiteMetadata.metaRegex html html) as [m|] eqn:E;
    [|discriminate].
  destruct (execFrom_sound _ _ _ E) as [s0 [s' [cap' [Hm Hg]]]].
  rewrite Hg. destruct cap' as [[|c g']|]; try discriminate.
  intros H. injection H as <-. split; [discriminate|].
  destruct (Matches_capture Hm) as [Hc|[b [s1 [c1 [s2 [c2 [Hin [Hb Hc]]]]]]]];
    [discriminate|].
  cbn in Hin. destruct Hin as [<-|[]].
  injection Hc as Hc. rewrite Hc.
  inversion Hb as [| | |a b0 x cap x1 cap1 x2 cap2 H1 H2| | | | | | |]; subst.
  inversion H1 as [| |p d y cap0 Hd| | | | | | | |]; subst.
  inversion H2 as [| | | | | |p pre y cap0 Hpre| | | |]; subst.
  change (d :: pre ++ s2) with ((d :: pre) ++ s2).
  rewrite consumed_app.
  assert (Hnq : forall c, SiteMetadata.notQuote c = true ->
                          SiteMetadata.isQuote c = false).
  { intros c0. unfold SiteMetadata.notQuote. apply negb_true_iff. }
  constructor; [apply Hnq, Hd|].
  eapply Forall_impl; [|exact Hpre]. exact Hnq.
Qed.

Lemma trimStart_trim (s : jsstring) : trimStart (trim s) = trim s.
Proof.
  unfold trim. destruct (trimStart s) as [|c r] eqn:E; [reflexivity|].
  pose proof (dropWhile_head _ _ E) as Hc.
  destruct (@trimEnd_head c r Hc) as [x ->].
  apply trimStart_head, Hc.
Qed.

Lemma trimStart_firstn (n : nat) (s : jsstring) :
  trimStart s = s -> trimStart (firstn n s) = firstn n s.
Proof.
  destruct s as [|c s]; [destruct n; reflexivity|].
  destruct n; [reflexivity|]. cbn [firstn]. unfold trimStart. cbn [dropWhile].
  destruct (isWhiteSpace c) eqn:Hc; [|reflexivity].
  intros H. exfalso.
  pose proof (dropWhile_length isWhiteSpace s) as Hl.
  rewrite H in Hl. cbn [List.length] in Hl. lia.
Qed.

Lemma firstn_nonempty {A} (n : nat) (l : list A) :
  0 < n -> l <> [] -> firstn n l <> [].
Proof.
  destruct n as [|n]; [lia|]. destruct l; [congruence|]. discriminate.
Qed.

Lemma descriptionIn_clean (html d : jsstring) :
  SiteMetadata.descriptionIn html = Some d ->
  d <> [] /\ List.length d <= 500
  /\ Forall (fun c => SiteMetadata.isQuote c = false) d
  /\ trimStart d = d.
Proof.
  unfold SiteMetadata.descriptionIn.
  destruct (QuestionParser.truthyGroup _) as [g|] eqn:E; [|discriminate].
  destruct (metaRegex_capture _ E) as [_ Hq].
  cbv zeta.
  destruct (Nat.ltb 0 (List.length (trim g))) eqn:Hlen; [|discriminate].
  intros H.
  assert (Hd : d = firstn 500 (trim g)) by congruence.
  clear H. subst d.
  repeat split.
  - apply firstn_nonempty; [lia|].
    intros Ht. rewrite Ht in Hlen. discriminate.
  - apply firstn_le_length.
  - apply Forall_firstn, Forall_trim, Hq.
  - apply trimStart_firstn, trimStart_trim.
Qed.

Section FetchFacts.

Variable fetch : jsstring -> SiteMetadata.FetchOutcome.

(** X25.  A description fetched from a site comes from a page that was
    delivered with a success status, for a URL that is not empty; it is not
    empty, at most 500 code units long, free of both kinds of quotes, and
    does not start with white space. *)
Theorem fetched_description_is_clean (url d : jsstring) :
  SiteMetadata.fetchMetaDescription fetch url = Some d ->
  url <> []
  /\ (exists html, fetch url = SiteMetadata.Responded true (Some html))
  /\ d <> [] /\ List.length d <= 500
  /\ Forall (fun c => SiteMetadata.isQuote c = false) d
  /\ trimStart d = d.
Proof.
  unfold SiteMetadata.fetchMetaDescription.
  destruct url as [|u url']; [discriminate|].
  destruct (fetch (u :: url')) as [|ok body]; [discriminate|].
  destruct ok; [|discriminate]. cbn [negb].
  destruct body as [html|]; [|discriminate].
  intros H. split; [discriminate|]. split; [eauto|].
  apply (descriptionIn_clean _ H).
Qed.

End FetchFacts.

Lemma fetched_description_is_clean_witness :
  SiteMetadata.fetchMetaDescription sampleFetch (lit "https://acme.example")
  = Some (lit "Backups for teams")
  /\ List.length (lit "Backups for teams") <= 500.
Proof.
  assert (H : SiteMetadata.fetchMetaDescription sampleFetch
                (lit "https://acme.example") = Some (lit "Backups for teams"))
    by (vm_compute; reflexivity).
  split; [exact H|].
  apply (@fetched_description_is_clean sampleFetch (lit "https://acme.example")
           (lit "Backups for teams") H).
Defined.

(** ** The orchestrator *)

Section FlowFacts.

Variable toLowerCase : jsstring -> jsstring.
Variable numberToString : number -> jsstring.
Variable toFixed2 : number -> jsstring.
Variable ToNumber : JsValue -> number.
Variable syntaxErrorMessage : jsstring -> jsstring.
Variable coercedFinalScore : Breakdown.t -> JsValue -> option number.
Variable callLlm : LlmProvider -> jsstring -> option jsstring.
Variable timestamp : nat -> jsstring.
Variable fetch : jsstring -> SiteMetadata.FetchOutcome.
Variable env : ProcessEnv.t.

Lemma describe_services (company : CompanyProfile.t) :
  CompanyProfile.services (Orchestrator.describe fetch company)
  = CompanyProfile.services company.
Proof.
  unfold Orchestrator.describe.
  destruct (CompanyProfile.description company); [|reflexivity].
  destruct (CompanyProfile.website company) as [[|c w]|]; try reflexivity.
  destruct (SiteMetadata.fetchMetaDescription fetch (c :: w)) as [[|d m]|];
    reflexivity.
Qed.

Lemma checkProvider_scores (company : CompanyProfile.t)
    (questions : list GeneratedQuestion.t) (p : LlmProvider) :
  Forall (scoreFor p company)
    (VisibilityAgent.scores
       (Orchestrator.checkProvider toLowerCase ToNumber syntaxErrorMessage
          coercedFinalScore callLlm env company questions p)).
Proof.
  unfold Orchestrator.checkProvider,
    VisibilityAgent.visibilityAgentForProvider.
  pose proof (answerFrom_spec toLowerCase ToNumber syntaxErrorMessage
                coercedFinalScore callLlm env p company questions [] []) as H.
  destruct (VisibilityAgent.answerFrom _ _ _ _ _ _ _ _ _ _ _) as [r|].
  - destruct H as [As [Ss [-> [_ [_ H]]]]]. exact H.
  - constructor.
Qed.


(** The key of a score is a service of the company, or "undefined" when
    the company has none. *)
Lemma keyedScore_service (company : CompanyProfile.t) (p : LlmProvider)
    (s : VisibilityAgent.Scored) :
  scoreFor p company s ->
  match CompanyProfile.services company with
  | [] => VisibilityScore.service (Orchestrator.keyedScore s) = lit "undefined"
  | _ :: _ =>
      In (VisibilityScore.service (Orchestrator.keyedScore s))
        (CompanyProfile.services company)
  end.
Proof.
  intros [_ [_ [_ H]]]. unfold Orchestrator.keyedScore.
  cbn [VisibilityScore.service].
  destruct (CompanyProfile.services company) as [|s0 rest].
  - rewrite H. reflexivity.
  - destruct H as [sv [-> Hin]]. exact Hin.
Qed.

Lemma flow_scores (company : CompanyProfile.t)
    (questions : list GeneratedQuestion.t) (providers : list LlmProvider)
    (sc : VisibilityScore.t) :
  In sc (allScores
           (map Orchestrator.keyedResult
              (map (Orchestrator.checkProvider toLowerCase ToNumber
                      syntaxErrorMessage coercedFinalScore callLlm env company
                      questions) providers))) ->
  match CompanyProfile.services company with
  | [] => VisibilityScore.service sc = lit "undefined"
  | _ :: _ => In (VisibilityScore.service sc) (CompanyProfile.services company)
  end.
Proof.
  unfold allScores. rewrite in_flat_map.
  intros [r [Hr Hsc]].
  rewrite map_map in Hr. apply in_map_iff in Hr. destruct Hr as [p [<- _]].
  cbn [Orchestrator.keyedResult ProviderVisibilityResult.scores] in Hsc.
  apply in_map_iff in Hsc. destruct Hsc as [s [<- Hs]].
  pose proof (checkProvider_scores company questions p) as Hall.
  rewrite Forall_forall in Hall.
  apply (keyedScore_service (Hall s Hs)).
Qed.

Lemma generation_returns (company : CompanyProfile.t) :
  exists questions,
    QuestionGeneration.questionGeneratorAgent toLowerCase numberToString
      callLlm timestamp env company QuestionGeneration.noOptions
    = QuestionGeneration.Returned questions.
Proof.
  destruct (questionGeneratorAgent_cases toLowerCase numberToString callLlm
              timestamp env company QuestionGeneration.noOptions)
    as [[_ H]|[[H _]|[items [vr [_ [_ [_ [_ H]]]]]]]];
    [eauto|discriminate|eauto].
Qed.

(** X26.  The whole flow completes for every company none of whose services
    is named after a member of [Object.prototype], whatever the providers
    answer or fail to answer, whatever the site returns and whatever the
    environment holds. *)
Theorem flow_completes (company : CompanyProfile.t) :
  plainServices company ->
  exists dashboard,
    Orchestrator.runVisibilityFlow toLowerCase numberToString toFixed2 ToNumber
      syntaxErrorMessage coercedFinalScore callLlm timestamp fetch env company
    = Orchestrator.Completed dashboard.
Proof.
  intros Hplain. unfold Orchestrator.runVisibilityFlow. cbv zeta.
  set (company' := Orchestrator.describe fetch company).
  destruct (generation_returns company') as [questions ->].
  unfold Agents.dashboardAgent.
  match goal with
  | |- context [Agents.groupScores [] ?prs] =>
      pose proof (groupScores_from_empty prs) as H;
      destruct (Agents.groupScores [] prs) as [m|]
  end; [eauto|].
  exfalso. apply Exists_exists in H. destruct H as [sc [Hin Hclash]].
  apply flow_scores in Hin. unfold clashesWithPrototype in Hclash.
  unfold company' in Hin. rewrite describe_services in Hin.
  unfold plainServices in Hplain.
  destruct (CompanyProfile.services company) as [|s0 rest].
  - rewrite Hin in Hclash. vm_compute in Hclash. discriminate.
  - rewrite Forall_forall in Hplain. rewrite (Hplain _ Hin) in Hclash.
    discriminate.
Qed.


End FlowFacts.

Lemma flow_completes_witness :
  exists dashboard,
    Orchestrator.runVisibilityFlow asciiLower noDigits noDigits noCoercion
      noMessage (fun _ _ => None) failingLlm fixedClock deadFetch emptyEnv
      sampleCompany
    = Orchestrator.Completed dashboard.
Proof.
  apply (@flow_completes asciiLower noDigits noDigits noCoercion noMessage
           (fun _ _ => None) failingLlm fixedClock deadFetch emptyEnv
           sampleCompany).
  repeat constructor.
Defined.

